(** * NanoGPT assistant plugin: a shallow embedding of its core logic

    The plugin is TypeScript running inside a host editor.  This file
    embeds the parts that carry logic of their own: the API client (SSE
    stream consumer, model-list caches, authenticated fetch), the chat
    history store, the folder-context assembler, the image store, the
    ghost-text editor extension, the two request guards (inline
    autocomplete and chat send), and the chat view's helpers for commands
    typed into it (URLs to scrape, titles of notes to create, paths for
    new notes).

    Conventions.
    - A JavaScript string is a [string]: one [ascii] per UTF-16 code unit,
      restricted to the code units 0..255.
    - A JavaScript number that holds an integer (a timestamp, a length, a
      counter, an HTTP status) is a [Z] or a [nat].
    - Host and platform services (network, clock, vault, editor) are
      explicit inputs or explicit state.
    - An asynchronous method is run to completion in one step; where the
      order of callbacks matters (autocomplete, chat send) the method is
      cut at its await into the part before and the part after. *)

From Stdlib Require Import ZArith Ascii String DecimalString Lia Sorted.
From Stdlib Require DecimalZ.
From stdpp Require Import gmap strings list fin_maps.

Local Open Scope Z_scope.

(** ** JavaScript strings *)

Module Str.

Definition nl : ascii := "010"%char.
Definition dquote : ascii := "034"%char.
Definition backslash : ascii := "092"%char.

(** [s.length] *)
Definition len (s : string) : Z := Z.of_nat (String.length s).

(** [s.split(sep)] for a one-character separator: never empty. *)
Fixpoint split (sep : ascii) (s : string) : list string :=
  match s with
  | EmptyString => [EmptyString]
  | String c s' =>
      if Ascii.eqb c sep then EmptyString :: split sep s'
      else match split sep s' with
           | [] => [String c EmptyString]
           | l :: ls => String c l :: ls
           end
  end.

(** The white space and line terminators that [trim] strips, among the
    code units 0..255: TAB, LF, VT, FF, CR, SP and NBSP. *)
Definition is_space (c : ascii) : bool :=
  match c with
  | "009" | "010" | "011" | "012" | "013" | " " | "160" => true
  | _ => false
  end%char.

Fixpoint trimStart (s : string) : string :=
  match s with
  | String c s' => if is_space c then trimStart s' else s
  | EmptyString => EmptyString
  end.

Fixpoint trimEnd (s : string) : string :=
  match s with
  | EmptyString => EmptyString
  | String c s' =>
      match trimEnd s' with
      | EmptyString => if is_space c then EmptyString else String c EmptyString
      | t => String c t
      end
  end.

(** [s.trim()] *)
Definition trim (s : string) : string := trimEnd (trimStart s).

(** [s.startsWith(p)] *)
Definition startsWith (p s : string) : bool := String.prefix p s.

(** [s.slice(n)] for [0 <= n] *)
Fixpoint slice_from (n : nat) (s : string) : string :=
  match n, s with
  | O, _ => s
  | S n', String _ s' => slice_from n' s'
  | S _, EmptyString => EmptyString
  end.

(** [s.slice(0, n)] for [0 <= n] *)
Fixpoint slice_to (n : nat) (s : string) : string :=
  match n, s with
  | O, _ => EmptyString
  | S n', String c s' => String c (slice_to n' s')
  | S _, EmptyString => EmptyString
  end.

(** [s.endsWith(p)] *)
Definition endsWith (p s : string) : bool :=
  (String.length p <=? String.length s)%nat
  && String.eqb (slice_from (String.length s - String.length p) s) p.

(** Index of the first occurrence of [p] in [s]. *)
Fixpoint indexOf_aux (fuel : nat) (p s : string) (i : nat) : option nat :=
  if String.prefix p s then Some i
  else match fuel, s with
       | S f, String _ s' => indexOf_aux f p s' (S i)
       | _, _ => None
       end.

Definition indexOf (p s : string) : option nat :=
  indexOf_aux (String.length s) p s 0.

(** [s.includes(p)] *)
Definition includes (p s : string) : bool :=
  match indexOf p s with Some _ => true | None => false end.

(** [s.replace(p, r)] with a string pattern: the first occurrence only. *)
Definition replace_first (p r s : string) : string :=
  match indexOf p s with
  | Some i => slice_to i s +:+ r +:+ slice_from (i + String.length p) s
  | None => s
  end.

(** Decimal rendering of an integer, as a template literal prints it. *)
Definition of_Z (z : Z) : string := NilEmpty.string_of_int (Z.to_int z).

Definition concat (l : list string) : string :=
  fold_right String.append EmptyString l.

End Str.

(** ** JavaScript values, as far as JSON reaches *)

Module JS.

(** A number is kept as the decimal [m * 10^e] it was written as; it
    denotes the nearest double. *)
#[warnings="-register-all"]
Inductive value : Type :=
| VUndefined
| VNull
| VBool (b : bool)
| VNum (m e : Z)
| VStr (s : string)
| VArr (l : list value)
| VObj (o : list (string * value)).

Definition nullish (v : value) : bool :=
  match v with VUndefined | VNull => true | _ => false end.

(** The double nearest to [m * 10^e] is zero exactly when [m = 0] or the
    magnitude is at most half the least subnormal, [2^-1075]. *)
Definition num_is_zero (m e : Z) : bool :=
  (m =? 0) || ((e <? 0) && (Z.abs m * 2 ^ 1075 <=? 10 ^ (- e))).

(** ToBoolean *)
Definition truthy (v : value) : bool :=
  match v with
  | VUndefined | VNull => false
  | VBool b => b
  | VNum m e => negb (num_is_zero m e)
  | VStr s => negb (String.eqb s EmptyString)
  | VArr _ | VObj _ => true
  end.

(** [a || b] *)
Definition or_else (a b : value) : value := if truthy a then a else b.

Definition is_digit (c : ascii) : bool :=
  (48 <=? nat_of_ascii c)%nat && (nat_of_ascii c <=? 57)%nat.

Fixpoint digits_value (s : string) (acc : N) : option N :=
  match s with
  | EmptyString => Some acc
  | String c s' =>
      if is_digit c
      then digits_value s' (acc * 10 + N.of_nat (nat_of_ascii c - 48))%N
      else None
  end.

(** A property key that is an array index: a canonical decimal numeral
    below [2^32 - 1]. *)
Definition to_index (k : string) : option nat :=
  match k with
  | EmptyString => None
  | String c rest =>
      if Ascii.eqb c "0" && negb (String.eqb rest EmptyString) then None
      else match digits_value k 0 with
           | Some n => if (n <? 4294967295)%N then Some (N.to_nat n) else None
           | None => None
           end
  end.

Fixpoint lookup_own (k : string) (o : list (string * value)) : option value :=
  match o with
  | [] => None
  | (k', v) :: o' => if String.eqb k k' then Some v else lookup_own k o'
  end.

Definition from_option (o : option value) : value :=
  match o with Some v => v | None => VUndefined end.

(** [v[k]] / [v.k]: [None] is the TypeError raised on [null] and
    [undefined].  Inherited properties are left out: the client reads only
    the names choices, delta, content, models, image, data, model, id,
    name, description, engine, balance and array indices, none of which a
    built-in prototype defines. *)
Definition get (v : value) (k : string) : option value :=
  match v with
  | VUndefined | VNull => None
  | VBool _ | VNum _ _ => Some VUndefined
  | VStr s =>
      Some (match to_index k with
            | Some i => match String.get i s with
                        | Some c => VStr (String c EmptyString)
                        | None => VUndefined
                        end
            | None => if String.eqb k "length" then VNum (Str.len s) 0
                      else VUndefined
            end)
  | VArr l =>
      Some (match to_index k with
            | Some i => from_option (l !! i)
            | None => if String.eqb k "length" then VNum (Z.of_nat (length l)) 0
                      else VUndefined
            end)
  | VObj o => Some (from_option (lookup_own k o))
  end.

Definition get_idx (v : value) (i : nat) : option value :=
  get v (Str.of_Z (Z.of_nat i)).

(** [v?.k] *)
Definition opt_get (v : value) (k : string) : value :=
  if nullish v then VUndefined else from_option (get v k).

(** [typeof v] *)
Definition typeof (v : value) : string :=
  match v with
  | VUndefined => "undefined"
  | VNull | VArr _ | VObj _ => "object"
  | VBool _ => "boolean"
  | VNum _ _ => "number"
  | VStr _ => "string"
  end.

(** [Array.isArray(v)] *)
Definition isArray (v : value) : bool :=
  match v with VArr _ => true | _ => false end.

Fixpoint has_key (k : string) (o : list (string * value)) : bool :=
  match o with
  | [] => false
  | (k', _) :: o' => String.eqb k k' || has_key k o'
  end.

Fixpoint replace_key (k : string) (v : value) (o : list (string * value))
  : list (string * value) :=
  match o with
  | [] => []
  | (k', v') :: o' =>
      if String.eqb k k' then (k', v) :: o' else (k', v') :: replace_key k v o'
  end.

Fixpoint insert_index (i : nat) (k : string) (v : value)
  (o : list (string * value)) : list (string * value) :=
  match o with
  | [] => [(k, v)]
  | (k', v') :: o' =>
      match to_index k' with
      | Some j => if (j <? i)%nat then (k', v') :: insert_index i k v o'
                  else (k, v) :: o
      | None => (k, v) :: o
      end
  end.

(** Defining the data property [k] on an ordinary object whose properties
    are listed in enumeration order: array-index keys first, ascending,
    then the other keys in order of creation; a key that exists keeps its
    place and takes the new value. *)
Definition define (k : string) (v : value) (o : list (string * value))
  : list (string * value) :=
  if has_key k o then replace_key k v o
  else match to_index k with
       | Some i => insert_index i k v o
       | None => o ++ [(k, v)]
       end.

End JS.

(** ** [JSON.parse]

    A recursive-descent reader for the JSON grammar over the modelled code
    units.  [None] is the SyntaxError.  A [\u] escape above 00FF denotes a
    code unit outside the modelled range and is refused here. *)

Module JSON.
Import JS.

Definition is_ws (c : ascii) : bool :=
  match c with
  | " " | "009" | "010" | "013" => true
  | _ => false
  end%char.

Fixpoint skip_ws (s : string) : string :=
  match s with
  | String c s' => if is_ws c then skip_ws s' else s
  | EmptyString => EmptyString
  end.

Definition hex_value (c : ascii) : option nat :=
  let n := nat_of_ascii c in
  if ((48 <=? n) && (n <=? 57))%nat then Some (n - 48)%nat
  else if ((65 <=? n) && (n <=? 70))%nat then Some (n - 55)%nat
  else if ((97 <=? n) && (n <=? 102))%nat then Some (n - 87)%nat
  else None.

(** The four hex digits after [\u]. *)
Definition unicode_escape (s : string) : option (ascii * string) :=
  match s with
  | String a (String b (String c (String d rest))) =>
      match hex_value a, hex_value b, hex_value c, hex_value d with
      | Some 0%nat, Some 0%nat, Some h, Some l =>
          Some (ascii_of_nat (16 * h + l), rest)
      | _, _, _, _ => None
      end
  | _ => None
  end.

(** The characters of a string literal after its opening quote. *)
Fixpoint string_body (fuel : nat) (s : string) : option (string * string) :=
  match fuel with
  | O => None
  | S f =>
      match s with
      | EmptyString => None
      | String c r =>
          if Ascii.eqb c Str.dquote then Some (EmptyString, r)
          else if Ascii.eqb c Str.backslash then
            match r with
            | EmptyString => None
            | String e r' =>
                let simple (x : ascii) :=
                  match string_body f r' with
                  | Some (t, rest) => Some (String x t, rest)
                  | None => None
                  end in
                if Ascii.eqb e Str.dquote then simple Str.dquote
                else if Ascii.eqb e Str.backslash then simple Str.backslash
                else if Ascii.eqb e "/" then simple "/"%char
                else if Ascii.eqb e "b" then simple "008"%char
                else if Ascii.eqb e "f" then simple "012"%char
                else if Ascii.eqb e "n" then simple "010"%char
                else if Ascii.eqb e "r" then simple "013"%char
                else if Ascii.eqb e "t" then simple "009"%char
                else if Ascii.eqb e "u" then
                  match unicode_escape r' with
                  | Some (x, r'') =>
                      match string_body f r'' with
                      | Some (t, rest) => Some (String x t, rest)
                      | None => None
                      end
                  | None => None
                  end
                else None
            end
          else if (nat_of_ascii c <? 32)%nat then None
          else match string_body f r with
               | Some (t, rest) => Some (String c t, rest)
               | None => None
               end
      end
  end.

Fixpoint take_digits (s : string) : string * string :=
  match s with
  | String c r =>
      if is_digit c then let '(d, rest) := take_digits r in (String c d, rest)
      else (EmptyString, s)
  | EmptyString => (EmptyString, EmptyString)
  end.

Definition digits_Z (d : string) : Z :=
  match digits_value d 0 with Some n => Z.of_N n | None => 0 end.

(** int frac? exp?  read into mantissa and decimal exponent. *)
Definition number (s : string) : option (value * string) :=
  let '(neg, s1) :=
    match s with
    | String "-" r => (true, r)
    | _ => (false, s)
    end in
  let '(int, s2) := take_digits s1 in
  match int with
  | EmptyString => None
  | String c more =>
      if Ascii.eqb c "0" && negb (String.eqb more EmptyString) then None
      else
        let frac_part :=
          match s2 with
          | String "." r =>
              let '(fr, s3) := take_digits r in
              match fr with
              | EmptyString => None
              | _ => Some (fr, s3)
              end
          | _ => Some (EmptyString, s2)
          end in
        match frac_part with
        | None => None
        | Some (fr, s3) =>
            let exp_part :=
              match s3 with
              | String c r =>
                  if Ascii.eqb c "e" || Ascii.eqb c "E" then
                    let '(eneg, r1) :=
                      match r with
                      | String "-" r' => (true, r')
                      | String "+" r' => (false, r')
                      | _ => (false, r)
                      end in
                    let '(ex, s4) := take_digits r1 in
                    match ex with
                    | EmptyString => None
                    | _ => Some (if eneg then - digits_Z ex else digits_Z ex, s4)
                    end
                  else Some (0, s3)
              | EmptyString => Some (0, s3)
              end in
            match exp_part with
            | None => None
            | Some (ex, s4) =>
                let m := digits_Z (int +:+ fr) in
                Some (VNum (if neg then - m else m)
                           (ex - Z.of_nat (String.length fr)), s4)
            end
        end
  end.

Definition literal (word : string) (v : value) (s : string)
  : option (value * string) :=
  if Str.startsWith word s
  then Some (v, Str.slice_from (String.length word) s)
  else None.

Fixpoint parse_value (fuel : nat) (s : string) : option (value * string) :=
  match fuel with
  | O => None
  | S f =>
      match skip_ws s with
      | EmptyString => None
      | String c r as s0 =>
          if Ascii.eqb c "{" then
            match skip_ws r with
            | String "}" r' => Some (VObj [], r')
            | r0 =>
                match parse_members f r0 [] with
                | Some (o, rest) => Some (VObj o, rest)
                | None => None
                end
            end
          else if Ascii.eqb c "[" then
            match skip_ws r with
            | String "]" r' => Some (VArr [], r')
            | r0 =>
                match parse_elements f r0 with
                | Some (l, rest) => Some (VArr l, rest)
                | None => None
                end
            end
          else if Ascii.eqb c Str.dquote then
            match string_body (String.length r) r with
            | Some (t, rest) => Some (VStr t, rest)
            | None => None
            end
          else if Ascii.eqb c "t" then literal "true" (VBool true) s0
          else if Ascii.eqb c "f" then literal "false" (VBool false) s0
          else if Ascii.eqb c "n" then literal "null" VNull s0
          else number s0
      end
  end
with parse_elements (fuel : nat) (s : string) : option (list value * string) :=
  match fuel with
  | O => None
  | S f =>
      match parse_value f s with
      | None => None
      | Some (v, rest) =>
          match skip_ws rest with
          | String "," r =>
              match parse_elements f r with
              | Some (l, rest') => Some (v :: l, rest')
              | None => None
              end
          | String "]" r => Some ([v], r)
          | _ => None
          end
      end
  end
with parse_members (fuel : nat) (s : string) (acc : list (string * value))
  : option (list (string * value) * string) :=
  match fuel with
  | O => None
  | S f =>
      match skip_ws s with
      | String c r =>
          if Ascii.eqb c Str.dquote then
            match string_body (String.length r) r with
            | None => None
            | Some (k, rest) =>
                match skip_ws rest with
                | String ":" r1 =>
                    match parse_value f r1 with
                    | None => None
                    | Some (v, rest1) =>
                        let acc' := define k v acc in
                        match skip_ws rest1 with
                        | String "," r2 => parse_members f r2 acc'
                        | String "}" r2 => Some (acc', r2)
                        | _ => None
                        end
                    end
                | _ => None
                end
            end
          else None
      | EmptyString => None
      end
  end.

(** [JSON.parse(text)] *)
Definition parse (text : string) : option value :=
  match parse_value (2 * String.length text + 2) text with
  | Some (v, rest) =>
      match skip_ws rest with
      | EmptyString => Some v
      | _ => None
      end
  | None => None
  end.

End JSON.

(** ** The network and the clock

    The host's [fetch] and [Date.now()] are an explicit world: a clock, the
    requests sent so far, and the replies the network is going to give to
    the requests to come, in order.  Every reply takes some time. *)

Module Net.

Record Request : Type := {
  url : string;
  method : option string;
  body : option JS.value;        (* the value handed to JSON.stringify *)
  bearer : string                (* Authorization: Bearer <apiKey> *)
}.

(** A response body as its reader delivers it: the text decoded from each
    successive chunk, and whether the stream breaks after the last one. *)
Record Body : Type := {
  texts : list string;
  broken : bool
}.

Record Response : Type := {
  ok : bool;
  status : Z;
  stream : option Body           (* [response.body]; [None] when null *)
}.

Inductive outcome : Type :=
| Failed                         (* fetch rejects *)
| Answered (r : Response).

Record Reply : Type := {
  elapsed : Z;
  result : outcome
}.

Record World : Type := {
  clock : Z;
  sent : list Request;
  replies : list Reply
}.

(** [await response.text()]: the whole body as one text.  [None] stands
    for the rejection when the stream breaks before its end; a null body
    reads as the empty text. *)
Definition text (r : Response) : option string :=
  match stream r with
  | Some b => if broken b then None else Some (Str.concat (texts b))
  | None => Some EmptyString
  end.

End Net.

(** ** The API client (NanoGPTClient) *)

Module Client.
Import JS Net.

Inductive exn : Type :=
| Error (message : string)
| TypeError
| SyntaxError.

Inductive res (A : Type) : Type :=
| Ok (a : A)
| Throw (e : exn).
Arguments Ok {A} a.
Arguments Throw {A} e.

Record Entry : Type := {
  models : value;
  timestamp : Z
}.

Record Client : Type := {
  apiKey : string;
  baseUrl : string;
  modelCache : gmap string Entry;
  imageModelCache : option Entry
}.

Definition CACHE_DURATION : Z := 5 * 60 * 1000.

(** An asynchronous method of the client, run to completion: it reads and
    writes the client's fields and the world, and returns or throws. *)
Definition M (A : Type) : Type := Client -> World -> res A * Client * World.

Definition ret {A} (a : A) : M A := fun c w => (Ok a, c, w).
Definition throw {A} (e : exn) : M A := fun c w => (Throw e, c, w).

Definition bind {A B} (m : M A) (k : A -> M B) : M B :=
  fun c w =>
    match m c w with
    | (Ok a, c', w') => k a c' w'
    | (Throw e, c', w') => (Throw e, c', w')
    end.

Notation "'let!' x ':=' m 'in' k" := (bind m (fun x => k))
  (at level 10, x name, m at level 100, k at level 200).

(** [try { m } catch (e) { h e }] *)
Definition try_catch {A} (m : M A) (h : exn -> M A) : M A :=
  fun c w =>
    match m c w with
    | (Ok a, c', w') => (Ok a, c', w')
    | (Throw e, c', w') => h e c' w'
    end.

Definition or_throw {A} (o : option A) (e : exn) : M A :=
  match o with Some a => ret a | None => throw e end.

(** [Date.now()] *)
Definition now : M Z := fun c w => (Ok (clock w), c, w).

Definition self : M Client := fun c w => (Ok c, c, w).

(** [fetch(url, ...)]: the request goes out, the next reply comes back. *)
Definition fetch (req : Request) : M Response :=
  fun c w =>
    match replies w with
    | [] =>
        (Throw TypeError, c,
         {| clock := clock w; sent := sent w ++ [req]; replies := [] |})
    | r :: rs =>
        let w' := {| clock := clock w + elapsed r;
                     sent := sent w ++ [req];
                     replies := rs |} in
        match result r with
        | Failed => (Throw TypeError, c, w')
        | Answered resp => (Ok resp, c, w')
        end
    end.

Definition fetchWithAuth (url : string) (method : option string)
  (body : option value) : M Response :=
  let! c := self in
  if String.eqb (apiKey c) EmptyString then throw (Error "API key is required")
  else
    let! response := fetch {| url := url; method := method; body := body;
                              bearer := apiKey c |} in
    if negb (ok response) then
      let! error := or_throw (text response) TypeError in
      throw (Error ("NanoGPT API error: " +:+ Str.of_Z (status response)
                    +:+ " - " +:+ error))
    else ret response.

(** Whether [fetchWithAuth] is going to throw: no API key, no reply, a
    rejected fetch, or a status that is not OK. *)
Definition fetch_fails (c : Client) (w : World) : bool :=
  String.eqb (apiKey c) EmptyString
  || match replies w with
     | [] => true
     | r :: _ =>
         match result r with
         | Failed => true
         | Answered response => negb (ok response)
         end
     end.

(** [await response.json()]: the body is read to its end, which throws
    when the stream breaks, and then parsed. *)
Definition json (parse : string -> option value) (r : Response) : M value :=
  let! raw := or_throw (text r) TypeError in
  or_throw (parse raw) SyntaxError.

(** [chunk.choices[0]?.delta?.content]; [None] is a TypeError. *)
Definition delta_content (chunk : value) : option value :=
  match get chunk "choices" with
  | None => None
  | Some choices =>
      match get_idx choices 0 with
      | None => None
      | Some first => Some (opt_get (opt_get first "delta") "content")
      end
  end.

(** One line of the stream: the argument [onChunk] is called with, if it
    is called. *)
Definition sse_line (parse : string -> option value) (line : string)
  : option value :=
  let trimmedLine := Str.trim line in
  if String.eqb trimmedLine EmptyString
     || String.eqb trimmedLine "data: [DONE]" then None
  else if negb (Str.startsWith "data: " trimmedLine) then None
  else
    let jsonStr := Str.slice_from 6 trimmedLine in
    match parse jsonStr with
    | None => None
    | Some chunk =>
        match delta_content chunk with
        | None => None
        | Some content => if truthy content then Some content else None
        end
    end.

(** A parameter default: it applies when the argument is [undefined]. *)
Definition default_arg (d v : value) : value :=
  match v with VUndefined => d | _ => v end.

(** The request object of [streamChatCompletion].  An argument left
    [undefined] takes its default, 0.7 or 2048. *)
Definition completionRequest (messages : value) (model : string)
  (temperature maxTokens : value) : value :=
  VObj [("model", VStr model); ("messages", messages);
        ("stream", VBool true);
        ("temperature", default_arg (VNum 7 (-1)) temperature);
        ("max_tokens", default_arg (VNum 2048 0) maxTokens)].

(** The lines of a text that a newline ends. *)
Definition complete_lines (text : string) : list string :=
  List.removelast (Str.split Str.nl text).

(** The arguments of the successive [onChunk] calls a whole body text
    gives rise to. *)
Definition deliveries (parse : string -> option value) (text : string)
  : list value :=
  omap (sse_line parse) (complete_lines text).

Section Stream.
Context {S : Type}.
Variable parse : string -> option value.
Variable onChunk : value -> S -> S.

(** [for (const line of lines) { ... }] *)
Fixpoint each_line (lines : list string) (st : S) : S :=
  match lines with
  | [] => st
  | line :: rest =>
      match sse_line parse line with
      | Some content => each_line rest (onChunk content st)
      | None => each_line rest st
      end
  end.

(** [while (true) { const { done, value } = await reader.read(); ... }]
    over the texts still to come. *)
Fixpoint read_loop (pending : list string) (buffer : string) (st : S) : S :=
  match pending with
  | [] => st
  | value :: rest =>
      let buffer1 := buffer +:+ value in
      let lines := Str.split Str.nl buffer1 in
      let buffer2 := List.last lines EmptyString in
      read_loop rest buffer2 (each_line (List.removelast lines) st)
  end.

(** The caller's callback state travels beside the result, since the
    callback may have run before a throw. *)
Definition streamChatCompletion (messages : value) (model : string)
  (temperature maxTokens : value) (st : S)
  : Client -> World -> res unit * S * Client * World :=
  fun c w =>
    let request := completionRequest messages model temperature maxTokens in
    match fetchWithAuth (baseUrl c +:+ "/chat/completions") (Some "POST")
            (Some request) c w with
    | (Throw e, c', w') => (Throw e, st, c', w')
    | (Ok response, c', w') =>
        match stream response with
        | None => (Throw (Error "No response body"), st, c', w')
        | Some b =>
            let st' := read_loop (texts b) EmptyString st in
            if broken b then (Throw TypeError, st', c', w')
            else (Ok tt, st', c', w')
        end
    end.

End Stream.

Section Methods.
Variable parse : string -> option value.

(** [v.k] on a value the code takes to be an object. *)
Definition prop (v : value) (k : string) : M value :=
  or_throw (get v k) TypeError.

Definition setApiKey (key : string) : M unit :=
  fun c w =>
    (Ok tt, {| apiKey := key; baseUrl := baseUrl c;
               modelCache := modelCache c;
               imageModelCache := imageModelCache c |}, w).

Definition setBaseUrl (u : string) : M unit :=
  fun c w =>
    (Ok tt, {| apiKey := apiKey c; baseUrl := u;
               modelCache := modelCache c;
               imageModelCache := imageModelCache c |}, w).

(** [request.k] on a request object given by its own properties. *)
Definition field (request : list (string * value)) (k : string) : value :=
  from_option (lookup_own k request).

Definition generateImage (request : list (string * value)) : M value :=
  let! c := self in
  let body :=
    VObj [("prompt", field request "prompt");
          ("model", or_else (field request "model") (VStr "flux-pro"));
          ("n", or_else (field request "n") (VNum 1 0));
          ("size", or_else (field request "size") (VStr "1024x1024"));
          ("quality", or_else (field request "quality") (VStr "standard"))] in
  let! response :=
    fetchWithAuth (baseUrl c +:+ "/images/generations") (Some "POST")
      (Some body) in
  json parse response.

Definition webSearch (request : list (string * value)) : M value :=
  let! c := self in
  let options := field request "options" in
  let parsedOptions :=
    match options with
    | VStr o =>
        if 0 <? Str.len (Str.trim o)
        then from_option (parse o)
        else VUndefined
    | _ =>
        if truthy options && String.eqb (typeof options) "object"
        then options else VUndefined
    end in
  let body :=
    VObj [("query", field request "query");
          ("num_results", field request "num_results");
          ("provider", or_else (field request "provider") VUndefined);
          ("options", parsedOptions)] in
  let endpoint := Str.replace_first "/v1" "/web" (baseUrl c) in
  let! response := fetchWithAuth endpoint (Some "POST") (Some body) in
  json parse response.

Definition scrapeUrls (request : value) : M value :=
  let! response :=
    fetchWithAuth "https://nano-gpt.com/api/scrape-urls" (Some "POST")
      (Some request) in
  json parse response.

Definition checkBalance : M value :=
  let! c := self in
  let! response :=
    fetchWithAuth (baseUrl c +:+ "/check-balance") (Some "GET") None in
  let! data := json parse response in
  let! balance := prop data "balance" in
  ret (or_else balance (VNum 0 0)).

Definition invalidateCache : M unit :=
  fun c w =>
    (Ok tt, {| apiKey := apiKey c; baseUrl := baseUrl c;
               modelCache := ∅; imageModelCache := None |}, w).

(** *** Model listings *)

Definition cacheKey (subscriptionOnly : bool) : string :=
  if subscriptionOnly then "subscription" else "all".

Definition drop_end (n : nat) (s : string) : string :=
  Str.slice_to (String.length s - n) s.

(** The three-way choice of the subscription endpoint; the two regular
    expressions [/\/v1\/?$/] and [/\/$/] are anchored at the end. *)
Definition subscriptionEndpoint (base : string) : string :=
  if Str.includes "/subscription/" base then base
  else if Str.endsWith "/v1/" base then drop_end 4 base +:+ "/subscription/v1"
  else if Str.endsWith "/v1" base then drop_end 3 base +:+ "/subscription/v1"
  else (if Str.endsWith "/" base then drop_end 1 base else base)
       +:+ "/subscription/v1".

Definition baseEndpoint (subscriptionOnly : bool) (base : string) : string :=
  if subscriptionOnly then subscriptionEndpoint base else base.

Definition chatModel (id name : string) : value :=
  VObj [("id", VStr id); ("object", VStr "model"); ("name", VStr name)].

Definition fallbackModels : value :=
  VArr [chatModel "zai-org/glm-4.7" "GLM 4.7";
        chatModel "gpt-4o" "GPT-4o";
        chatModel "claude-3-5-sonnet-20240620" "Claude 3.5 Sonnet"].

Definition storeModels (key : string) (e : Entry) : M unit :=
  fun c w =>
    (Ok tt, {| apiKey := apiKey c; baseUrl := baseUrl c;
               modelCache := <[key := e]> (modelCache c);
               imageModelCache := imageModelCache c |}, w).

(** The part of [listModels] after the cache check. [None] from the
    guarded block stands for the [return] inside its [catch]. *)
Definition fetchModels (subscriptionOnly : bool) : M value :=
  let! c := self in
  let! fetched :=
    try_catch
      (let! response :=
         fetchWithAuth (baseEndpoint subscriptionOnly (baseUrl c) +:+ "/models")
           None None in
       let! data := json parse response in
       let! d := prop data "data" in
       ret (Some (or_else d (VArr []))))
      (fun _ => ret None) in
  match fetched with
  | None => ret fallbackModels
  | Some models =>
      let! t := now in
      let! _ := storeModels (cacheKey subscriptionOnly)
                  {| models := models; timestamp := t |} in
      ret models
  end.

Definition listModels (subscriptionOnly : bool) : M value :=
  let! c := self in
  match modelCache c !! cacheKey subscriptionOnly with
  | Some cached =>
      let! t := now in
      if t - timestamp cached <? CACHE_DURATION then ret (models cached)
      else fetchModels subscriptionOnly
  | None => fetchModels subscriptionOnly
  end.

Definition imageModel (model name description engine : value) : value :=
  VObj [("model", model); ("name", name);
        ("description", description); ("engine", engine)].

Definition fallbackImageModels : value :=
  VArr [VObj [("model", VStr "flux-pro"); ("name", VStr "Flux Pro")];
        VObj [("model", VStr "dall-e-3"); ("name", VStr "DALL-E 3")];
        VObj [("model", VStr "stable-diffusion-xl");
              ("name", VStr "Stable Diffusion XL")]].

(** The body of [imageModels.forEach]; the outer [None] is a TypeError,
    the inner one the early [return]. *)
Definition imageModelOfItem (modelData : value) : option (option value) :=
  if nullish modelData then None
  else
    let at_ k := from_option (get modelData k) in
    let modelId := or_else (at_ "model") (or_else (at_ "id") (at_ "name")) in
    if negb (truthy modelId) then Some None
    else Some (Some (imageModel modelId (or_else (at_ "name") modelId)
                       (at_ "description") (at_ "engine"))).

Fixpoint imageModelsOfArray (items : list value) : option (list value) :=
  match items with
  | [] => Some []
  | item :: rest =>
      match imageModelOfItem item with
      | None => None
      | Some made =>
          match imageModelsOfArray rest with
          | None => None
          | Some ms => Some (match made with Some m => m :: ms | None => ms end)
          end
      end
  end.

(** The body of the loop over [Object.entries(imageModels)]. *)
Definition imageModelOfEntry (entry : string * value) : option value :=
  let '(key, modelData) := entry in
  if nullish modelData then None
  else
    let at_ k := from_option (get modelData k) in
    Some (imageModel (or_else (at_ "model") (or_else (at_ "id") (VStr key)))
            (or_else (at_ "name") (VStr key))
            (at_ "description") (at_ "engine")).

Fixpoint imageModelsOfEntries (entries : list (string * value))
  : option (list value) :=
  match entries with
  | [] => Some []
  | entry :: rest =>
      match imageModelOfEntry entry with
      | None => None
      | Some m =>
          match imageModelsOfEntries rest with
          | None => None
          | Some ms => Some (m :: ms)
          end
      end
  end.

Definition collectImageModels (imageModels : value) : option (list value) :=
  match imageModels with
  | VArr items => imageModelsOfArray items
  | VObj entries => imageModelsOfEntries entries
  | _ => Some []
  end.

Definition storeImageModels (e : Entry) : M unit :=
  fun c w =>
    (Ok tt, {| apiKey := apiKey c; baseUrl := baseUrl c;
               modelCache := modelCache c;
               imageModelCache := Some e |}, w).

(** The part of [listImageModels] after the cache check: here the store
    and the [return] are inside the guarded block. *)
Definition fetchImageModels : M value :=
  try_catch
    (let! response :=
       fetchWithAuth "https://nano-gpt.com/api/models/image" None None in
     let! data := json parse response in
     let! m := prop data "models" in
     let! d := prop data "data" in
     let imageModels :=
       or_else (opt_get m "image") (or_else m (or_else d (VArr []))) in
     let! collected := or_throw (collectImageModels imageModels) TypeError in
     let! t := now in
     let! _ := storeImageModels {| models := VArr collected; timestamp := t |} in
     ret (VArr collected))
    (fun _ => ret fallbackImageModels).

Definition listImageModels : M value :=
  let! c := self in
  match imageModelCache c with
  | Some cached =>
      let! t := now in
      if t - timestamp cached <? CACHE_DURATION then ret (models cached)
      else fetchImageModels
  | None => fetchImageModels
  end.

End Methods.

End Client.

(** ** The chat history store (ChatHistoryManager)

    The store keeps the arrays it is handed and hands out the arrays it
    keeps, so arrays are modelled by identity: a reference is an index into
    a heap of message lists, and [push] updates the heap in place.

    [this.history] is a plain object used as a map, so reading it goes
    through its prototype as well: a path that is the name of a member of
    [Object.prototype] finds that member when nothing is stored under it,
    and writing under [__proto__] replaces the prototype. *)

Module History.

Record ChatMessage : Type := {
  role : string;
  content : string;
  timestamp : option string;
  model : option string
}.

(** The names [Object.prototype] answers to. *)
Definition objectMember (name : string) : bool :=
  bool_decide (name ∈ ["constructor"; "hasOwnProperty"; "isPrototypeOf";
                       "propertyIsEnumerable"; "toLocaleString"; "toString";
                       "valueOf"; "__defineGetter__"; "__defineSetter__";
                       "__lookupGetter__"; "__lookupSetter__"; "__proto__"]).

(** The object used as a map: its own properties, each an array of the
    heap, and its prototype, which is [Object.prototype] ([None]) until an
    assignment to [__proto__] puts an array in its place. *)
Record Table : Type := {
  own : gmap string nat;
  proto : option nat
}.

(** The object literal [{}], and an object read from the host's data. *)
Definition plainObject (properties : gmap string nat) : Table :=
  {| own := properties; proto := None |}.

Record State : Type := {
  heap : list (list ChatMessage);
  history : Table;                          (* this.history *)
  loaded : bool;                            (* this.loaded *)
  settings_chatHistory : option Table;      (* plugin.settings.chatHistory *)
  disk : option (gmap string (list ChatMessage))   (* what saveData wrote last *)
}.

(** What [table[name]] evaluates to. *)
Inductive found : Type :=
| Messages (r : nat)   (* an array of the heap *)
| Truthy               (* another truthy value: a function, an object, a number *)
| Falsy.               (* [undefined], or the number zero *)

(** The contents of an array. *)
Definition deref (h : list (list ChatMessage)) (r : nat) : list ChatMessage :=
  default [] (h !! r).

(** [array.push(m)] *)
Definition push (r : nat) (m : ChatMessage) (st : State) : State :=
  {| heap := match heap st !! r with
             | Some l => <[r := l ++ [m]]> (heap st)
             | None => heap st
             end;
     history := history st; loaded := loaded st;
     settings_chatHistory := settings_chatHistory st; disk := disk st |}.

(** An array literal [[]]: a new array, distinct from every other. *)
Definition alloc_empty (st : State) : nat * State :=
  (length (heap st),
   {| heap := heap st ++ [[]];
      history := history st; loaded := loaded st;
      settings_chatHistory := settings_chatHistory st; disk := disk st |}).

(** [table[name] = messages].  An own property is written, or made; the
    name [__proto__], when it is not an own property, reaches the setter
    inherited from [Object.prototype], which makes the array the
    prototype. *)
Definition set (t : Table) (name : string) (messages : nat) : Table :=
  match own t !! name with
  | None =>
      if String.eqb name "__proto__"
      then {| own := own t; proto := Some messages |}
      else {| own := <[name := messages]> (own t); proto := proto t |}
  | Some _ => {| own := <[name := messages]> (own t); proto := proto t |}
  end.

Definition ensureLoaded (st : State) : State :=
  if loaded st then st
  else {| heap := heap st;
          history := default (plainObject ∅) (settings_chatHistory st);
          loaded := true;
          settings_chatHistory := settings_chatHistory st;
          disk := disk st |}.

Definition saveChatHistory (path : string) (messages : nat) (st : State)
  : State :=
  let st1 := ensureLoaded st in
  let history' := set (history st1) path messages in
  {| heap := heap st1;
     history := history';
     loaded := loaded st1;
     settings_chatHistory := Some history';
     disk := Some (deref (heap st1) <$> own history') |}.

Section Engine.
(** What an array answers for a property name other than [__proto__],
    as far as it matters here: whether the value is truthy.  The value is
    an element, the length, or something the array inherits; it is never
    an array of messages. *)
Variable arrayAnswers : list ChatMessage -> string -> bool.

(** [table[name]]: the own property, or else what the prototype answers.
    Through the getter of [__proto__] a replaced prototype is itself the
    answer. *)
Definition get (h : list (list ChatMessage)) (t : Table) (name : string)
  : found :=
  match own t !! name with
  | Some r => Messages r
  | None =>
      match proto t with
      | None => if objectMember name then Truthy else Falsy
      | Some r =>
          if String.eqb name "__proto__" then Messages r
          else if arrayAnswers (deref h r) name then Truthy else Falsy
      end
  end.

(** [this.history[file.path] || []]: the array handed to the caller;
    [None] when what is handed out is a truthy value that is no array. *)
Definition loadChatHistory (path : string) (st : State) : option nat * State :=
  let st1 := ensureLoaded st in
  match get (heap st1) (history st1) path with
  | Messages r => (Some r, st1)
  | Truthy => (None, st1)
  | Falsy => let '(r, st2) := alloc_empty st1 in (Some r, st2)
  end.

(** [messages.push] is not a function when what was loaded is no array:
    the call throws before it saves. *)
Definition appendMessage (path : string) (message : ChatMessage) (st : State)
  : Client.res unit * State :=
  match loadChatHistory path st with
  | (Some messages, st1) =>
      (Client.Ok tt, saveChatHistory path messages (push messages message st1))
  | (None, st1) => (Client.Throw Client.TypeError, st1)
  end.

Definition clearChatHistory (path : string) (st : State) : State :=
  let '(empty, st1) := alloc_empty st in
  saveChatHistory path empty st1.

(** What a caller sees when it loads and reads the array it got; [None]
    when it got no array. *)
Definition read (path : string) (st : State) : option (list ChatMessage) :=
  let '(r, st') := loadChatHistory path st in deref (heap st') <$> r.

(** The calls a client of the store can make, and the pushes it can do on
    arrays it holds. *)
Inductive call : Type :=
| Load (path : string)
| Save (path : string) (messages : nat)
| Append (path : string) (message : ChatMessage)
| Clear (path : string)
| Push (messages : nat) (message : ChatMessage).

Definition step (c : call) (st : State) : State :=
  match c with
  | Load path => snd (loadChatHistory path st)
  | Save path r => saveChatHistory path r st
  | Append path m => snd (appendMessage path m st)
  | Clear path => clearChatHistory path st
  | Push r m => push r m st
  end.

Definition run (calls : list call) (st : State) : State :=
  fold_left (fun s c => step c s) calls st.

End Engine.

(** The own properties of the store's object, once loaded. *)
Definition slots (st : State) : gmap string nat :=
  own (history (ensureLoaded st)).

(** The entry kept under a path, as contents; [None] when there is none. *)
Definition entry (path : string) (st : State) : option (list ChatMessage) :=
  deref (heap st) <$> (slots st !! path).

(** Every reference kept in a table points into the heap. *)
Definition refs_valid (h : list (list ChatMessage)) (table : gmap string nat)
  : Prop :=
  map_Forall (fun _ r => (r < length h)%nat) table.

Definition table_valid (h : list (list ChatMessage)) (t : Table) : Prop :=
  refs_valid h (own t)
  /\ match proto t with
     | Some r => (r < length h)%nat
     | None => True
     end.

Definition well_formed (st : State) : Prop :=
  table_valid (heap st) (history st)
  /\ table_valid (heap st)
       (default (plainObject ∅) (settings_chatHistory st)).

(** The store's object still has [Object.prototype] as its prototype. *)
Definition plain (st : State) : Prop :=
  proto (history (ensureLoaded st)) = None.


(** A call that stores something under [path]. *)
Definition saves_to (path : string) (c : call) : bool :=
  match c with
  | Save p _ | Append p _ | Clear p => String.eqb p path
  | Load _ | Push _ _ => false
  end.

(** The array a call hands to the store is one that exists. *)
Definition call_valid (c : call) (st : State) : Prop :=
  match c with
  | Save _ r => (r < length (heap st))%nat
  | _ => True
  end.

(** A freshly constructed manager over the plugin's settings, whose
    [chatHistory], if any, is as the host read it. *)
Definition fresh (h : list (list ChatMessage))
  (settings : option (gmap string nat)) : State :=
  {| heap := h; history := plainObject ∅; loaded := false;
     settings_chatHistory := plainObject <$> settings; disk := None |}.

End History.

(** ** Folder context (ChatView.getFolderContext, EditNoteModal.getFolderContext) *)

Module Folder.

Record TFile : Type := {
  path : string;
  basename : string;
  parent : option string          (* [file.parent?.path] *)
}.

Record Settings : Type := {
  folderContextEnabled : bool;
  folderContextMaxFiles : Z;
  folderContextMaxChars : Z
}.

(** The vault as the two calls see it: [getMarkdownFiles()] in its order,
    and for each file what [vault.read] gives, [None] when it throws. *)
Record Vault : Type := {
  markdownFiles : list TFile;
  read : TFile -> option string
}.

Definition NL : string := String Str.nl EmptyString.
Definition DQ : string := String Str.dquote EmptyString.

(** The filter over [getMarkdownFiles()]. *)
Definition sibling (active : TFile) (file : TFile) : bool :=
  let folderPath := default EmptyString (parent active) in
  if String.eqb (path file) (path active) then false
  else match parent file with
       | Some p => String.eqb p folderPath
       | None => false
       end.

Definition nextEntry (file : TFile) (content : string) : string :=
  NL +:+ "---" +:+ NL +:+ "File: " +:+ basename file +:+ NL +:+ content +:+ NL.

(** The characters of a list of entries, added up. *)
Definition total_len (entries : list string) : Z :=
  fold_right (fun e acc => Str.len e + acc) 0 entries.

(** The entry a file contributes, from what the vault reads for it. *)
Definition entryOf (vault : Vault) (file : TFile) : string :=
  nextEntry file (default EmptyString (read vault file)).

Section Loop.
Variable settings : Settings.
Variable vault : Vault.

(** The [for] loop with its two [break]s and two ways to go on. *)
Fixpoint collect (files : list TFile) (contextEntries : list string)
  (totalChars fileCount : Z) : list string :=
  match files with
  | [] => contextEntries
  | file :: rest =>
      if fileCount >=? folderContextMaxFiles settings then contextEntries
      else
        match read vault file with
        | None => collect rest contextEntries totalChars fileCount
        | Some content =>
            if String.eqb content EmptyString
            then collect rest contextEntries totalChars fileCount
            else
              let entry := nextEntry file content in
              if totalChars + Str.len entry >? folderContextMaxChars settings
              then contextEntries
              else collect rest (contextEntries ++ [entry])
                     (totalChars + Str.len entry) (fileCount + 1)
        end
  end.

Definition header (folderPath : string) : string :=
  NL +:+ NL +:+ "Context from notes in folder " +:+ DQ
  +:+ (if String.eqb folderPath EmptyString then "/" else folderPath)
  +:+ DQ +:+ ":" +:+ NL.

(** EditNoteModal.getFolderContext, for the modal's file. *)
Definition getFolderContext (file : TFile) : string :=
  if negb (folderContextEnabled settings) then EmptyString
  else
    let folderPath := default EmptyString (parent file) in
    let files := List.filter (sibling file) (markdownFiles vault) in
    match files with
    | [] => EmptyString
    | _ =>
        match collect files [] 0 0 with
        | [] => EmptyString
        | contextEntries => header folderPath +:+ Str.concat contextEntries
        end
    end.

(** ChatView.getFolderContext, for the view's active file if any. *)
Definition getFolderContext_chat (activeFile : option TFile) : string :=
  match activeFile with
  | None => EmptyString
  | Some file => getFolderContext file
  end.

End Loop.

End Folder.

(** ** MD5 (RFC 1321), the digest behind [createHash('md5')] *)

Module MD5.

Definition mask : Z := 0xffffffff.

Definition add32 (a b : Z) : Z := Z.land (a + b) mask.

Definition not32 (a : Z) : Z := Z.lxor a mask.

Definition rotl (x : Z) (n : Z) : Z :=
  Z.land (Z.lor (Z.shiftl x n) (Z.shiftr x (32 - n))) mask.

Definition K : list Z :=
  [0xd76aa478; 0xe8c7b756; 0x242070db; 0xc1bdceee;
   0xf57c0faf; 0x4787c62a; 0xa8304613; 0xfd469501;
   0x698098d8; 0x8b44f7af; 0xffff5bb1; 0x895cd7be;
   0x6b901122; 0xfd987193; 0xa679438e; 0x49b40821;
   0xf61e2562; 0xc040b340; 0x265e5a51; 0xe9b6c7aa;
   0xd62f105d; 0x02441453; 0xd8a1e681; 0xe7d3fbc8;
   0x21e1cde6; 0xc33707d6; 0xf4d50d87; 0x455a14ed;
   0xa9e3e905; 0xfcefa3f8; 0x676f02d9; 0x8d2a4c8a;
   0xfffa3942; 0x8771f681; 0x6d9d6122; 0xfde5380c;
   0xa4beea44; 0x4bdecfa9; 0xf6bb4b60; 0xbebfbc70;
   0x289b7ec6; 0xeaa127fa; 0xd4ef3085; 0x04881d05;
   0xd9d4d039; 0xe6db99e5; 0x1fa27cf8; 0xc4ac5665;
   0xf4292244; 0x432aff97; 0xab9423a7; 0xfc93a039;
   0x655b59c3; 0x8f0ccc92; 0xffeff47d; 0x85845dd1;
   0x6fa87e4f; 0xfe2ce6e0; 0xa3014314; 0x4e0811a1;
   0xf7537e82; 0xbd3af235; 0x2ad7d2bb; 0xeb86d391].

Definition shifts : list Z :=
  [7; 12; 17; 22; 7; 12; 17; 22; 7; 12; 17; 22; 7; 12; 17; 22;
   5; 9; 14; 20; 5; 9; 14; 20; 5; 9; 14; 20; 5; 9; 14; 20;
   4; 11; 16; 23; 4; 11; 16; 23; 4; 11; 16; 23; 4; 11; 16; 23;
   6; 10; 15; 21; 6; 10; 15; 21; 6; 10; 15; 21; 6; 10; 15; 21].

(** A string's UTF-8 bytes, for code units up to 255. *)
Fixpoint utf8 (s : string) : list Z :=
  match s with
  | EmptyString => []
  | String c s' =>
      let n := Z.of_nat (nat_of_ascii c) in
      if n <? 128 then n :: utf8 s'
      else Z.lor 192 (Z.shiftr n 6) :: Z.lor 128 (Z.land n 63) :: utf8 s'
  end.

Fixpoint le_bytes (count : nat) (x : Z) : list Z :=
  match count with
  | O => []
  | S c => Z.land x 255 :: le_bytes c (Z.shiftr x 8)
  end.

(** The message, a one bit, zeros up to 56 modulo 64, the bit length. *)
Definition pad (msg : list Z) : list Z :=
  let n := Z.of_nat (length msg) in
  let zeros := Z.to_nat ((55 - n) mod 64) in
  msg ++ [128] ++ repeat 0 zeros ++ le_bytes 8 (8 * n).

Fixpoint le_word (bytes : list Z) : Z :=
  match bytes with
  | [] => 0
  | b :: rest => b + 256 * le_word rest
  end.

Fixpoint words (count : nat) (bytes : list Z) : list Z :=
  match count with
  | O => []
  | S c => le_word (take 4 bytes) :: words c (drop 4 bytes)
  end.

Definition state : Type := Z * Z * Z * Z.

Definition round (M : list Z) (i : Z) (st : state) : state :=
  let '(A, B, C, D) := st in
  let '(F, g) :=
    if i <? 16 then (Z.lor (Z.land B C) (Z.land (not32 B) D), i)
    else if i <? 32 then
      (Z.lor (Z.land D B) (Z.land (not32 D) C), (5 * i + 1) mod 16)
    else if i <? 48 then (Z.lxor B (Z.lxor C D), (3 * i + 5) mod 16)
    else (Z.lxor C (Z.lor B (not32 D)), (7 * i) mod 16) in
  let F' := add32 (add32 (add32 F A) (nth (Z.to_nat i) K 0))
              (nth (Z.to_nat g) M 0) in
  (D, add32 B (rotl F' (nth (Z.to_nat i) shifts 0)), B, C).

Definition block (st : state) (M : list Z) : state :=
  let '(a0, b0, c0, d0) := st in
  let '(A, B, C, D) :=
    fold_left (fun s i => round M (Z.of_nat i) s) (seq 0 64) st in
  (add32 a0 A, add32 b0 B, add32 c0 C, add32 d0 D).

Fixpoint blocks (count : nat) (bytes : list Z) (st : state) : state :=
  match count with
  | O => st
  | S c => blocks c (drop 64 bytes) (block st (words 16 (take 64 bytes)))
  end.

Definition digest (msg : list Z) : list Z :=
  let padded := pad msg in
  let '(a, b, c, d) :=
    blocks (length padded / 64) padded
      (0x67452301, 0xefcdab89, 0x98badcfe, 0x10325476) in
  le_bytes 4 a ++ le_bytes 4 b ++ le_bytes 4 c ++ le_bytes 4 d.

Definition hex_digit (n : Z) : ascii :=
  ascii_of_nat (Z.to_nat (if n <? 10 then 48 + n else 87 + n)).

Fixpoint hex (bytes : list Z) : string :=
  match bytes with
  | [] => EmptyString
  | b :: rest =>
      String (hex_digit (Z.shiftr b 4)) (String (hex_digit (Z.land b 15)) (hex rest))
  end.

(** [createHash('md5').update(s).digest('hex')] *)
Definition hexdigest (s : string) : string := hex (digest (utf8 s)).

End MD5.

(** ** The image store (ImageManager) *)

Module Image.
Import Client.

(** The vault's files and the notices shown to the user. *)
Record Host : Type := {
  files : gmap string (list ascii);
  notices : list string
}.

Section Platform.
(** [Buffer.from(s, 'base64')], as bytes. *)
Variable base64 : string -> list ascii.
(** [fileManager.getAvailablePathForAttachment(name)]; it may reject. *)
Variable getAvailablePathForAttachment :
  gmap string (list ascii) -> string -> res string.

Definition notice (msg : string) (h : Host) : Host :=
  {| files := files h; notices := notices h ++ [msg] |}.

(** [vault.createBinary(path, data)]: refuses a path that exists. *)
Definition createBinary (path : string) (data : list ascii) (h : Host)
  : res unit * Host :=
  match files h !! path with
  | Some _ => (Throw (Error "File already exists."), h)
  | None => (Ok tt, {| files := <[path := data]> (files h);
                       notices := notices h |})
  end.

Definition generateShortHash (prompt : string) : string :=
  Str.slice_to 8 (MD5.hexdigest prompt).

Definition filename (timestamp : Z) (prompt : string) : string :=
  "nanogpt-" +:+ Str.of_Z timestamp +:+ "-" +:+ generateShortHash prompt
  +:+ "." +:+ "png".

(** [timestamp] is what [Date.now()] returns during the call. *)
Definition saveImageToVault (base64Data prompt : string) (timestamp : Z)
  (h : Host) : res string * Host :=
  let failed (e : exn) (h' : Host) :=
    (Throw e, notice "Failed to save image to vault" h') in
  let uint8Array := base64 base64Data in
  let name := filename timestamp prompt in
  match getAvailablePathForAttachment (files h) name with
  | Throw e => failed e h
  | Ok path =>
      match createBinary path uint8Array h with
      | (Throw e, h1) => failed e h1
      | (Ok _, h1) =>
          let markdownLink := "![[" +:+ name +:+ "]]" in
          (Ok markdownLink, notice ("Image saved to: " +:+ path) h1)
      end
  end.

End Platform.

End Image.

(** ** Ghost text (the editor extension) *)

Module Ghost.

Record GhostTextState : Type := {
  text : string;
  pos : nat
}.

Inductive effect : Type :=
| setGhostTextEffect (value : GhostTextState)
| clearGhostTextEffect
| otherEffect.

(** A change replaces the range [from, to) by [insert]. *)
Record Change : Type := {
  from : nat;
  to : nat;
  insert : string
}.

Record Transaction : Type := {
  changes : option Change;
  effects : list effect;
  selectionSet : bool
}.

(** The editor state, as far as the extension reads it: the document and
    the value of [ghostTextStateField]. *)
Record EditorState : Type := {
  doc : string;
  ghost : GhostTextState
}.

Definition noGhost : GhostTextState := {| text := EmptyString; pos := 0 |}.

(** [StateField.create] *)
Definition create (d : string) : EditorState := {| doc := d; ghost := noGhost |}.

Definition docChanged (tr : Transaction) : bool :=
  match changes tr with
  | Some c => negb ((from c =? to c)%nat && String.eqb (insert c) EmptyString)
  | None => false
  end.

(** The new document; [None] is the RangeError for a range outside it. *)
Definition applyChange (d : string) (c : Change) : option string :=
  if ((from c <=? to c) && (to c <=? String.length d))%nat
  then Some (Str.slice_to (from c) d +:+ insert c +:+ Str.slice_from (to c) d)
  else None.

Section Field.
(** [transaction.changes.mapPos(p)], the editor library's position map. *)
Variable mapPos : Change -> nat -> nat.

Definition applyEffect (next : GhostTextState) (e : effect) : GhostTextState :=
  match e with
  | setGhostTextEffect value => value
  | clearGhostTextEffect => noGhost
  | otherEffect => next
  end.

(** [ghostTextStateField.update] *)
Definition update (value : GhostTextState) (tr : Transaction) : GhostTextState :=
  let next := fold_left applyEffect (effects tr) value in
  match changes tr with
  | Some c =>
      if docChanged tr && negb (String.eqb (text next) EmptyString)
      then {| text := text next; pos := mapPos c (pos next) |}
      else next
  | None => next
  end.

(** [view.dispatch(tr)] *)
Definition dispatch (tr : Transaction) (st : EditorState) : option EditorState :=
  match changes tr with
  | None => Some {| doc := doc st; ghost := update (ghost st) tr |}
  | Some c =>
      match applyChange (doc st) c with
      | Some d => Some {| doc := d; ghost := update (ghost st) tr |}
      | None => None
      end
  end.

Definition isSet (e : effect) : bool :=
  match e with setGhostTextEffect _ => true | _ => false end.

(** [ghostTextClearer.update]: whether it dispatches the clear effect,
    seeing the transaction and the state after it. *)
Definition ghostTextClearer (tr : Transaction) (after : EditorState) : bool :=
  if existsb isSet (effects tr) then false
  else if String.eqb (text (ghost after)) EmptyString then false
  else docChanged tr || selectionSet tr.

(** The Tab key handler: the value it returns and the state it leaves;
    [None] when the dispatch throws. *)
Definition acceptGhostText (st : EditorState) : option (bool * EditorState) :=
  let g := ghost st in
  if String.eqb (text g) EmptyString then Some (false, st)
  else
    match dispatch {| changes := Some {| from := pos g; to := pos g;
                                         insert := text g |};
                      effects := [clearGhostTextEffect];
                      selectionSet := false |} st with
    | Some st' => Some (true, st')
    | None => None
    end.

End Field.

End Ghost.

(** ** Inline autocomplete (NanoGPTPlugin.inlineAutocomplete)

    The method runs up to its [await], and later resumes with what the
    awaited [streamChatCompletion] produced; other callbacks of the plugin
    may run in between.  The two halves are [inlineAutocomplete_begin] and
    [inlineAutocomplete_resume]. *)

Module Plugin.
Import Ghost.

Record Cursor : Type := {
  line : nat;
  ch : nat
}.

(** The host's editor object: its state, its cursor, whether something is
    selected, and whether it exposes the editor view [editor.cm]. *)
Record Editor : Type := {
  state : EditorState;
  cursor : Cursor;
  somethingSelected : bool;
  cm : bool
}.

Record Settings : Type := {
  defaultModel : string;
  temperature : JS.value;
  maxTokens : Z
}.

Inductive notice : Type :=
| Info (msg : string)
| Failure (e : Client.exn).

(** The plugin's own fields; the counter is a JavaScript number holding
    an integer. *)
Record Plugin : Type := {
  inlineAutocompleteInFlight : bool;
  inlineAutocompleteRequestId : Z;
  isApplyingAutocomplete : bool;
  notices : list notice
}.

(** The arguments of the awaited call. *)
Record Request : Type := {
  messages : JS.value;
  model : string;
  req_temperature : JS.value;
  req_maxTokens : Z
}.

(** What the suspended invocation remembers. *)
Record Pending : Type := {
  requestId : Z;
  at_cursor : Cursor;
  linePrefix : string;
  silent : bool;
  request : Request
}.

Definition NL : string := String Str.nl EmptyString.

Definition getLine (e : Editor) (n : nat) : option string :=
  Str.split Str.nl (doc (state e)) !! n.

Fixpoint lineStart (lines : list string) (n : nat) : nat :=
  match n, lines with
  | O, _ => 0
  | S n', l :: rest => String.length l + 1 + lineStart rest n'
  | S _, [] => 0
  end.

Definition posToOffset (e : Editor) (c : Cursor) : nat :=
  lineStart (Str.split Str.nl (doc (state e))) (line c) + ch c.

Definition cursor_eqb (a b : Cursor) : bool :=
  (line a =? line b)%nat && (ch a =? ch b)%nat.

Definition with_state (e : Editor) (st : EditorState) : Editor :=
  {| state := st; cursor := cursor e;
     somethingSelected := somethingSelected e; cm := cm e |}.

Definition set_flags (inFlight applying : bool) (p : Plugin) : Plugin :=
  {| inlineAutocompleteInFlight := inFlight;
     inlineAutocompleteRequestId := inlineAutocompleteRequestId p;
     isApplyingAutocomplete := applying;
     notices := notices p |}.

Definition notify (n : notice) (p : Plugin) : Plugin :=
  {| inlineAutocompleteInFlight := inlineAutocompleteInFlight p;
     inlineAutocompleteRequestId := inlineAutocompleteRequestId p;
     isApplyingAutocomplete := isApplyingAutocomplete p;
     notices := notices p ++ [n] |}.

Definition notify_unless (quiet : bool) (n : notice) (p : Plugin) : Plugin :=
  if quiet then p else notify n p.

Section Editing.
Variable mapPos : Change -> nat -> nat.

Definition effects_only (es : list effect) : Transaction :=
  {| changes := None; effects := es; selectionSet := false |}.

(** A dispatch that carries effects only cannot fail. *)
Definition dispatch_effects (es : list effect) (e : Editor) : Editor :=
  with_state e {| doc := doc (state e);
                  ghost := update mapPos (ghost (state e)) (effects_only es) |}.

Definition setGhostText (e : Editor) (c : Cursor) (text : string)
  : bool * Editor :=
  if negb (cm e) then (false, e)
  else (true, dispatch_effects
                [setGhostTextEffect {| Ghost.text := text;
                                       pos := posToOffset e c |}] e).

Definition clearGhostText (e : Editor) : Editor :=
  if negb (cm e) then e else dispatch_effects [clearGhostTextEffect] e.

(** [editor.replaceRange(text, c)]; [None] when the editor throws. *)
Definition replaceRange (text : string) (c : Cursor) (e : Editor)
  : option Editor :=
  let off := posToOffset e c in
  match dispatch mapPos
          {| changes := Some {| from := off; to := off; insert := text |};
             effects := []; selectionSet := false |} (state e) with
  | Some st => Some (with_state e st)
  | None => None
  end.

Definition systemPrompt : string :=
  "You are an inline autocomplete engine for Obsidian notes. Return only the continuation text to insert at the cursor.".

Definition userPrompt (basename contextSnippet lineText prefix suffix : string)
  : string :=
  "Note title: " +:+ basename +:+ NL +:+ NL
  +:+ "Context around cursor:" +:+ NL +:+ contextSnippet +:+ NL +:+ NL
  +:+ "Current line:" +:+ NL +:+ lineText +:+ NL
  +:+ "Prefix before cursor:" +:+ NL +:+ prefix +:+ NL
  +:+ "Suffix after cursor:" +:+ NL +:+ suffix +:+ NL +:+ NL
  +:+ "Provide the continuation to insert.".

Definition message (role content : string) : JS.value :=
  JS.VObj [("role", JS.VStr role); ("content", JS.VStr content)].

Definition buildRequest (settings : Settings) (basename : string) (e : Editor)
  (c : Cursor) (lineText prefix suffix : string) : Request :=
  let fullText := doc (state e) in
  let cursorOffset := posToOffset e c in
  let start := (cursorOffset - 2500)%nat in
  let end_ := Nat.min (String.length fullText) (cursorOffset + 800) in
  let contextSnippet := Str.slice_to (end_ - start) (Str.slice_from start fullText) in
  {| messages :=
       JS.VArr [message "system" systemPrompt;
                message "user"
                  (userPrompt basename contextSnippet lineText prefix suffix)];
     model := defaultModel settings;
     req_temperature := temperature settings;
     req_maxTokens := Z.min (maxTokens settings) 400 |}.

(** From the call to the [await]: [None] when the method returns at one of
    its guards, otherwise the suspended invocation. *)
Definition inlineAutocomplete_begin (settings : Settings) (basename : string)
  (quiet : bool) (p : Plugin) (e : Editor) : option Pending * Plugin * Editor :=
  if inlineAutocompleteInFlight p then (None, p, e)
  else if somethingSelected e then (None, p, e)
  else
    let c := cursor e in
    match getLine e (line c) with
    | None => (None, p, e)
    | Some lineText =>
        let prefix := Str.slice_to (ch c) lineText in
        let suffix := Str.slice_from (ch c) lineText in
        if 0 <? Str.len (Str.trim suffix) then (None, p, e)
        else if Str.len (Str.trim prefix) <? 3 then (None, p, e)
        else
          let id := inlineAutocompleteRequestId p + 1 in
          let p1 := {| inlineAutocompleteInFlight := inlineAutocompleteInFlight p;
                       inlineAutocompleteRequestId := id;
                       isApplyingAutocomplete := isApplyingAutocomplete p;
                       notices := notices p |} in
          let p2 := notify_unless quiet (Info "Generating autocomplete...") p1 in
          let p3 := set_flags true (isApplyingAutocomplete p2) p2 in
          let e1 := clearGhostText e in
          (Some {| requestId := id; at_cursor := c; linePrefix := prefix;
                   silent := quiet;
                   request := buildRequest settings basename e1 c lineText
                                prefix suffix |},
           p3, e1)
    end.

(** The [finally] block. *)
Definition settle (p : Plugin) : Plugin :=
  set_flags false (isApplyingAutocomplete p) p.

(** The [catch] block, then the [finally] block. *)
Definition failed (quiet : bool) (err : Client.exn) (p : Plugin) : Plugin :=
  settle (notify_unless quiet (Failure err) p).

(** From the [await] to the end; [outcome] is how the awaited call ended:
    the text its chunks added up to, or what it threw. *)
Definition inlineAutocomplete_resume (pd : Pending)
  (outcome : Client.res string) (p : Plugin) (e : Editor) : Plugin * Editor :=
  let quiet := silent pd in
  match outcome with
  | Client.Throw err => (failed quiet err p, e)
  | Client.Ok completion =>
      if negb (requestId pd =? inlineAutocompleteRequestId p) then (settle p, e)
      else
        let currentCursor := cursor e in
        match getLine e (line (at_cursor pd)) with
        | None => (failed quiet Client.TypeError p, e)
        | Some currentLine =>
            if negb (cursor_eqb currentCursor (at_cursor pd)) then (settle p, e)
            else if negb (Str.startsWith (linePrefix pd) currentLine)
            then (settle p, e)
            else
              let cleanedCompletion := Str.trimEnd (Str.trimStart completion) in
              if String.eqb cleanedCompletion EmptyString
              then (settle (notify_unless quiet (Info "No completion returned") p), e)
              else
                match setGhostText e (at_cursor pd) cleanedCompletion with
                | (true, e1) =>
                    (settle (notify_unless quiet
                               (Info "Autocomplete ready (Tab to accept)") p), e1)
                | (false, _) =>
                    let p1 := set_flags (inlineAutocompleteInFlight p) true p in
                    match replaceRange cleanedCompletion (at_cursor pd) e with
                    | None => (failed quiet Client.TypeError p1, e)
                    | Some e1 =>
                        let p2 := set_flags (inlineAutocompleteInFlight p1) false p1 in
                        (settle (notify_unless quiet (Info "Autocomplete inserted") p2),
                         e1)
                    end
                end
        end
  end.

(** What can happen to the plugin and its editor, one callback at a time. *)
Inductive event : Type :=
| Invoke (settings : Settings) (basename : string) (quiet : bool)
| Resume (pd : Pending) (outcome : Client.res string)
| UserEdit (e' : Editor).

(** One event; the request id it issued, if it issued one. *)
Definition step (ev : event) (pe : Plugin * Editor)
  : option Z * (Plugin * Editor) :=
  let '(p, e) := pe in
  match ev with
  | Invoke settings basename quiet =>
      match inlineAutocomplete_begin settings basename quiet p e with
      | (Some pd, p', e') => (Some (requestId pd), (p', e'))
      | (None, p', e') => (None, (p', e'))
      end
  | Resume pd outcome => (None, inlineAutocomplete_resume pd outcome p e)
  | UserEdit e' => (None, (p, e'))
  end.

(** The ids issued along a sequence of events, oldest first. *)
Fixpoint issued (evs : list event) (pe : Plugin * Editor) : list Z :=
  match evs with
  | [] => []
  | ev :: rest =>
      match step ev pe with
      | (Some id, pe') => id :: issued rest pe'
      | (None, pe') => issued rest pe'
      end
  end.

End Editing.

End Plugin.

(** ** Sending a chat message (ChatView.sendMessage)

    As for autocomplete, the method is cut at its awaits.  What lies inside
    its [try] block, the generation attempt (scrape, edit preview, image or
    chat completion, then the save of the history), is a computation over
    the view and the world that returns or throws; the guard before it and
    the [catch] and [finally] after it are spelled out.  The calls into the
    host's document between the guard and the [try] block are taken to
    return. *)

Module ChatView.
Import Client.

Record View : Type := {
  (* this.messages: what the history store handed out, [None] when that
     is no array *)
  messages : option (list History.ChatMessage);
  isGenerating : bool;
  activeFile : option Folder.TFile;
  input : string;                       (* the input field's value *)
  sendDisabled : bool;                  (* sendButton.disabled *)
  errors : list exn                     (* errors shown in the panel *)
}.

Definition set_generating (b : bool) (v : View) : View :=
  {| messages := messages v; isGenerating := b; activeFile := activeFile v;
     input := input v; sendDisabled := b; errors := errors v |}.

(** How a call gets on before its [try] block. *)
Inductive begun : Type :=
| Returned                                    (* the guard returns *)
| Threw (v : View)                            (* [this.messages.push] is no function *)
| Started (userMessage : string) (v : View).  (* the [try] block is entered *)

(** From the call to the [try]. [stamp] is [new Date().toISOString()]. *)
Definition sendMessage_begin (stamp : string) (v : View) : begun :=
  let userMessage := Str.trim (input v) in
  if String.eqb userMessage EmptyString || isGenerating v
     || match activeFile v with None => true | Some _ => false end
  then Returned
  else
    let v1 := set_generating true v in
    let userMsg := {| History.role := "user"; History.content := userMessage;
                      History.timestamp := Some stamp;
                      History.model := None |} in
    match messages v1 with
    | None => Threw v1
    | Some ms =>
        Started userMessage
          {| messages := Some (ms ++ [userMsg]);
             isGenerating := isGenerating v1; activeFile := activeFile v1;
             input := EmptyString; sendDisabled := sendDisabled v1;
             errors := errors v1 |}
    end.

(** The [catch] block (for a throw) and the [finally] block. *)
Definition sendMessage_end (outcome : res unit) (v : View) : View :=
  let v1 := match outcome with
            | Ok _ => v
            | Throw e =>
                {| messages := messages v; isGenerating := isGenerating v;
                   activeFile := activeFile v; input := input v;
                   sendDisabled := sendDisabled v; errors := errors v ++ [e] |}
            end in
  set_generating false v1.

Section Attempt.
(** The [try] block: given the user's message, it may send requests,
    change the view, and return or throw. *)
Variable attempt : string -> View -> Net.World -> res unit * View * Net.World.


End Attempt.

(** The view with calls overlapping: [inflight] counts the attempts begun
    and not yet concluded. *)
Record System : Type := {
  view : View;
  inflight : nat
}.

Inductive event : Type :=
| Call (stamp : string)                 (* sendMessage is invoked *)
| Conclude (outcome : res unit)         (* an attempt in flight ends *)
| Type_ (text : string)                 (* the user edits the input *)
| Open (file : Folder.TFile)            (* a file becomes the active one; *)
       (loaded : option (list History.ChatMessage))  (* its history is loaded *)
       (rendered : bool)                (* and shown, unless that throws *)
| Close.                                (* no file is active any more *)

Definition step (ev : event) (s : System) : System :=
  match ev with
  | Call stamp =>
      match sendMessage_begin stamp (view s) with
      | Started _ v1 => {| view := v1; inflight := S (inflight s) |}
      | Threw v1 => {| view := v1; inflight := inflight s |}
      | Returned => s
      end
  | Conclude outcome =>
      match inflight s with
      | O => s
      | S n => {| view := sendMessage_end outcome (view s); inflight := n |}
      end
  | Type_ text =>
      {| view := {| messages := messages (view s);
                    isGenerating := isGenerating (view s);
                    activeFile := activeFile (view s);
                    input := text;
                    sendDisabled := sendDisabled (view s);
                    errors := errors (view s) |};
         inflight := inflight s |}
  | Open file loaded rendered =>
      {| view := {| messages := loaded;
                    isGenerating := isGenerating (view s);
                    activeFile := Some file;
                    input := input (view s);
                    sendDisabled := if rendered then false
                                    else sendDisabled (view s);
                    errors := errors (view s) |};
         inflight := inflight s |}
  | Close =>
      {| view := {| messages := messages (view s);
                    isGenerating := isGenerating (view s);
                    activeFile := None;
                    input := input (view s);
                    sendDisabled := true;
                    errors := errors (view s) |};
         inflight := inflight s |}
  end.

Definition run (evs : list event) (s : System) : System :=
  fold_left (fun s ev => step ev s) evs s.


(** A view just opened, on a file without history or on none. *)
Definition initial (file : option Folder.TFile) : System :=
  {| view := {| messages := Some []; isGenerating := false;
                activeFile := file;
                input := EmptyString;
                sendDisabled := match file with Some _ => false | None => true end;
                errors := [] |};
     inflight := 0 |}.

End ChatView.

(** ** What a call puts on the wire *)

Module Wire.
Import Net Client.

(** From world [w] to world [w'] at most one request went out, and if one
    did it carried the client's key, which was not empty. *)
Definition one_keyed_request (c : Client) (w w' : World) : Prop :=
  sent w' = sent w
  \/ exists req, sent w' = sent w ++ [req]
                 /\ bearer req = apiKey c
                 /\ apiKey c <> EmptyString.

End Wire.

(** ** Saving the settings (NanoGPTPlugin.saveSettings) *)

Module PluginSettings.
Import Client.

(** [saved] is how the host's [saveData] ended; the client is brought up
    to date only after it. *)
Definition saveSettings (saved : res unit) (apiKey baseUrl : string) : M unit :=
  match saved with
  | Throw e => throw e
  | Ok _ =>
      let! _ := setApiKey apiKey in
      let! _ := setBaseUrl baseUrl in
      invalidateCache
  end.

End PluginSettings.

(** ** Autocomplete calls in flight

    [inlineAutocomplete] is called from a debounce timer and from a
    command; a call that reaches its [await] stays suspended until its
    stream ends.  [suspended] holds these calls, oldest first. *)

Module Scheduler.
Import Ghost Plugin.

Record System : Type := {
  plugin : Plugin.Plugin;
  editor : Editor;
  suspended : list Pending
}.

Inductive activity : Type :=
| Start (settings : Settings) (basename : string) (quiet : bool)
| Finish (n : nat) (outcome : Client.res string)  (* the n-th suspended call *)
| Edit (e' : Editor).

(** The plugin's fields as its constructor leaves them. *)
Definition loaded (e : Editor) : System :=
  {| plugin := {| inlineAutocompleteInFlight := false;
                  inlineAutocompleteRequestId := 0;
                  isApplyingAutocomplete := false;
                  notices := [] |};
     editor := e;
     suspended := [] |}.

Section Run.
Variable mapPos : Change -> nat -> nat.

Definition advance (a : activity) (s : System) : System :=
  match a with
  | Start settings basename quiet =>
      match inlineAutocomplete_begin mapPos settings basename quiet
              (plugin s) (editor s) with
      | (Some pd, p, e) =>
          {| plugin := p; editor := e; suspended := suspended s ++ [pd] |}
      | (None, p, e) =>
          {| plugin := p; editor := e; suspended := suspended s |}
      end
  | Finish n outcome =>
      match suspended s !! n with
      | Some pd =>
          let '(p, e) := inlineAutocomplete_resume mapPos pd outcome
                           (plugin s) (editor s) in
          {| plugin := p; editor := e; suspended := delete n (suspended s) |}
      | None => s
      end
  | Edit e' =>
      {| plugin := plugin s; editor := e'; suspended := suspended s |}
  end.

Definition run (acts : list activity) (s : System) : System :=
  fold_left (fun s a => advance a s) acts s.

End Run.

(** At most one call is suspended; one is exactly when the in-flight flag
    is up; and its id is the counter's value. *)
Definition exclusive (s : System) : Prop :=
  match suspended s with
  | [] => inlineAutocompleteInFlight (plugin s) = false
  | [pd] =>
      inlineAutocompleteInFlight (plugin s) = true
      /\ requestId pd = inlineAutocompleteRequestId (plugin s)
  | _ => False
  end.

End Scheduler.

(** ** Commands typed into the chat (ChatView helpers) *)

Module Notes.

(** *** extractUrls *)

(** The class [[^\s)\]]] of the URL pattern. *)
Definition url_char (c : ascii) : bool :=
  negb (Str.is_space c || Ascii.eqb c ")" || Ascii.eqb c "]").

(** The longest run of class characters at the start of [s], and what
    follows it. *)
Fixpoint span_url (s : string) : string * string :=
  match s with
  | String c s' =>
      if url_char c
      then let '(u, r) := span_url s' in (String c u, r)
      else (EmptyString, s)
  | EmptyString => (EmptyString, EmptyString)
  end.

(** One scheme of [https?:\/\/] and then [[^\s)\]]+], at the start of [s]. *)
Definition match_scheme (scheme s : string) : option (string * string) :=
  if String.prefix scheme s then
    match span_url (Str.slice_from (String.length scheme) s) with
    | (EmptyString, _) => None
    | (u, r) => Some (scheme +:+ u, r)
    end
  else None.

(** The pattern [https?:\/\/[^\s)\]]+] at the start of [s]: the match and
    what follows it. *)
Definition match_url (s : string) : option (string * string) :=
  match match_scheme "https://" s with
  | Some m => Some m
  | None => match_scheme "http://" s
  end.

(** A match of the URL pattern: one of the two schemes and then at least
    one more character, none of them white space or a closing bracket. *)
Definition url_shaped (u : string) : Prop :=
  (exists rest,
     rest <> EmptyString
     /\ (u = "http://" +:+ rest \/ u = "https://" +:+ rest))
  /\ forall c, In c (list_ascii_of_string u) -> url_char c = true.

(** [regex.exec(text)] in a loop: the matches from left to right. *)
Fixpoint matches (fuel : nat) (s : string) : list string :=
  match fuel with
  | O => []
  | S fuel' =>
      match match_url s with
      | Some (u, rest) => u :: matches fuel' rest
      | None =>
          match s with
          | String _ s' => matches fuel' s'
          | EmptyString => []
          end
      end
  end.

(** [urls.add(url)] on a set kept in insertion order. *)
Definition add (urls : list string) (url : string) : list string :=
  if bool_decide (url ∈ urls) then urls else urls ++ [url].

Definition collect_url (urls : list string) (m : string) : list string :=
  let url := Str.trim m in
  if String.eqb url EmptyString then urls else add urls url.

Definition extractUrls (text : string) : list string :=
  take 5 (fold_left collect_url (matches (S (String.length text)) text) []).

(** *** parseCreateNotesCommand *)

(** Folding of the letters A to Z, for the [i] flag. *)
Definition lower (c : ascii) : ascii :=
  let n := nat_of_ascii c in
  if ((65 <=? n) && (n <=? 90))%nat then ascii_of_nat (n + 32) else c.

(** A literal of the pattern, in lower case, matched under the [i] flag at
    the start of [s]: what follows it. *)
Fixpoint literal_i (lit s : string) : option string :=
  match lit with
  | EmptyString => Some s
  | String a lit' =>
      match s with
      | String c s' => if Ascii.eqb (lower c) a then literal_i lit' s' else None
      | EmptyString => None
      end
  end.

Definition is_line_terminator (c : ascii) : bool :=
  Ascii.eqb c "010" || Ascii.eqb c "013".

Fixpoint one_line (s : string) : bool :=
  match s with
  | String c s' => negb (is_line_terminator c) && one_line s'
  | EmptyString => true
  end.

(** [(.+)$]: the rest of the input, if it is not empty and has no line
    terminator. *)
Definition rest_of_line (s : string) : option string :=
  if negb (String.eqb s EmptyString) && one_line s then Some s else None.

(** [\s*(.+)$]: the white space is taken greedily and given back one
    character at a time when what follows does not match. *)
Fixpoint payload (s : string) : option string :=
  match s with
  | String c s' =>
      if Str.is_space c then
        match payload s' with
        | Some p => Some p
        | None => rest_of_line s
        end
      else rest_of_line s
  | EmptyString => None
  end.

(** [^create\s+notes?:\s*(.+)$] under the [i] flag: the captured group. *)
Definition command (s : string) : option string :=
  match literal_i "create" s with
  | Some (String c s1) =>
      if Str.is_space c then
        match literal_i "note" (Str.trimStart s1) with
        | Some s2 =>
            match (match literal_i "s" s2 with
                   | Some s3 => literal_i ":" s3
                   | None => literal_i ":" s2
                   end) with
            | Some s4 => payload s4
            | None => None
            end
        | None => None
        end
      else None
  | _ => None
  end.

(** The class [[\n,;]]. *)
Definition is_separator (c : ascii) : bool :=
  Ascii.eqb c "010" || Ascii.eqb c "," || Ascii.eqb c ";".

(** [s.split(/[...]/)] for a one-character class: never empty. *)
Fixpoint split_where (sep : ascii -> bool) (s : string) : list string :=
  match s with
  | EmptyString => [EmptyString]
  | String c s' =>
      if sep c then EmptyString :: split_where sep s'
      else match split_where sep s' with
           | [] => [String c EmptyString]
           | l :: ls => String c l :: ls
           end
  end.

Definition nonempty (s : string) : bool := negb (String.eqb s EmptyString).

Definition parseCreateNotesCommand (text : string) : list string :=
  let trimmed := Str.trim text in
  match command trimmed with
  | None => []
  | Some payload =>
      List.filter nonempty (map Str.trim (split_where is_separator payload))
  end.

(** *** getUniqueNotePath *)

(** The class of the title pattern: backslash, slash, colon, star,
    question mark, double quote, angle brackets and bar. *)
Definition forbidden (c : ascii) : bool :=
  match c with
  | "092" | "/" | ":" | "*" | "?" | "034" | "<" | ">" | "|" => true
  | _ => false
  end%char.

(** [s.replace(/[...]/g, '')] for a one-character class. *)
Fixpoint remove_where (bad : ascii -> bool) (s : string) : string :=
  match s with
  | String c s' => if bad c then remove_where bad s' else String c (remove_where bad s')
  | EmptyString => EmptyString
  end.

Definition safeTitle (title : string) : string :=
  let t := Str.trim (remove_where forbidden title) in
  if String.eqb t EmptyString then "Untitled" else t.

Section Vault.
(** The host's [normalizePath]. *)
Variable normalizePath : string -> string.

Definition basePath (folderPath title : string) : string :=
  normalizePath (if String.eqb folderPath EmptyString then safeTitle title
                 else folderPath +:+ "/" +:+ safeTitle title).

Definition numbered (base : string) (index : Z) : string :=
  base +:+ " (" +:+ Str.of_Z index +:+ ").md".

(** The [while] loop over the paths the vault holds; [fuel] bounds its
    turns. *)
Fixpoint probe (fuel : nat) (paths : gset string) (base candidate : string)
  (index : Z) : option string :=
  if bool_decide (candidate ∈ paths) then
    match fuel with
    | O => None
    | S fuel' => probe fuel' paths base (numbered base index) (index + 1)
    end
  else Some candidate.

Definition getUniqueNotePath (fuel : nat) (paths : gset string)
  (folderPath title : string) : option string :=
  let base := basePath folderPath title in
  probe fuel paths base (base +:+ ".md") 1.

End Vault.

End Notes.

(** ** Concrete inputs used in the examples below *)

Module Sample.
Import JS Net Client.

Definition Q : string := String Str.dquote EmptyString.
Definition NL : string := String Str.nl EmptyString.

(** The JSON text of a completion chunk whose delta content is [content]
    (which must need no escaping). *)
Definition payload (content : string) : string :=
  "{" +:+ Q +:+ "choices" +:+ Q +:+ ":[{" +:+ Q +:+ "delta" +:+ Q +:+ ":{"
  +:+ Q +:+ "content" +:+ Q +:+ ":" +:+ Q +:+ content +:+ Q +:+ "}}]}".

Definition data_line (content : string) : string := "data: " +:+ payload content.

(** A data line with one space in front of it. *)
Definition indented_line : string := " " +:+ data_line "Hi".

(** A callback that records the arguments it is called with. *)
Definition record (v : value) (calls : list value) : list value := calls ++ [v].

Definition client (key : string) : Client :=
  {| apiKey := key; baseUrl := "https://nano-gpt.com/api/v1";
     modelCache := ∅; imageModelCache := None |}.

Definition answer (ms : Z) (good : bool) (code : Z) (chunks : list string) : Reply :=
  {| elapsed := ms;
     result := Answered {| ok := good; status := code;
                           stream := Some {| texts := chunks; broken := false |} |} |}.

Definition world (t : Z) (rs : list Reply) : World :=
  {| clock := t; sent := []; replies := rs |}.

(** The JSON text of a model listing with one model. *)
Definition models_json : string :=
  "{" +:+ Q +:+ "data" +:+ Q +:+ ":[{" +:+ Q +:+ "id" +:+ Q +:+ ":" +:+ Q
  +:+ "gpt-4o" +:+ Q +:+ "}]}".

Definition one_model : value := VArr [VObj [("id", VStr "gpt-4o")]].

(** Two data lines and the sentinel, cut in the middle of the first line. *)
Definition two_chunks : list string :=
  ["data: " +:+ Str.slice_to 20 (payload "Hel");
   Str.slice_from 20 (payload "Hel") +:+ NL +:+ NL
   +:+ data_line "lo" +:+ NL +:+ "data: [DONE]" +:+ NL].

Definition hello : History.ChatMessage :=
  {| History.role := "user"; History.content := "hello";
     History.timestamp := None; History.model := None |}.

Definition welcome : History.ChatMessage :=
  {| History.role := "assistant"; History.content := "welcome";
     History.timestamp := None; History.model := Some "gpt-4o" |}.

(** One array holding one message, saved under two paths. *)
(** What one engine's arrays answer, for a few property names. *)
Definition arrays (l : list History.ChatMessage) (name : string) : bool :=
  if String.eqb name "length" then negb (Nat.eqb (length l) 0)
  else bool_decide (name ∈ ["push"; "pop"; "map"; "constructor"]).

Definition shared : History.State :=
  History.run arrays [History.Save "a.md" 0%nat; History.Save "b.md" 0%nat]
    (History.fresh [[hello]] None).

Definition note (name folder : string) : Folder.TFile :=
  {| Folder.path := folder +:+ "/" +:+ name +:+ ".md";
     Folder.basename := name;
     Folder.parent := Some folder |}.

(** A vault of three notes: two in one folder, one elsewhere. *)
Definition vault : Folder.Vault :=
  {| Folder.markdownFiles := [note "a" "notes"; note "b" "notes"; note "c" "other"];
     Folder.read := fun f =>
       if String.eqb (Folder.basename f) "b" then Some "x" else Some "text" |}.

(** Room for five files but only twenty characters. *)
Definition tight : Folder.Settings :=
  {| Folder.folderContextEnabled := true;
     Folder.folderContextMaxFiles := 5;
     Folder.folderContextMaxChars := 20 |}.

(** An editor state with a suggestion pending after the fifth character. *)
Definition suggesting : Ghost.EditorState :=
  {| Ghost.doc := "Hello world";
     Ghost.ghost := {| Ghost.text := ", dear"; Ghost.pos := 5 |} |}.

(** A position map that keeps every position where it is. *)
Definition keep (c : Ghost.Change) (p : nat) : nat := p.

(** An editor on a one-line note, cursor at the end of the line. *)
Definition typing : Plugin.Editor :=
  {| Plugin.state := Ghost.create "The quick brown";
     Plugin.cursor := {| Plugin.line := 0; Plugin.ch := 15 |};
     Plugin.somethingSelected := false;
     Plugin.cm := true |}.

Definition plugin_settings : Plugin.Settings :=
  {| Plugin.defaultModel := "gpt-4o";
     Plugin.temperature := JS.VNum 7 (-1);
     Plugin.maxTokens := 2048 |}.

Definition idle (counter : Z) : Plugin.Plugin :=
  {| Plugin.inlineAutocompleteInFlight := false;
     Plugin.inlineAutocompleteRequestId := counter;
     Plugin.isApplyingAutocomplete := false;
     Plugin.notices := [] |}.

(** A suspended invocation that holds request id 1. *)
Definition first_request : Plugin.Pending :=
  {| Plugin.requestId := 1;
     Plugin.at_cursor := {| Plugin.line := 0; Plugin.ch := 15 |};
     Plugin.linePrefix := "The quick brown";
     Plugin.silent := true;
     Plugin.request :=
       {| Plugin.messages := JS.VArr []; Plugin.model := "gpt-4o";
          Plugin.req_temperature := JS.VNum 7 (-1);
          Plugin.req_maxTokens := 400 |} |}.



(** Base64 over the standard and the URL-safe alphabet; padding ends the
    data and other characters are passed over. *)
Definition sextet (c : ascii) : option Z :=
  let n := Z.of_nat (nat_of_ascii c) in
  if (65 <=? n) && (n <=? 90) then Some (n - 65)
  else if (97 <=? n) && (n <=? 122) then Some (n - 71)
  else if (48 <=? n) && (n <=? 57) then Some (n + 4)
  else if (n =? 43) || (n =? 45) then Some 62
  else if (n =? 47) || (n =? 95) then Some 63
  else None.

Fixpoint base64_from (s : string) (acc bits : Z) : list ascii :=
  match s with
  | EmptyString => []
  | String c rest =>
      if Ascii.eqb c "=" then []
      else match sextet c with
           | None => base64_from rest acc bits
           | Some v =>
               let acc' := acc * 64 + v in
               if bits + 6 >=? 8
               then ascii_of_nat (Z.to_nat (Z.shiftr acc' (bits - 2) mod 256))
                    :: base64_from rest (acc' mod 2 ^ (bits - 2)) (bits - 2)
               else base64_from rest acc' (bits + 6)
           end
  end.

Definition base64 (s : string) : list ascii := base64_from s 0 0.

(** A host that puts attachments in one folder. *)
Definition attachments (files : gmap string (list ascii)) (name : string)
  : res string :=
  Ok ("attachments/" +:+ name).

Definition empty_vault : Image.Host :=
  {| Image.files := ∅; Image.notices := [] |}.

(** The JSON text of an image-model listing in its keyed form. *)
Definition image_models_json : string :=
  "{" +:+ Q +:+ "models" +:+ Q +:+ ":{" +:+ Q +:+ "image" +:+ Q +:+ ":{"
  +:+ Q +:+ "flux" +:+ Q +:+ ":{" +:+ Q +:+ "name" +:+ Q +:+ ":" +:+ Q
  +:+ "Flux" +:+ Q +:+ "}}}}".

Definition flux : value :=
  imageModel (VStr "flux") (VStr "Flux") VUndefined VUndefined.

End Sample.

(* ===================================================================== *)
(** * Properties *)
(* ===================================================================== *)

(** ** The definitions at work *)

Example parse_completion_chunk :
  JSON.parse (Sample.payload "Hi")
  = Some (JS.VObj
            [("choices",
              JS.VArr [JS.VObj [("delta", JS.VObj [("content", JS.VStr "Hi")])]])]).
Proof. reflexivity. Qed.

Example parse_sentinel_fails : JSON.parse "[DONE]" = None.
Proof. reflexivity. Qed.

Example content_of_chunk :
  Client.sse_line JSON.parse (Sample.data_line "Hi") = Some (JS.VStr "Hi").
Proof. reflexivity. Qed.

Example content_missing :
  Client.sse_line JSON.parse "data: {}" = None
  /\ Client.sse_line JSON.parse "data: null" = None
  /\ Client.sse_line JSON.parse "event: ping" = None
  /\ Client.sse_line JSON.parse "data: [DONE]" = None.
Proof. repeat split. Qed.

Example tiny_number_is_falsy :
  JS.truthy (JS.VNum 2 (-324)) = false /\ JS.truthy (JS.VNum 3 (-324)) = true.
Proof. split; vm_compute; reflexivity. Qed.

Example subscription_endpoints :
  Client.subscriptionEndpoint "https://nano-gpt.com/api/v1"
  = "https://nano-gpt.com/api/subscription/v1"
  /\ Client.subscriptionEndpoint "https://nano-gpt.com/api/v1/"
     = "https://nano-gpt.com/api/subscription/v1"
  /\ Client.subscriptionEndpoint "https://nano-gpt.com/api/subscription/v1"
     = "https://nano-gpt.com/api/subscription/v1"
  /\ Client.subscriptionEndpoint "https://example.org/"
     = "https://example.org/subscription/v1".
Proof. repeat split. Qed.

Example md5_of_cat : MD5.hexdigest "cat" = "d077f244def8a70e5ea758bd8352fcd8".
Proof. vm_compute. reflexivity. Qed.

Example md5_of_nothing :
  MD5.hexdigest EmptyString = "d41d8cd98f00b204e9800998ecf8427e".
Proof. vm_compute. reflexivity. Qed.

Example folder_context_of_sample :
  Folder.getFolderContext
    {| Folder.folderContextEnabled := true; Folder.folderContextMaxFiles := 5;
       Folder.folderContextMaxChars := 8000 |}
    Sample.vault (Sample.note "a" "notes")
  = Folder.header "notes" +:+ Folder.nextEntry (Sample.note "b" "notes") "x".
Proof. vm_compute. reflexivity. Qed.

Example autocomplete_issues_one_two :
  Plugin.issued Sample.keep
    [Plugin.Invoke Sample.plugin_settings "note" true;
     Plugin.Invoke Sample.plugin_settings "note" true;
     Plugin.Resume Sample.first_request (Client.Ok " fox");
     Plugin.Invoke Sample.plugin_settings "note" true]
    (Sample.idle 0, Sample.typing)
  = [1; 2].
Proof. vm_compute. reflexivity. Qed.

Example autocomplete_sets_ghost_text :
  Ghost.ghost
    (Plugin.state
       (snd (Plugin.inlineAutocomplete_resume Sample.keep Sample.first_request
               (Client.Ok " fox") (Sample.idle 1) Sample.typing)))
  = {| Ghost.text := "fox"; Ghost.pos := 15 |}.
Proof. vm_compute. reflexivity. Qed.

Example chat_view_run :
  ChatView.inflight
    (ChatView.run
       [ChatView.Type_ "hello"; ChatView.Call "t1"; ChatView.Type_ "again";
        ChatView.Call "t2"]
       (ChatView.initial (Some (Sample.note "a" "notes"))))
  = 1%nat.
Proof. vm_compute. reflexivity. Qed.

(** ** Strings *)

Lemma append_empty (s : string) : s +:+ EmptyString = s.
Proof.
  induction s as [|c s IH]; [reflexivity|].
  change (String c s +:+ EmptyString) with (String c (s +:+ EmptyString)).
  now rewrite IH.
Qed.

Lemma append_assoc (a b c : string) : (a +:+ b) +:+ c = a +:+ b +:+ c.
Proof.
  induction a as [|x a IH]; [reflexivity|].
  change (String x (a +:+ b) +:+ c = String x (a +:+ b +:+ c)).
  change (String x ((a +:+ b) +:+ c) = String x (a +:+ b +:+ c)).
  now rewrite IH.
Qed.

Lemma length_append (a b : string) :
  String.length (a +:+ b) = (String.length a + String.length b)%nat.
Proof.
  induction a as [|x a IH]; [reflexivity|].
  change (S (String.length (a +:+ b)) = S (String.length a + String.length b)).
  now rewrite IH.
Qed.

(** ** Splitting into lines *)

Section SplitFacts.
Variable sep : ascii.

Lemma split_not_nil (s : string) : Str.split sep s <> [].
Proof.
  destruct s as [|c s]; simpl; [discriminate|].
  destruct (Ascii.eqb c sep); [discriminate|].
  destruct (Str.split sep s); discriminate.
Qed.

Lemma removelast_cons_ne {A} (x : A) (l : list A) :
  l <> [] -> List.removelast (x :: l) = x :: List.removelast l.
Proof. destruct l; [congruence | reflexivity]. Qed.

Lemma last_cons_ne {A} (x d : A) (l : list A) :
  l <> [] -> List.last (x :: l) d = List.last l d.
Proof. destruct l; [congruence | reflexivity]. Qed.

(** Text that arrives later only extends the last, partial line. *)
Lemma split_append (a b : string) :
  Str.split sep (a +:+ b) =
  List.removelast (Str.split sep a)
  ++ Str.split sep (List.last (Str.split sep a) EmptyString +:+ b).
Proof.
  induction a as [|c a IH]; [reflexivity|].
  change (String c a +:+ b) with (String c (a +:+ b)).
  cbn [Str.split].
  destruct (Ascii.eqb c sep) eqn:Hc.
  - rewrite IH.
    rewrite removelast_cons_ne by apply split_not_nil.
    rewrite last_cons_ne by apply split_not_nil.
    reflexivity.
  - rewrite IH. clear IH.
    destruct (Str.split sep a) as [|l ls] eqn:Hs.
    { exfalso. eapply split_not_nil; eauto. }
    destruct ls as [|l2 ls].
    + cbn [List.removelast List.last app].
      change (String c l +:+ b) with (String c (l +:+ b)).
      cbn [Str.split]. rewrite Hc. reflexivity.
    + rewrite (removelast_cons_ne l) by discriminate.
      rewrite (removelast_cons_ne (String c l)) by discriminate.
      rewrite (last_cons_ne l) by discriminate.
      rewrite (last_cons_ne (String c l)) by discriminate.
      reflexivity.
Qed.

(** The last piece of a split holds no separator. *)
Lemma split_last (s : string) :
  Str.split sep (List.last (Str.split sep s) EmptyString) =
  [List.last (Str.split sep s) EmptyString].
Proof.
  induction s as [|c s IH]; [reflexivity|].
  cbn [Str.split].
  destruct (Ascii.eqb c sep) eqn:Hc.
  - rewrite last_cons_ne by apply split_not_nil. exact IH.
  - destruct (Str.split sep s) as [|l ls] eqn:Hs.
    { exfalso. eapply split_not_nil; eauto. }
    destruct ls as [|l2 ls].
    + cbn [List.last] in *. cbn [Str.split]. rewrite Hc.
      rewrite IH. reflexivity.
    + rewrite (last_cons_ne (String c l)) by discriminate.
      rewrite (last_cons_ne l) in IH by discriminate. exact IH.
Qed.

End SplitFacts.

(** ** The stream consumer *)

Section StreamFacts.
Import JS Net Client.
Context {S : Type}.
Variable parse : string -> option value.
Variable onChunk : value -> S -> S.

Lemma each_line_app (l1 l2 : list string) (st : S) :
  each_line parse onChunk (l1 ++ l2) st =
  each_line parse onChunk l2 (each_line parse onChunk l1 st).
Proof.
  revert st. induction l1 as [|l l1 IH]; intros st; [reflexivity|].
  cbn [app each_line]. destruct (sse_line parse l); apply IH.
Qed.

(** The loop over the lines is one callback per delivered content. *)
Lemma each_line_fold (lines : list string) (st : S) :
  each_line parse onChunk lines st =
  fold_left (fun s v => onChunk v s) (omap (sse_line parse) lines) st.
Proof.
  revert st. induction lines as [|l lines IH]; intros st; [reflexivity|].
  cbn [each_line omap list_omap]. destruct (sse_line parse l); cbn; apply IH.
Qed.

Lemma removelast_app_ne {A} (l1 l2 : list A) :
  l2 <> [] -> List.removelast (l1 ++ l2) = l1 ++ List.removelast l2.
Proof.
  intros H. induction l1 as [|x l1 IH]; [reflexivity|].
  cbn [app]. rewrite removelast_cons_ne.
  - now rewrite IH.
  - destruct l1; [exact H | discriminate].
Qed.

(** However the body is cut into chunks, the loop handles the complete
    lines of the whole text, in order. *)
Lemma read_loop_lines (pending : list string) (buffer : string) (st : S) :
  Str.split Str.nl buffer = [buffer] ->
  read_loop parse onChunk pending buffer st =
  each_line parse onChunk (complete_lines (buffer +:+ Str.concat pending)) st.
Proof.
  revert buffer st. induction pending as [|value rest IH]; intros buffer st Hb.
  - cbn [read_loop Str.concat fold_right]. unfold complete_lines.
    rewrite append_empty, Hb. reflexivity.
  - cbn [read_loop]. rewrite IH by apply split_last.
    unfold complete_lines. cbn [Str.concat fold_right].
    fold (Str.concat rest). rewrite <- append_assoc.
    rewrite (split_append Str.nl (buffer +:+ value)).
    rewrite removelast_app_ne by apply split_not_nil.
    rewrite each_line_app. reflexivity.
Qed.

End StreamFacts.

Section StreamTheorem.
Import JS Net Client.

(** C1 (amended).  With an API key set and an OK response that has a body,
    [streamChatCompletion] sends one POST to [/chat/completions] and, however
    the body is cut into chunks, runs [onChunk] once for each complete line
    (a line ended by a newline; the trailing partial line is never handled)
    that delivers a content, in stream order.  Each line is first trimmed of
    surrounding white space; the trimmed line is skipped when it is empty,
    when it is the sentinel [data: [DONE]], when it does not begin with
    [data: ], when the text after that prefix does not parse as JSON, when
    reading [choices[0]?.delta?.content] off the parsed value throws, and
    when that content is falsy; otherwise the content is delivered. *)
Theorem stream_delivers_trimmed_data_lines {S : Type}
  (parse : string -> option value) (onChunk : value -> S -> S)
  (messages : value) (model : string) (temperature maxTokens : value) (st : S)
  (c : Client) (w : World) (reply : Reply) (rest : list Reply)
  (response : Response) (b : Body) :
  String.eqb (apiKey c) EmptyString = false ->
  replies w = reply :: rest ->
  result reply = Answered response ->
  ok response = true ->
  stream response = Some b ->
  streamChatCompletion parse onChunk messages model temperature maxTokens st c w
  = (if broken b then Throw TypeError else Ok tt,
     fold_left (fun s v => onChunk v s)
       (deliveries parse (Str.concat (texts b))) st,
     c,
     {| clock := clock w + elapsed reply;
        sent := sent w ++
                [{| url := baseUrl c +:+ "/chat/completions";
                    method := Some "POST";
                    body := Some (completionRequest messages model temperature
                                    maxTokens);
                    bearer := apiKey c |}];
        replies := rest |})
  /\ (forall line, Str.trim line = EmptyString -> sse_line parse line = None)
  /\ (forall line, Str.trim line = "data: [DONE]" -> sse_line parse line = None)
  /\ (forall line, Str.startsWith "data: " (Str.trim line) = false ->
                   sse_line parse line = None)
  /\ (forall line, parse (Str.slice_from 6 (Str.trim line)) = None ->
                   sse_line parse line = None)
  /\ (forall line chunk,
        Str.trim line <> EmptyString ->
        Str.trim line <> "data: [DONE]" ->
        Str.startsWith "data: " (Str.trim line) = true ->
        parse (Str.slice_from 6 (Str.trim line)) = Some chunk ->
        sse_line parse line =
        match delta_content chunk with
        | Some content => if truthy content then Some content else None
        | None => None
        end).
Proof.
  intros Hkey Hrep Hres Hok Hbody.
  split; [|repeat split].
  - unfold streamChatCompletion, fetchWithAuth, bind, self, fetch, ret, throw.
    rewrite Hkey, Hrep, Hres, Hok. cbn [negb]. rewrite Hbody.
    rewrite read_loop_lines by reflexivity.
    rewrite each_line_fold. unfold deliveries.
    destruct (broken b); reflexivity.
  - intros line H. unfold sse_line. rewrite H. reflexivity.
  - intros line H. unfold sse_line. rewrite H. reflexivity.
  - intros line H. unfold sse_line. rewrite H.
    destruct (_ || _); reflexivity.
  - intros line H. unfold sse_line. rewrite H.
    destruct (_ || _); [reflexivity|].
    destruct (negb _); reflexivity.
  - intros line chunk H1 H2 H3 H4. unfold sse_line.
    apply String.eqb_neq in H1, H2. rewrite H1, H2, H3, H4. reflexivity.
Qed.

Lemma stream_delivers_trimmed_data_lines_witness :
  streamChatCompletion JSON.parse Sample.record (VArr []) "gpt-4o"
    VUndefined VUndefined [] (Sample.client "key")
    (Sample.world 0 [Sample.answer 40 true 200 Sample.two_chunks])
  = (Ok tt, [VStr "Hel"; VStr "lo"], Sample.client "key",
     {| clock := 40;
        sent := [{| url := "https://nano-gpt.com/api/v1/chat/completions";
                    method := Some "POST";
                    body := Some (completionRequest (VArr []) "gpt-4o"
                                    VUndefined VUndefined);
                    bearer := "key" |}];
        replies := [] |}).
Proof.
  exact (proj1 (stream_delivers_trimmed_data_lines JSON.parse Sample.record
                  (VArr []) "gpt-4o" VUndefined VUndefined []
                  (Sample.client "key")
                  (Sample.world 0 [Sample.answer 40 true 200 Sample.two_chunks])
                  (Sample.answer 40 true 200 Sample.two_chunks) []
                  _ _ eq_refl eq_refl eq_refl eq_refl eq_refl)).
Defined.

(** C1 as stated fails: a line that does not begin with [data: ] (it begins
    with a space) is not skipped; the callback receives its content. *)
Lemma indented_data_line_is_delivered :
  Str.startsWith "data: " Sample.indented_line = false /\
  complete_lines (Sample.indented_line +:+ Sample.NL) = [Sample.indented_line] /\
  streamChatCompletion JSON.parse Sample.record (VArr []) "gpt-4o"
    VUndefined VUndefined [] (Sample.client "key")
    (Sample.world 0 [Sample.answer 40 true 200
                       [Sample.indented_line +:+ Sample.NL]])
  = (Ok tt, [VStr "Hi"], Sample.client "key",
     {| clock := 40;
        sent := [{| url := "https://nano-gpt.com/api/v1/chat/completions";
                    method := Some "POST";
                    body := Some (completionRequest (VArr []) "gpt-4o"
                                    VUndefined VUndefined);
                    bearer := "key" |}];
        replies := [] |}).
Proof. vm_compute. repeat split. Qed.

End StreamTheorem.

(** ** The model-list caches *)

Section CacheFacts.
Import JS Net Client.
Variable parse : string -> option value.

(** A cache entry is served when it is younger than [CACHE_DURATION]. *)
Lemma listModels_hit (subscriptionOnly : bool) (c : Client) (w : World)
  (cached : Entry) :
  modelCache c !! cacheKey subscriptionOnly = Some cached ->
  clock w - timestamp cached < CACHE_DURATION ->
  listModels parse subscriptionOnly c w = (Ok (models cached), c, w).
Proof.
  intros Hc Hfresh. unfold listModels, bind, self, now, ret.
  rewrite Hc. apply Z.ltb_lt in Hfresh. rewrite Hfresh. reflexivity.
Qed.

(** Without a young entry the call is the fetch. *)
Lemma listModels_miss (subscriptionOnly : bool) (c : Client) (w : World) :
  (forall cached, modelCache c !! cacheKey subscriptionOnly = Some cached ->
                  CACHE_DURATION <= clock w - timestamp cached) ->
  listModels parse subscriptionOnly c w = fetchModels parse subscriptionOnly c w.
Proof.
  intros Hstale. unfold listModels, bind, self, now, ret.
  destruct (modelCache c !! cacheKey subscriptionOnly) as [cached|] eqn:Hc;
    [|reflexivity].
  specialize (Hstale cached eq_refl).
  apply Z.ltb_ge in Hstale. rewrite Hstale. reflexivity.
Qed.

(** [fetchWithAuth] never touches the client's fields. *)
Lemma fetchWithAuth_client (u : string) (m : option string) (b : option value)
  (c : Client) (w : World) :
  snd (fst (fetchWithAuth u m b c w)) = c.
Proof.
  unfold fetchWithAuth, bind, self, fetch, throw, ret, or_throw.
  destruct (String.eqb (apiKey c) EmptyString); [reflexivity|].
  destruct (replies w) as [|r rs]; [reflexivity|].
  destruct (result r) as [|resp]; [reflexivity|].
  destruct (ok resp); [reflexivity|]. cbn [negb].
  destruct (text resp); reflexivity.
Qed.

(** The successful fetch: one GET to the models endpoint, the list stored
    under the key with the time read after the reply. *)
Lemma fetchModels_stores (subscriptionOnly : bool) (c : Client) (w : World)
  (reply : Reply) (rest : list Reply) (response : Response) (raw : string)
  (data d : value) :
  String.eqb (apiKey c) EmptyString = false ->
  replies w = reply :: rest ->
  result reply = Answered response ->
  ok response = true ->
  text response = Some raw ->
  parse raw = Some data ->
  get data "data" = Some d ->
  fetchModels parse subscriptionOnly c w =
  (Ok (or_else d (VArr [])),
   {| apiKey := apiKey c; baseUrl := baseUrl c;
      modelCache :=
        <[cacheKey subscriptionOnly :=
            {| models := or_else d (VArr []);
               timestamp := clock w + elapsed reply |}]> (modelCache c);
      imageModelCache := imageModelCache c |},
   {| clock := clock w + elapsed reply;
      sent := sent w ++
              [{| url := baseEndpoint subscriptionOnly (baseUrl c) +:+ "/models";
                  method := None; body := None; bearer := apiKey c |}];
      replies := rest |}).
Proof.
  intros Hkey Hrep Hres Hok Hraw Hparse Hdata.
  unfold fetchModels, try_catch, fetchWithAuth, json, prop, or_throw,
    storeModels, bind, self, fetch, now, ret, throw.
  rewrite Hkey, Hrep, Hres, Hok. cbn [negb]. rewrite Hraw, Hparse, Hdata.
  reflexivity.
Qed.

End CacheFacts.

Section CacheTheorem.
Import JS Net Client.

(** C2.  [listModels(subscriptionOnly)] with an entry under the flag's key
    ('subscription' or 'all') that is less than [CACHE_DURATION] = 300000 ms
    old returns the stored list, sends nothing and changes nothing.
    Otherwise it fetches: when the fetch is answered with an OK status, the
    body of the answer reads to its end and yields a list, that list is
    stored under the key with the time read once the reply is in, and
    returned.  And then a later call made less than [CACHE_DURATION] after
    that time returns the same list without a request.  When the body's
    stream breaks before its end nothing is stored: the call returns the
    built-in list and leaves the client as it was. *)
Theorem listModels_serves_fresh_cache_else_fetches
  (parse : string -> option value) (subscriptionOnly : bool)
  (c : Client) (w : World) :
  CACHE_DURATION = 300000
  /\ cacheKey subscriptionOnly
     = (if subscriptionOnly then "subscription" else "all")
  /\ (forall cached,
        modelCache c !! cacheKey subscriptionOnly = Some cached ->
        clock w - timestamp cached < CACHE_DURATION ->
        listModels parse subscriptionOnly c w = (Ok (models cached), c, w))
  /\ (forall reply rest response raw data d,
        (forall cached,
           modelCache c !! cacheKey subscriptionOnly = Some cached ->
           CACHE_DURATION <= clock w - timestamp cached) ->
        String.eqb (apiKey c) EmptyString = false ->
        replies w = reply :: rest ->
        result reply = Answered response ->
        ok response = true ->
        text response = Some raw ->
        parse raw = Some data ->
        get data "data" = Some d ->
        exists c1 w1,
          listModels parse subscriptionOnly c w
          = (Ok (or_else d (VArr [])), c1, w1)
          /\ modelCache c1 !! cacheKey subscriptionOnly
             = Some {| models := or_else d (VArr []);
                       timestamp := clock w + elapsed reply |}
          /\ (forall k, k <> cacheKey subscriptionOnly ->
                        modelCache c1 !! k = modelCache c !! k)
          /\ imageModelCache c1 = imageModelCache c
          /\ clock w1 = clock w + elapsed reply
          /\ sent w1
             = sent w ++
               [{| url := baseEndpoint subscriptionOnly (baseUrl c) +:+ "/models";
                   method := None; body := None; bearer := apiKey c |}]
          /\ (forall w2,
                clock w2 - (clock w + elapsed reply) < CACHE_DURATION ->
                listModels parse subscriptionOnly c1 w2
                = (Ok (or_else d (VArr [])), c1, w2)))
  /\ (forall reply rest response,
        (forall cached,
           modelCache c !! cacheKey subscriptionOnly = Some cached ->
           CACHE_DURATION <= clock w - timestamp cached) ->
        String.eqb (apiKey c) EmptyString = false ->
        replies w = reply :: rest ->
        result reply = Answered response ->
        ok response = true ->
        text response = None ->
        exists w1,
          listModels parse subscriptionOnly c w = (Ok fallbackModels, c, w1)).
Proof.
  split; [reflexivity|]. split; [reflexivity|]. split; [|split].
  - intros cached Hc Hfresh. now apply listModels_hit.
  - intros reply rest response raw data d Hstale Hkey Hrep Hres Hok Hraw
      Hparse Hdata.
    rewrite listModels_miss by exact Hstale.
    rewrite (fetchModels_stores parse subscriptionOnly c w reply rest response
               raw data d) by assumption.
    eexists _, _. split; [reflexivity|]. cbn [modelCache imageModelCache clock sent].
    split; [apply lookup_insert_eq|].
    split; [intros k Hk; now apply lookup_insert_ne|].
    split; [reflexivity|]. split; [reflexivity|]. split; [reflexivity|].
    intros w2 Hfresh.
    apply (listModels_hit parse subscriptionOnly _ w2
             {| models := or_else d (VArr []);
                timestamp := clock w + elapsed reply |}).
    + apply lookup_insert_eq.
    + exact Hfresh.
  - intros reply rest response Hstale Hkey Hrep Hres Hok Hraw.
    rewrite listModels_miss by exact Hstale.
    unfold fetchModels, try_catch, fetchWithAuth, json, prop, or_throw,
      storeModels, bind, self, fetch, now, ret, throw.
    rewrite Hkey, Hrep, Hres, Hok. cbn [negb]. rewrite Hraw.
    eexists. reflexivity.
Qed.

Lemma listModels_serves_fresh_cache_else_fetches_witness :
  exists c1 w1,
    listModels JSON.parse false (Sample.client "key")
      (Sample.world 1000 [Sample.answer 40 true 200 [Sample.models_json]])
    = (Ok Sample.one_model, c1, w1)
    /\ sent w1 = [{| url := "https://nano-gpt.com/api/v1/models";
                     method := None; body := None; bearer := "key" |}]
    /\ listModels JSON.parse false c1 (Sample.world 301039 [])
       = (Ok Sample.one_model, c1, Sample.world 301039 []).
Proof.
  destruct (proj1 (proj2 (proj2 (proj2
              (listModels_serves_fresh_cache_else_fetches JSON.parse false
                 (Sample.client "key")
                 (Sample.world 1000
                    [Sample.answer 40 true 200 [Sample.models_json]])))))
              (Sample.answer 40 true 200 [Sample.models_json]) [] _
              Sample.models_json
              (VObj [("data", Sample.one_model)]) Sample.one_model
              (fun cached H =>
                 match eq_ind None (fun o => match o with
                                             | None => True
                                             | Some _ => False
                                             end) I _ H
                 with end)
              eq_refl eq_refl eq_refl eq_refl eq_refl eq_refl eq_refl)
    as (c1 & w1 & H1 & _ & _ & _ & _ & H5 & H6).
  exists c1, w1. split; [exact H1|]. split; [exact H5|].
  apply H6. reflexivity.
Defined.

End CacheTheorem.

(** ** Calls without an API key *)

Section NoKey.
Import JS Net Client.

Lemma fetchWithAuth_no_key (u : string) (m : option string) (b : option value)
  (c : Client) (w : World) :
  apiKey c = EmptyString ->
  fetchWithAuth u m b c w = (Throw (Error "API key is required"), c, w).
Proof.
  intros H. unfold fetchWithAuth, bind, self, throw. rewrite H. reflexivity.
Qed.

(** C9.  With the empty string as API key, [fetchWithAuth] throws the error
    'API key is required' before anything is sent; so [streamChatCompletion]
    (whose callback is never run), [generateImage], [webSearch], [scrapeUrls]
    and [checkBalance] all end with that error, leaving the world (no request
    sent, no reply consumed) and the client (both caches) as they were. *)
Theorem empty_key_rejects_before_any_request {S : Type}
  (parse : string -> option value) (onChunk : value -> S -> S) (st : S)
  (c : Client) (w : World) :
  apiKey c = EmptyString ->
  (forall u m b,
     fetchWithAuth u m b c w = (Throw (Error "API key is required"), c, w))
  /\ (forall messages model temperature maxTokens,
        streamChatCompletion parse onChunk messages model temperature
          maxTokens st c w
        = (Throw (Error "API key is required"), st, c, w))
  /\ (forall request,
        generateImage parse request c w
        = (Throw (Error "API key is required"), c, w))
  /\ (forall request,
        webSearch parse request c w
        = (Throw (Error "API key is required"), c, w))
  /\ (forall request,
        scrapeUrls parse request c w
        = (Throw (Error "API key is required"), c, w))
  /\ checkBalance parse c w = (Throw (Error "API key is required"), c, w).
Proof.
  intros Hkey. repeat split; intros.
  - now apply fetchWithAuth_no_key.
  - unfold streamChatCompletion. now rewrite fetchWithAuth_no_key.
  - unfold generateImage, bind, self. now rewrite fetchWithAuth_no_key.
  - unfold webSearch, bind, self. now rewrite fetchWithAuth_no_key.
  - unfold scrapeUrls, bind. now rewrite fetchWithAuth_no_key.
  - unfold checkBalance, bind, self. now rewrite fetchWithAuth_no_key.
Qed.

Lemma empty_key_rejects_before_any_request_witness :
  streamChatCompletion JSON.parse Sample.record (VArr []) "gpt-4o" VUndefined
    VUndefined [] (Sample.client EmptyString)
    (Sample.world 0 [Sample.answer 40 true 200 Sample.two_chunks])
  = (Throw (Error "API key is required"), [], Sample.client EmptyString,
     Sample.world 0 [Sample.answer 40 true 200 Sample.two_chunks])
  /\ checkBalance JSON.parse (Sample.client EmptyString)
       (Sample.world 0 [Sample.answer 40 true 200 Sample.two_chunks])
     = (Throw (Error "API key is required"), Sample.client EmptyString,
        Sample.world 0 [Sample.answer 40 true 200 Sample.two_chunks]).
Proof.
  pose proof (empty_key_rejects_before_any_request JSON.parse Sample.record []
                (Sample.client EmptyString)
                (Sample.world 0 [Sample.answer 40 true 200 Sample.two_chunks])
                eq_refl) as (_ & Hs & _ & _ & _ & Hb).
  split; [apply Hs | exact Hb].
Defined.

End NoKey.

(** ** Fallback listings *)

Section Fallback.
Import JS Net Client.
Variable parse : string -> option value.

Lemma fetchModels_fallback (subscriptionOnly : bool) (c c' : Client)
  (w w' : World) (e : exn) :
  fetchWithAuth (baseEndpoint subscriptionOnly (baseUrl c) +:+ "/models")
    None None c w = (Throw e, c', w') ->
  fetchModels parse subscriptionOnly c w = (Ok fallbackModels, c, w').
Proof.
  intros H.
  pose proof (fetchWithAuth_client
                (baseEndpoint subscriptionOnly (baseUrl c) +:+ "/models")
                None None c w) as Hc.
  rewrite H in Hc. cbn in Hc. subst c'.
  unfold fetchModels, try_catch, bind, self, ret. rewrite H. reflexivity.
Qed.

Lemma listImageModels_miss (c : Client) (w : World) :
  (forall cached, imageModelCache c = Some cached ->
                  CACHE_DURATION <= clock w - timestamp cached) ->
  listImageModels parse c w = fetchImageModels parse c w.
Proof.
  intros Hstale. unfold listImageModels, bind, self, now, ret.
  destruct (imageModelCache c) as [cached|] eqn:Hc; [|reflexivity].
  specialize (Hstale cached eq_refl).
  apply Z.ltb_ge in Hstale. rewrite Hstale. reflexivity.
Qed.

Lemma fetchImageModels_fallback (c c' : Client) (w w' : World) (e : exn) :
  fetchWithAuth "https://nano-gpt.com/api/models/image" None None c w
  = (Throw e, c', w') ->
  fetchImageModels parse c w = (Ok fallbackImageModels, c, w').
Proof.
  intros H.
  pose proof (fetchWithAuth_client "https://nano-gpt.com/api/models/image"
                None None c w) as Hc.
  rewrite H in Hc. cbn in Hc. subst c'.
  unfold fetchImageModels, try_catch, bind, ret. rewrite H. reflexivity.
Qed.

Lemma fetch_fails_throws (u : string) (m : option string) (b : option value)
  (c : Client) (w : World) :
  fetch_fails c w = true ->
  exists e w', fetchWithAuth u m b c w = (Throw e, c, w').
Proof.
  unfold fetch_fails, fetchWithAuth, bind, self, fetch, throw, ret, or_throw.
  destruct (String.eqb (apiKey c) EmptyString); [eauto|].
  destruct (replies w) as [|r rs]; [eauto|].
  destruct (result r) as [|resp]; [eauto|].
  destruct (ok resp); cbn; [discriminate|].
  destruct (text resp); eauto.
Qed.

Lemma fetchModels_sends (subscriptionOnly : bool) (c : Client) (w : World) :
  String.eqb (apiKey c) EmptyString = false ->
  sent (snd (fetchModels parse subscriptionOnly c w))
  = sent w ++ [{| url := baseEndpoint subscriptionOnly (baseUrl c) +:+ "/models";
                  method := None; body := None; bearer := apiKey c |}].
Proof.
  intros Hkey.
  unfold fetchModels, try_catch, fetchWithAuth, json, prop, or_throw,
    storeModels, bind, self, fetch, now, ret, throw.
  rewrite Hkey.
  destruct (replies w) as [|r rs]; [reflexivity|].
  destruct (result r) as [|resp]; [reflexivity|].
  destruct (ok resp); cbn [negb]; [|destruct (text resp); reflexivity].
  destruct (text resp) as [raw|]; [|reflexivity].
  destruct (parse raw) as [data|]; [|reflexivity].
  destruct (get data "data"); reflexivity.
Qed.

Lemma fetchImageModels_sends (c : Client) (w : World) :
  String.eqb (apiKey c) EmptyString = false ->
  sent (snd (fetchImageModels parse c w))
  = sent w ++ [{| url := "https://nano-gpt.com/api/models/image";
                  method := None; body := None; bearer := apiKey c |}].
Proof.
  intros Hkey.
  unfold fetchImageModels, try_catch, fetchWithAuth, json, prop, or_throw,
    storeImageModels, bind, self, fetch, now, ret, throw.
  rewrite Hkey.
  destruct (replies w) as [|r rs]; [reflexivity|].
  destruct (result r) as [|resp]; [reflexivity|].
  destruct (ok resp); cbn [negb]; [|destruct (text resp); reflexivity].
  destruct (text resp) as [raw|]; [|reflexivity].
  destruct (parse raw) as [data|]; [|reflexivity].
  destruct (get data "models") as [m|]; [|reflexivity].
  destruct (get data "data") as [d|]; [|reflexivity].
  destruct (collectImageModels _); reflexivity.
Qed.

End Fallback.

Section FallbackTheorem.
Import JS Net Client.

(** C10.  When the fetch for a listing fails (no API key, no reply, a
    rejected fetch or a status that is not OK) and no young cache entry
    answers in its place, [listModels] returns the three built-in chat
    models and [listImageModels] the three built-in image models; the client
    is left as it was, so nothing is stored in either cache; and any later
    call (the clock not running backwards) takes the fetch path again, which
    with a key set sends the request anew. *)
Theorem failed_listing_falls_back_without_caching
  (parse : string -> option value) (c : Client) (w : World) :
  fetch_fails c w = true ->
  (forall subscriptionOnly,
     (forall cached,
        modelCache c !! cacheKey subscriptionOnly = Some cached ->
        CACHE_DURATION <= clock w - timestamp cached) ->
     exists w',
       listModels parse subscriptionOnly c w
       = (Ok (VArr [chatModel "zai-org/glm-4.7" "GLM 4.7";
                    chatModel "gpt-4o" "GPT-4o";
                    chatModel "claude-3-5-sonnet-20240620" "Claude 3.5 Sonnet"]),
          c, w')
       /\ (forall w2,
             clock w <= clock w2 ->
             listModels parse subscriptionOnly c w2
             = fetchModels parse subscriptionOnly c w2
             /\ (String.eqb (apiKey c) EmptyString = false ->
                 sent (snd (listModels parse subscriptionOnly c w2))
                 = sent w2 ++
                   [{| url := baseEndpoint subscriptionOnly (baseUrl c)
                              +:+ "/models";
                       method := None; body := None; bearer := apiKey c |}])))
  /\ ((forall cached,
         imageModelCache c = Some cached ->
         CACHE_DURATION <= clock w - timestamp cached) ->
      exists w',
        listImageModels parse c w
        = (Ok (VArr [VObj [("model", VStr "flux-pro"); ("name", VStr "Flux Pro")];
                     VObj [("model", VStr "dall-e-3"); ("name", VStr "DALL-E 3")];
                     VObj [("model", VStr "stable-diffusion-xl");
                           ("name", VStr "Stable Diffusion XL")]]),
           c, w')
        /\ (forall w2,
              clock w <= clock w2 ->
              listImageModels parse c w2 = fetchImageModels parse c w2
              /\ (String.eqb (apiKey c) EmptyString = false ->
                  sent (snd (listImageModels parse c w2))
                  = sent w2 ++
                    [{| url := "https://nano-gpt.com/api/models/image";
                        method := None; body := None; bearer := apiKey c |}]))).
Proof.
  intros Hfail. split.
  - intros subscriptionOnly Hstale.
    destruct (fetch_fails_throws
                (baseEndpoint subscriptionOnly (baseUrl c) +:+ "/models")
                None None c w Hfail) as (e & w' & Hthrow).
    exists w'. split.
    + rewrite listModels_miss by exact Hstale.
      exact (fetchModels_fallback parse subscriptionOnly c c w w' e Hthrow).
    + intros w2 Hclock.
      assert (Hmiss : listModels parse subscriptionOnly c w2
                      = fetchModels parse subscriptionOnly c w2).
      { apply listModels_miss. intros cached Hc.
        specialize (Hstale cached Hc). lia. }
      split; [exact Hmiss|].
      intros Hkey. rewrite Hmiss. now apply fetchModels_sends.
  - intros Hstale.
    destruct (fetch_fails_throws "https://nano-gpt.com/api/models/image"
                None None c w Hfail) as (e & w' & Hthrow).
    exists w'. split.
    + rewrite listImageModels_miss by exact Hstale.
      exact (fetchImageModels_fallback parse c c w w' e Hthrow).
    + intros w2 Hclock.
      assert (Hmiss : listImageModels parse c w2 = fetchImageModels parse c w2).
      { apply listImageModels_miss. intros cached Hc.
        specialize (Hstale cached Hc). lia. }
      split; [exact Hmiss|].
      intros Hkey. rewrite Hmiss. now apply fetchImageModels_sends.
Qed.

Lemma failed_listing_falls_back_without_caching_witness :
  exists w',
    listModels JSON.parse true (Sample.client "key")
      (Sample.world 5 [Sample.answer 10 false 500 ["oops"]])
    = (Ok fallbackModels, Sample.client "key", w').
Proof.
  destruct (proj1 (failed_listing_falls_back_without_caching JSON.parse
                     (Sample.client "key")
                     (Sample.world 5 [Sample.answer 10 false 500 ["oops"]])
                     eq_refl)
              true
              (fun cached H =>
                 match eq_ind None (fun o => match o with
                                             | None => True
                                             | Some _ => False
                                             end) I _ H
                 with end))
    as (w' & H & _).
  exists w'. exact H.
Defined.

End FallbackTheorem.

(** ** The chat history store *)

Section HistoryFacts.
Import History.
Variable arrayAnswers : list ChatMessage -> string -> bool.

Lemma ensureLoaded_loaded (st : State) : loaded (ensureLoaded st) = true.
Proof. unfold ensureLoaded. destruct (loaded st) eqn:H; [exact H | reflexivity]. Qed.

Lemma ensureLoaded_heap (st : State) : heap (ensureLoaded st) = heap st.
Proof. unfold ensureLoaded. destruct (loaded st); reflexivity. Qed.

Lemma ensureLoaded_id (st : State) : loaded st = true -> ensureLoaded st = st.
Proof. intros H. unfold ensureLoaded. now rewrite H. Qed.

Lemma ensureLoaded_twice (st : State) :
  ensureLoaded (ensureLoaded st) = ensureLoaded st.
Proof. apply ensureLoaded_id, ensureLoaded_loaded. Qed.

Lemma save_loaded (path : string) (r : nat) (st : State) :
  loaded (saveChatHistory path r st) = true.
Proof. apply ensureLoaded_loaded. Qed.

Lemma deref_alloc (h : list (list ChatMessage)) :
  deref (h ++ [[]]) (length h) = [].
Proof. unfold deref. now rewrite list_lookup_middle. Qed.


Lemma well_formed_ensureLoaded (st : State) :
  well_formed st -> well_formed (ensureLoaded st).
Proof.
  intros [H1 H2]. unfold ensureLoaded.
  destruct (loaded st); [now split|].
  split; cbn; exact H2.
Qed.

(** A path that names no member of [Object.prototype] is not
    [__proto__]. *)
Lemma not_member_not_proto (path : string) :
  objectMember path = false -> String.eqb path "__proto__" = false.
Proof.
  intros H. apply String.eqb_neq. intros ->. vm_compute in H. discriminate.
Qed.

(** On such a path a write makes or replaces the own property and leaves
    the prototype alone. *)
Lemma set_own (t : Table) (path : string) (r : nat) :
  String.eqb path "__proto__" = false ->
  set t path r = {| own := <[path := r]> (own t); proto := proto t |}.
Proof. intros H. unfold set. rewrite H. now destruct (own t !! path). Qed.

(** A write never touches an own property under another name. *)
Lemma set_other (t : Table) (path other : string) (r : nat) :
  other <> path -> own (set t path r) !! other = own t !! other.
Proof.
  intros Hne. unfold set.
  destruct (own t !! path); [cbn; now apply lookup_insert_ne|].
  destruct (String.eqb path "__proto__"); cbn;
    [reflexivity | now apply lookup_insert_ne].
Qed.

(** With [Object.prototype] as the prototype, such a path finds the own
    property or nothing. *)
Lemma get_plain (h : list (list ChatMessage)) (t : Table) (path : string) :
  proto t = None -> objectMember path = false ->
  get arrayAnswers h t path
  = match own t !! path with Some r => Messages r | None => Falsy end.
Proof. intros Hp Hm. unfold get. now rewrite Hp, Hm. Qed.

Lemma get_own (h : list (list ChatMessage)) (t : Table) (path : string)
  (r : nat) :
  own t !! path = Some r -> get arrayAnswers h t path = Messages r.
Proof. intros H. unfold get. now rewrite H. Qed.

Lemma slots_after_save (path : string) (r : nat) (st : State) :
  String.eqb path "__proto__" = false ->
  slots (saveChatHistory path r st) = <[path := r]> (slots st).
Proof.
  intros Hp. unfold slots.
  rewrite (ensureLoaded_id (saveChatHistory path r st)) by apply save_loaded.
  cbn [saveChatHistory history]. now rewrite set_own.
Qed.

Lemma slot_after_save_other (path other : string) (r : nat) (st : State) :
  other <> path ->
  slots (saveChatHistory path r st) !! other = slots st !! other.
Proof.
  intros Hne. unfold slots.
  rewrite (ensureLoaded_id (saveChatHistory path r st)) by apply save_loaded.
  cbn [saveChatHistory history]. now apply set_other.
Qed.

Lemma plain_after_save (path : string) (r : nat) (st : State) :
  String.eqb path "__proto__" = false ->
  plain st -> plain (saveChatHistory path r st).
Proof.
  intros Hp Hplain. unfold plain.
  rewrite (ensureLoaded_id (saveChatHistory path r st)) by apply save_loaded.
  cbn [saveChatHistory history]. now rewrite set_own.
Qed.


Lemma read_unstored (path : string) (st : State) :
  plain st -> objectMember path = false ->
  slots st !! path = None -> read arrayAnswers path st = Some [].
Proof.
  intros Hplain Hm H. unfold read, loadChatHistory.
  rewrite get_plain by assumption. fold (slots st). rewrite H.
  cbn [alloc_empty heap fmap option_fmap option_map]. f_equal.
  apply deref_alloc.
Qed.

Lemma read_stored (path : string) (st : State) (r : nat) :
  slots st !! path = Some r ->
  read arrayAnswers path st = Some (deref (heap st) r).
Proof.
  intros H. unfold read, loadChatHistory.
  rewrite (get_own _ _ path r H). cbn. now rewrite ensureLoaded_heap.
Qed.

(** A path that names a member of [Object.prototype] and has nothing
    stored under it loads as that member, which is no array. *)
Lemma load_member (name : string) (st : State) :
  plain st -> objectMember name = true -> slots st !! name = None ->
  loadChatHistory arrayAnswers name st = (None, ensureLoaded st).
Proof.
  intros Hplain Hm H. unfold loadChatHistory, get.
  fold (slots st). rewrite H, Hplain, Hm. reflexivity.
Qed.

Lemma read_after_save (path : string) (r : nat) (st : State) :
  String.eqb path "__proto__" = false ->
  read arrayAnswers path (saveChatHistory path r st)
  = Some (deref (heap st) r).
Proof.
  intros Hp. erewrite read_stored.
  2:{ rewrite slots_after_save by exact Hp. apply lookup_insert_eq. }
  cbn [saveChatHistory heap]. now rewrite ensureLoaded_heap.
Qed.

Lemma read_after_clear (path : string) (st : State) :
  String.eqb path "__proto__" = false ->
  read arrayAnswers path (clearChatHistory path st) = Some [].
Proof.
  intros Hp. unfold clearChatHistory. cbn [alloc_empty].
  rewrite read_after_save by exact Hp. cbn [heap]. f_equal. apply deref_alloc.
Qed.

(** On a path that names no member of [Object.prototype], an append goes
    through and adds the message at the end. *)
Lemma read_after_append (path : string) (m : ChatMessage) (st : State) :
  well_formed st -> plain st -> objectMember path = false ->
  exists before,
    read arrayAnswers path st = Some before
    /\ fst (appendMessage arrayAnswers path m st) = Client.Ok tt
    /\ read arrayAnswers path (snd (appendMessage arrayAnswers path m st))
       = Some (before ++ [m]).
Proof.
  intros Hwf Hplain Hm. pose proof (not_member_not_proto path Hm) as Hp.
  apply well_formed_ensureLoaded in Hwf. destruct Hwf as [[Hwf _] _].
  unfold appendMessage, loadChatHistory.
  rewrite get_plain by assumption. fold (slots st).
  destruct (slots st !! path) as [r|] eqn:Hs.
  - exists (deref (heap st) r). split; [now apply read_stored|].
    cbn [fst snd]. split; [reflexivity|].
    rewrite read_after_save by exact Hp.
    cbn [push heap]. rewrite ensureLoaded_heap. f_equal.
    specialize (Hwf path r Hs). rewrite ensureLoaded_heap in Hwf.
    destruct (heap st !! r) as [l|] eqn:Hr.
    + unfold deref. rewrite Hr, list_lookup_insert_eq by exact Hwf. reflexivity.
    + apply lookup_ge_None in Hr. cbn in Hwf. lia.
  - exists []. split; [now apply read_unstored|].
    cbn [alloc_empty fst snd]. split; [reflexivity|].
    rewrite read_after_save by exact Hp.
    cbn [push heap]. rewrite ensureLoaded_heap.
    rewrite list_lookup_middle by reflexivity. f_equal.
    unfold deref. rewrite list_lookup_insert_eq; [reflexivity|].
    rewrite length_app. cbn. lia.
Qed.


Lemma table_valid_mono (h h' : list (list ChatMessage)) (t : Table) :
  (length h <= length h')%nat -> table_valid h t -> table_valid h' t.
Proof.
  intros Hle [Hv Hp]. split.
  - intros p r Hr. specialize (Hv p r Hr). cbn in *. lia.
  - destruct (proto t); [lia | exact I].
Qed.

Lemma table_valid_set (h : list (list ChatMessage)) (t : Table)
  (path : string) (r : nat) :
  table_valid h t -> (r < length h)%nat -> table_valid h (set t path r).
Proof.
  intros [Hv Hp] Hr. unfold set.
  destruct (own t !! path);
    [split; [now apply map_Forall_insert_2 | exact Hp]|].
  destruct (String.eqb path "__proto__"); split; cbn;
    [exact Hv | exact Hr | now apply map_Forall_insert_2 | exact Hp].
Qed.

Lemma well_formed_save (path : string) (r : nat) (st : State) :
  well_formed st -> (r < length (heap st))%nat ->
  well_formed (saveChatHistory path r st).
Proof.
  intros Hwf Hr. apply well_formed_ensureLoaded in Hwf as [Hh _].
  assert (Hv : table_valid (heap (ensureLoaded st))
                 (set (history (ensureLoaded st)) path r)).
  { apply table_valid_set; [exact Hh | now rewrite ensureLoaded_heap]. }
  split; exact Hv.
Qed.

Lemma well_formed_push (r : nat) (m : ChatMessage) (st : State) :
  well_formed st -> well_formed (push r m st).
Proof.
  intros [Hh Hs].
  assert (Hlen : length (heap (push r m st)) = length (heap st)).
  { cbn [push heap]. destruct (heap st !! r); [apply length_insert | reflexivity]. }
  split; cbn [push history settings_chatHistory];
    (eapply table_valid_mono; [|eassumption]); lia.
Qed.

Lemma well_formed_alloc (st : State) :
  well_formed st -> well_formed (snd (alloc_empty st)).
Proof.
  intros [Hh Hs].
  split; cbn [alloc_empty snd heap history settings_chatHistory];
    (eapply table_valid_mono; [|eassumption]); rewrite length_app; lia.
Qed.

Lemma well_formed_load (path : string) (st : State) :
  well_formed st ->
  well_formed (snd (loadChatHistory arrayAnswers path st))
  /\ forall r, fst (loadChatHistory arrayAnswers path st) = Some r ->
               (r < length (heap (snd (loadChatHistory arrayAnswers path st))))%nat.
Proof.
  intros Hwf. apply well_formed_ensureLoaded in Hwf.
  assert (Hnew : well_formed (snd (alloc_empty (ensureLoaded st)))
                 /\ (fst (alloc_empty (ensureLoaded st))
                     < length (heap (snd (alloc_empty (ensureLoaded st)))))%nat).
  { split; [now apply well_formed_alloc|].
    cbn [alloc_empty fst snd heap]. rewrite length_app. cbn. lia. }
  destruct Hnew as [Hnew1 Hnew2].
  unfold loadChatHistory, get.
  destruct (own (history (ensureLoaded st)) !! path) as [r|] eqn:Hp.
  - split; [exact Hwf|]. intros r' [= <-]. destruct Hwf as [[Hh _] _].
    exact (Hh path r Hp).
  - destruct (proto (history (ensureLoaded st))) as [rp|] eqn:Hproto.
    + destruct (String.eqb path "__proto__").
      * split; [exact Hwf|]. cbn [fst snd]. intros r [= <-].
        destruct Hwf as [[_ Hq] _]. now rewrite Hproto in Hq.
      * destruct (arrayAnswers _ path); cbn [fst snd];
          [split; [exact Hwf | discriminate]|].
        split; [exact Hnew1|]. intros r [= <-]. exact Hnew2.
    + destruct (objectMember path); cbn [fst snd];
        [split; [exact Hwf | discriminate]|].
      split; [exact Hnew1|]. intros r [= <-]. exact Hnew2.
Qed.

(** Validity of the references is kept by every call. *)
Lemma well_formed_step (c : call) (st : State) :
  well_formed st -> call_valid c st -> well_formed (step arrayAnswers c st).
Proof.
  intros Hwf Hc. destruct c as [p|p r|p m|p|r m]; cbn [step call_valid] in *.
  - now apply well_formed_load.
  - now apply well_formed_save.
  - unfold appendMessage.
    destruct (well_formed_load p st Hwf) as [Hwf1 Hr].
    destruct (loadChatHistory arrayAnswers p st) as [[r|] st1];
      cbn [fst snd] in *; [|exact Hwf1].
    apply well_formed_save; [now apply well_formed_push|].
    specialize (Hr r eq_refl).
    cbn [push heap]. destruct (heap st1 !! r); [now rewrite length_insert | exact Hr].
  - unfold clearChatHistory. cbn [alloc_empty].
    apply well_formed_save; [exact (well_formed_alloc st Hwf)|].
    cbn [heap]. rewrite length_app. cbn. lia.
  - now apply well_formed_push.
Qed.

Lemma well_formed_fresh (h : list (list ChatMessage)) :
  well_formed (fresh h None).
Proof. split; split; cbn; try exact I; apply map_Forall_empty. Qed.

Lemma history_ensureLoaded_congr (st st' : State) :
  loaded st' = loaded st -> history st' = history st ->
  settings_chatHistory st' = settings_chatHistory st ->
  history (ensureLoaded st') = history (ensureLoaded st).
Proof.
  intros Hl Hh Hs. unfold ensureLoaded. rewrite Hl.
  destruct (loaded st); cbn; congruence.
Qed.

(** A load leaves the store's object as it is. *)
Lemma history_after_load (p : string) (st : State) :
  history (ensureLoaded (snd (loadChatHistory arrayAnswers p st)))
  = history (ensureLoaded st).
Proof.
  assert (Halloc : history (ensureLoaded (snd (alloc_empty (ensureLoaded st))))
                   = history (ensureLoaded st)).
  { transitivity (history (ensureLoaded (ensureLoaded st)));
      [now apply history_ensureLoaded_congr | now rewrite ensureLoaded_twice]. }
  unfold loadChatHistory.
  destruct (get arrayAnswers _ _ p); cbn [snd];
    [now rewrite ensureLoaded_twice | now rewrite ensureLoaded_twice
     | exact Halloc].
Qed.

Lemma history_after_push (r : nat) (m : ChatMessage) (st : State) :
  history (ensureLoaded (push r m st)) = history (ensureLoaded st).
Proof. now apply history_ensureLoaded_congr. Qed.



(** A call that stores nothing under [__proto__] leaves the prototype as
    it is. *)
Lemma step_keeps_proto (c : call) (st : State) :
  saves_to "__proto__" c = false ->
  proto (history (ensureLoaded (step arrayAnswers c st)))
  = proto (history (ensureLoaded st)).
Proof.
  assert (Hsave : forall p r s,
            String.eqb p "__proto__" = false ->
            proto (history (ensureLoaded (saveChatHistory p r s)))
            = proto (history (ensureLoaded s))).
  { intros p r s Hp.
    rewrite (ensureLoaded_id (saveChatHistory p r s)) by apply save_loaded.
    cbn [saveChatHistory history]. now rewrite set_own. }
  destruct c as [p|p r|p m|p|r m]; cbn [saves_to step]; intros Hp.
  - now rewrite history_after_load.
  - now apply Hsave.
  - unfold appendMessage.
    pose proof (history_after_load p st) as Hl.
    destruct (loadChatHistory arrayAnswers p st) as [[r|] st1]; cbn [snd] in *.
    + rewrite Hsave by exact Hp. now rewrite history_after_push, Hl.
    + now rewrite Hl.
  - unfold clearChatHistory. cbn [alloc_empty]. rewrite Hsave by exact Hp.
    f_equal. now apply history_ensureLoaded_congr.
  - now rewrite history_after_push.
Qed.


Lemma entry_after_save (path other : string) (r : nat) (st : State) :
  other <> path ->
  entry other (saveChatHistory path r st) = entry other st.
Proof.
  intros Hne. unfold entry. rewrite slot_after_save_other by exact Hne.
  cbn [saveChatHistory heap]. now rewrite ensureLoaded_heap.
Qed.




End HistoryFacts.

Section HistoryTheorem.
Import History.




End HistoryTheorem.

(** ** Folder context *)

Section FolderFacts.
Import Folder.
Variable settings : Settings.
Variable vault : Vault.

Lemma total_len_app (l1 l2 : list string) :
  total_len (l1 ++ l2) = total_len l1 + total_len l2.
Proof.
  induction l1 as [|e l1 IH]; [reflexivity|].
  cbn [app total_len fold_right]. fold (total_len (l1 ++ l2)) (total_len l1).
  rewrite IH. lia.
Qed.

Lemma len_concat (l : list string) : Str.len (Str.concat l) = total_len l.
Proof.
  induction l as [|e l IH]; [reflexivity|].
  cbn [Str.concat total_len fold_right].
  fold (Str.concat l) (total_len l). rewrite <- IH.
  unfold Str.len. rewrite length_append. lia.
Qed.

Lemma total_len_nonneg (l : list string) : 0 <= total_len l.
Proof.
  induction l as [|e l IH]; cbn [total_len fold_right]; [lia|].
  fold (total_len l). unfold Str.len. lia.
Qed.

Lemma nextEntry_not_empty (f : TFile) (content : string) :
  0 < Str.len (nextEntry f content).
Proof.
  unfold nextEntry, Str.len. rewrite length_append.
  change (String.length NL) with 1%nat. lia.
Qed.

(** The loop ends here and adds nothing. *)
Ltac loop_stops :=
  exists []; split; [apply sublist_nil_l|]; split; [constructor|];
  split; [cbn; now rewrite app_nil_r | cbn; lia].

(** What the loop adds: entries of files taken in order from the list,
    each readable and non-empty, within what the two limits leave. *)
Lemma collect_spec (files : list TFile) (entries : list string)
  (totalChars fileCount : Z) :
  exists used,
    used `sublist_of` files
    /\ Forall (fun f => exists content,
                 read vault f = Some content /\ content <> EmptyString) used
    /\ collect settings vault files entries totalChars fileCount
       = entries ++ map (entryOf vault) used
    /\ fileCount + Z.of_nat (length used)
       <= Z.max fileCount (folderContextMaxFiles settings)
    /\ totalChars + total_len (map (entryOf vault) used)
       <= Z.max totalChars (folderContextMaxChars settings).
Proof.
  revert entries totalChars fileCount.
  induction files as [|f rest IH]; intros entries totalChars fileCount.
  - loop_stops.
  - cbn [collect].
    destruct (fileCount >=? folderContextMaxFiles settings) eqn:Hcount.
    { loop_stops. }
    destruct (read vault f) as [content|] eqn:Hread.
    2:{ destruct (IH entries totalChars fileCount) as (used & Hs & Hf & He & Hb).
        exists used. split; [now apply sublist_cons | now split]. }
    destruct (String.eqb content EmptyString) eqn:Hempty.
    { destruct (IH entries totalChars fileCount) as (used & Hs & Hf & He & Hb).
      exists used. split; [now apply sublist_cons | now split]. }
    destruct (totalChars + Str.len (nextEntry f content)
              >? folderContextMaxChars settings) eqn:Hchars.
    { loop_stops. }
    destruct (IH (entries ++ [nextEntry f content])
                (totalChars + Str.len (nextEntry f content)) (fileCount + 1))
      as (used & Hs & Hf & He & Hn & Hc).
    exists (f :: used).
    assert (Hentry : entryOf vault f = nextEntry f content).
    { unfold entryOf. now rewrite Hread. }
    split; [now apply sublist_skip|].
    split.
    { constructor; [|exact Hf]. exists content. split; [exact Hread|].
      now apply String.eqb_neq. }
    split.
    { rewrite He. cbn [map]. rewrite Hentry, <- app_assoc. reflexivity. }
    cbn [map length total_len fold_right].
    fold (total_len (map (entryOf vault) used)). rewrite Hentry.
    lia.
Qed.

End FolderFacts.

Section FolderTheorem.
Import Folder.

(** C6 (amended).  For every configuration, vault and note, the folder
    context is the empty string or a header line followed by the entries of
    files [used], where [used] is taken in order from the vault's markdown
    files; every file used is not the note itself (by path), has as parent
    the folder at the note's parent path (the empty path when the note has
    no parent), and reads as non-empty text; when the
    context is non-empty, the number of files used is at most
    [folderContextMaxFiles] and the entries (the text after the header line)
    have at most [folderContextMaxChars] characters in total.  The chat view
    computes the same for its active file and the empty string without one;
    with the feature switched off the context is empty. *)
Theorem folder_context_from_siblings_within_limits
  (settings : Settings) (vault : Vault) (file : TFile) :
  exists used,
    used `sublist_of` markdownFiles vault
    /\ Forall (fun f =>
                 path f <> path file
                 /\ parent f = Some (default EmptyString (parent file))
                 /\ exists content,
                      read vault f = Some content /\ content <> EmptyString)
         used
    /\ getFolderContext settings vault file
       = match used with
         | [] => EmptyString
         | _ => header (default EmptyString (parent file))
                +:+ Str.concat (map (entryOf vault) used)
         end
    /\ (used <> [] ->
        Z.of_nat (length used) <= folderContextMaxFiles settings
        /\ Str.len (Str.concat (map (entryOf vault) used))
           <= folderContextMaxChars settings)
    /\ (folderContextEnabled settings = false -> used = [])
    /\ getFolderContext_chat settings vault (Some file)
       = getFolderContext settings vault file
    /\ getFolderContext_chat settings vault None = EmptyString.
Proof.
  destruct (folderContextEnabled settings) eqn:Hon.
  2:{ exists []. split; [apply sublist_nil_l|]. split; [constructor|].
      split; [unfold getFolderContext; now rewrite Hon|].
      split; [congruence|]. split; [reflexivity|]. split; reflexivity. }
  destruct (collect_spec settings vault
              (List.filter (sibling file) (markdownFiles vault)) [] 0 0)
    as (used & Hsub & Hread & Hcollect & Hcount & Hchars).
  exists used.
  assert (Hfilter : forall f, f ∈ used -> sibling file f = true).
  { intros f Hf.
    assert (Hin : f ∈ List.filter (sibling file) (markdownFiles vault))
      by (eapply sublist_subseteq; eauto).
    apply list_elem_of_In, filter_In in Hin. tauto. }
  split.
  { etransitivity; [exact Hsub|]. clear.
    induction (markdownFiles vault) as [|f l IH]; [constructor|].
    cbn [List.filter]. destruct (sibling file f);
      [now apply sublist_skip | now apply sublist_cons]. }
  split.
  { apply Forall_forall. intros f Hf.
    pose proof (Hfilter f Hf) as Hs. unfold sibling in Hs.
    destruct (String.eqb (path f) (path file)) eqn:Hp; [discriminate|].
    apply String.eqb_neq in Hp. split; [exact Hp|].
    destruct (parent f) as [pf|]; [|discriminate].
    apply String.eqb_eq in Hs. subst pf. split; [reflexivity|].
    rewrite Forall_forall in Hread. now apply Hread. }
  split.
  { cbn [app] in Hcollect. unfold getFolderContext. rewrite Hon. cbn [negb].
    destruct (List.filter (sibling file) (markdownFiles vault)) as [|f0 fs] eqn:Hfs.
    - apply sublist_nil_r in Hsub. now subst used.
    - rewrite Hcollect. destruct used; reflexivity. }
  split.
  { intros Hne. rewrite len_concat.
    destruct used as [|f l]; [congruence|].
    cbn [map length total_len fold_right] in *.
    fold (total_len (map (entryOf vault) l)) in *.
    pose proof (total_len_nonneg (map (entryOf vault) l)).
    pose proof (nextEntry_not_empty f (default EmptyString (read vault f)))
      as Hpos.
    change (0 < Str.len (entryOf vault f)) in Hpos. lia. }
  split; [congruence|]. split; reflexivity.
Qed.

(** C6 as stated fails: the text returned can be longer than
    [folderContextMaxChars], because the header line is not counted. *)
Lemma folder_context_exceeds_character_limit :
  folderContextMaxChars Sample.tight = 20
  /\ Str.len (getFolderContext Sample.tight Sample.vault (Sample.note "a" "notes"))
     = 55.
Proof. split; vm_compute; reflexivity. Qed.

End FolderTheorem.

(** ** Ghost text *)

Section GhostTheorem.
Import Ghost.

(** C8.  With a non-empty ghost text at a position [p] inside the document,
    the Tab handler dispatches one transaction that inserts exactly that
    text at [p] and resets the ghost-text field to its empty value, and
    returns true (the clearer plugin has nothing left to clear after it);
    with an empty ghost text it returns false and dispatches nothing, so
    document and field stay as they are. *)
Theorem tab_accepts_ghost_text (mapPos : Change -> nat -> nat)
  (st : EditorState) :
  (text (ghost st) <> EmptyString ->
   (pos (ghost st) <= String.length (doc st))%nat ->
   acceptGhostText mapPos st
   = Some (true,
           {| doc := Str.slice_to (pos (ghost st)) (doc st)
                     +:+ text (ghost st)
                     +:+ Str.slice_from (pos (ghost st)) (doc st);
              ghost := {| text := EmptyString; pos := 0 |} |})
   /\ forall after,
        ghost after = {| text := EmptyString; pos := 0 |} ->
        ghostTextClearer
          {| changes := Some {| from := pos (ghost st); to := pos (ghost st);
                                insert := text (ghost st) |};
             effects := [clearGhostTextEffect];
             selectionSet := false |} after = false)
  /\ (text (ghost st) = EmptyString ->
      acceptGhostText mapPos st = Some (false, st)).
Proof.
  split.
  - intros Htext Hpos. split.
    + unfold acceptGhostText, dispatch, applyChange, update, docChanged.
      apply String.eqb_neq in Htext. rewrite Htext.
      cbn [changes from to insert effects fold_left applyEffect noGhost text].
      rewrite Nat.leb_refl. cbn [andb].
      apply Nat.leb_le in Hpos. rewrite Hpos.
      rewrite String.eqb_refl, andb_false_r. reflexivity.
    + intros after Hafter. unfold ghostTextClearer.
      cbn [effects existsb isSet orb]. rewrite Hafter. reflexivity.
  - intros Htext. unfold acceptGhostText. rewrite Htext. reflexivity.
Qed.

Lemma tab_accepts_ghost_text_witness :
  acceptGhostText Sample.keep Sample.suggesting
  = Some (true, {| doc := "Hello, dear world";
                   ghost := {| text := EmptyString; pos := 0 |} |}).
Proof.
  exact (proj1 (proj1 (tab_accepts_ghost_text Sample.keep Sample.suggesting)
                  ltac:(discriminate) ltac:(vm_compute; lia))).
Defined.

End GhostTheorem.

(** ** Inline autocomplete request ids *)

Section AutocompleteFacts.
Import Ghost Plugin.
Variable mapPos : Change -> nat -> nat.

Lemma counter_set_flags (a b : bool) (p : Plugin.Plugin) :
  inlineAutocompleteRequestId (set_flags a b p) = inlineAutocompleteRequestId p.
Proof. reflexivity. Qed.

Lemma counter_notify_unless (q : bool) (n : notice) (p : Plugin.Plugin) :
  inlineAutocompleteRequestId (notify_unless q n p)
  = inlineAutocompleteRequestId p.
Proof. destruct q; reflexivity. Qed.

(** An invocation that gets past its guards takes the next id and leaves
    the counter at it; one that does not leaves everything as it was. *)
Lemma begin_issues_next_id (settings : Settings) (basename : string)
  (quiet : bool) (p : Plugin.Plugin) (e : Editor) :
  match inlineAutocomplete_begin mapPos settings basename quiet p e with
  | (Some pd, p', _) =>
      requestId pd = inlineAutocompleteRequestId p + 1
      /\ inlineAutocompleteRequestId p' = requestId pd
      /\ inlineAutocompleteInFlight p = false
      /\ inlineAutocompleteInFlight p' = true
  | (None, p', e') => p' = p /\ e' = e
  end.
Proof.
  unfold inlineAutocomplete_begin.
  destruct (inlineAutocompleteInFlight p) eqn:Hfl; [now split|].
  destruct (somethingSelected e); [now split|].
  destruct (getLine e (line (cursor e))) as [lineText|]; [|now split].
  destruct (0 <? Str.len _); [now split|].
  destruct (Str.len _ <? 3); [now split|].
  cbn [requestId]. rewrite counter_set_flags, counter_notify_unless.
  cbn. auto.
Qed.

(** An invocation that no guard stops is suspended with the next id. *)
Lemma begin_past_the_guards (settings : Settings) (basename : string)
  (quiet : bool) (p : Plugin.Plugin) (e : Editor) (lineText : string) :
  inlineAutocompleteInFlight p = false ->
  somethingSelected e = false ->
  getLine e (line (cursor e)) = Some lineText ->
  Str.trim (Str.slice_from (ch (cursor e)) lineText) = EmptyString ->
  3 <= Str.len (Str.trim (Str.slice_to (ch (cursor e)) lineText)) ->
  exists pd p' e',
    inlineAutocomplete_begin mapPos settings basename quiet p e
    = (Some pd, p', e')
    /\ requestId pd = inlineAutocompleteRequestId p + 1
    /\ inlineAutocompleteRequestId p' = inlineAutocompleteRequestId p + 1
    /\ inlineAutocompleteInFlight p' = true
    /\ at_cursor pd = cursor e
    /\ linePrefix pd = Str.slice_to (ch (cursor e)) lineText.
Proof.
  intros Hidle Hsel Hline Hsuffix Hprefix.
  unfold inlineAutocomplete_begin. rewrite Hidle, Hsel, Hline, Hsuffix.
  change (0 <? Str.len EmptyString) with false. cbv iota.
  apply Z.ltb_ge in Hprefix. rewrite Hprefix.
  do 3 eexists. split; [reflexivity|].
  cbn [requestId at_cursor linePrefix].
  rewrite counter_set_flags, counter_notify_unless. cbn.
  repeat split.
Qed.

(** Resuming never changes the counter. *)
Lemma resume_keeps_counter (pd : Pending) (outcome : Client.res string)
  (p : Plugin.Plugin) (e : Editor) :
  inlineAutocompleteRequestId (fst (inlineAutocomplete_resume mapPos pd outcome p e))
  = inlineAutocompleteRequestId p.
Proof.
  unfold inlineAutocomplete_resume, failed, settle, setGhostText.
  destruct outcome as [completion|err];
    [|cbn [fst]; now rewrite counter_set_flags, counter_notify_unless].
  repeat match goal with
         | |- context [if ?b then _ else _] => destruct b
         | |- context [match ?o with Some _ => _ | None => _ end] => destruct o
         end;
    cbn [fst];
    repeat (rewrite ?counter_set_flags, ?counter_notify_unless);
    reflexivity.
Qed.

(** A resumed invocation whose id is no longer the counter's value leaves
    the editor alone, however the awaited call ended. *)
Lemma stale_resume_keeps_editor (pd : Pending) (outcome : Client.res string)
  (p : Plugin.Plugin) (e : Editor) :
  requestId pd <> inlineAutocompleteRequestId p ->
  snd (inlineAutocomplete_resume mapPos pd outcome p e) = e.
Proof.
  intros Hstale. unfold inlineAutocomplete_resume.
  destruct outcome as [completion|err]; [|reflexivity].
  apply Z.eqb_neq in Hstale. rewrite Hstale. reflexivity.
Qed.

Lemma step_counter (ev : event) (pe : Plugin.Plugin * Editor) :
  match step mapPos ev pe with
  | (Some id, pe') =>
      id = inlineAutocompleteRequestId (fst pe) + 1
      /\ inlineAutocompleteRequestId (fst pe') = id
  | (None, pe') =>
      inlineAutocompleteRequestId (fst pe') = inlineAutocompleteRequestId (fst pe)
  end.
Proof.
  destruct pe as [p e]. destruct ev as [settings basename quiet|pd outcome|e'];
    cbn [step fst].
  - pose proof (begin_issues_next_id settings basename quiet p e) as H.
    destruct (inlineAutocomplete_begin mapPos settings basename quiet p e)
      as [[[pd|] p'] e'']; cbn [fst].
    + tauto.
    + destruct H as [-> _]. reflexivity.
  - pose proof (resume_keeps_counter pd outcome p e) as H.
    destruct (inlineAutocomplete_resume mapPos pd outcome p e). exact H.
  - reflexivity.
Qed.

(** Along any sequence of events the ids issued go up strictly, starting
    above the counter's initial value. *)
Lemma issued_increasing (evs : list event) (pe : Plugin.Plugin * Editor) :
  StronglySorted Z.lt (issued mapPos evs pe)
  /\ Forall (fun id => inlineAutocompleteRequestId (fst pe) < id)
       (issued mapPos evs pe).
Proof.
  revert pe. induction evs as [|ev evs IH]; intros pe; cbn [issued].
  - split; constructor.
  - pose proof (step_counter ev pe) as Hstep.
    destruct (step mapPos ev pe) as [[id|] pe'].
    + destruct Hstep as [Hid Hnext]. destruct (IH pe') as [Hs Hf].
      rewrite Hnext in Hf. split.
      * constructor; assumption.
      * constructor; [lia|]. eapply Forall_impl; [exact Hf|].
        cbn. intros; lia.
    + destruct (IH pe') as [Hs Hf]. rewrite Hstep in Hf. now split.
Qed.

End AutocompleteFacts.

Section AutocompleteTheorem.
Import Ghost Plugin.

(** C3.  An invocation of [inlineAutocomplete] gets past its guards when
    no call is in flight, nothing is selected, the cursor is on a line of
    the document, nothing but white space follows it on that line and at
    least three characters other than surrounding white space precede it;
    it then takes as its request id the counter
    [inlineAutocompleteRequestId] incremented by one, and leaves the counter
    at that value, so that invocation issues exactly that id; an invocation
    stopped by a guard takes no id and changes nothing.  So along any
    sequence of invocations, resumptions and user edits the ids issued are
    strictly increasing.  When an invocation resumes after its streamed
    completion and its id is no longer the counter's value, the editor is
    exactly as it was: no ghost text is set and no text is inserted. *)
Theorem autocomplete_ids_increase_and_stale_results_are_dropped
  (mapPos : Change -> nat -> nat) (p : Plugin.Plugin) (e : Editor) :
  (forall settings basename quiet,
     match inlineAutocomplete_begin mapPos settings basename quiet p e with
     | (Some pd, p', _) =>
         requestId pd = inlineAutocompleteRequestId p + 1
         /\ inlineAutocompleteRequestId p' = requestId pd
     | (None, p', e') => p' = p /\ e' = e
     end)
  /\ (forall settings basename quiet lineText,
        inlineAutocompleteInFlight p = false ->
        somethingSelected e = false ->
        getLine e (line (cursor e)) = Some lineText ->
        Str.trim (Str.slice_from (ch (cursor e)) lineText) = EmptyString ->
        3 <= Str.len (Str.trim (Str.slice_to (ch (cursor e)) lineText)) ->
        exists pd p' e',
          inlineAutocomplete_begin mapPos settings basename quiet p e
          = (Some pd, p', e')
          /\ requestId pd = inlineAutocompleteRequestId p + 1
          /\ inlineAutocompleteRequestId p' = inlineAutocompleteRequestId p + 1
          /\ inlineAutocompleteInFlight p' = true
          /\ issued mapPos [Invoke settings basename quiet] (p, e)
             = [inlineAutocompleteRequestId p + 1])
  /\ (forall evs, StronglySorted Z.lt (issued mapPos evs (p, e)))
  /\ (forall pd outcome,
        requestId pd <> inlineAutocompleteRequestId p ->
        snd (inlineAutocomplete_resume mapPos pd outcome p e) = e).
Proof.
  split; [|split; [|split]].
  - intros settings basename quiet.
    pose proof (begin_issues_next_id mapPos settings basename quiet p e) as H.
    destruct (inlineAutocomplete_begin mapPos settings basename quiet p e)
      as [[[pd|] p'] e']; tauto.
  - intros settings basename quiet lineText Hidle Hsel Hline Hsuffix Hprefix.
    destruct (begin_past_the_guards mapPos settings basename quiet p e lineText
                Hidle Hsel Hline Hsuffix Hprefix)
      as (pd & p' & e' & Hb & Hid & Hcounter & Hbusy & _).
    exists pd, p', e'. split; [exact Hb|]. split; [exact Hid|].
    split; [exact Hcounter|]. split; [exact Hbusy|].
    cbn [issued step]. rewrite Hb. cbn [issued]. now rewrite Hid.
  - intros evs. apply issued_increasing.
  - intros pd outcome. apply stale_resume_keeps_editor.
Qed.

Lemma autocomplete_ids_increase_and_stale_results_are_dropped_witness :
  exists pd p' e',
    inlineAutocomplete_begin Sample.keep Sample.plugin_settings "note" true
      (Sample.idle 0) Sample.typing
    = (Some pd, p', e')
    /\ requestId pd = 1
    /\ inlineAutocompleteRequestId p' = 1
    /\ inlineAutocompleteInFlight p' = true
    /\ issued Sample.keep [Invoke Sample.plugin_settings "note" true]
         (Sample.idle 0, Sample.typing)
       = [1].
Proof.
  exact (proj1 (proj2 (autocomplete_ids_increase_and_stale_results_are_dropped
                         Sample.keep (Sample.idle 0) Sample.typing))
           Sample.plugin_settings "note" true "The quick brown"
           eq_refl eq_refl eq_refl eq_refl ltac:(vm_compute; discriminate)).
Defined.

End AutocompleteTheorem.

(** ** One chat generation at a time *)

Section ChatViewFacts.
Import Client ChatView.








End ChatViewFacts.

Section ChatViewTheorem.
Import Client ChatView.



End ChatViewTheorem.

(** ** The image store *)

Section ImageFacts.

Lemma length_slice_to (n : nat) (s : string) :
  (n <= String.length s)%nat -> String.length (Str.slice_to n s) = n.
Proof.
  revert s. induction n as [|n IH]; intros s H; [reflexivity|].
  destruct s as [|c s]; cbn in *; [lia|]. rewrite IH; lia.
Qed.

Lemma length_le_bytes (count : nat) (x : Z) :
  length (MD5.le_bytes count x) = count.
Proof.
  revert x. induction count as [|c IH]; intros x; cbn; [reflexivity|].
  now rewrite IH.
Qed.

Lemma length_hex (bytes : list Z) :
  String.length (MD5.hex bytes) = (2 * length bytes)%nat.
Proof. induction bytes as [|b l IH]; cbn; [reflexivity|]. rewrite IH. lia. Qed.

(** An MD5 digest is sixteen bytes, thirty-two hex characters. *)
Lemma length_hexdigest (s : string) : String.length (MD5.hexdigest s) = 32%nat.
Proof.
  unfold MD5.hexdigest, MD5.digest. rewrite length_hex.
  destruct (MD5.blocks _ _ _) as [[[a b] c] d].
  repeat rewrite length_app. repeat rewrite length_le_bytes. reflexivity.
Qed.

Lemma generateShortHash_length (prompt : string) :
  String.length (Image.generateShortHash prompt) = 8%nat.
Proof.
  unfold Image.generateShortHash. apply length_slice_to.
  rewrite length_hexdigest. lia.
Qed.

End ImageFacts.

Section ImageTheorem.
Import Client Image.

(** C7.  For every base64 payload and prompt, when the host names an
    attachment path for the generated file name and that path is free,
    [saveImageToVault] creates at that path a binary file holding the
    decoded bytes of the payload, and returns the embed link
    [![[<name>]]], where the name is [nanogpt-], the timestamp in decimal,
    a dash, the first eight hex characters of the MD5 of the prompt, and
    [.png]; nothing else in the vault changes. *)
Theorem saved_image_is_embedded_by_generated_name
  (base64 : string -> list ascii)
  (getAvailablePathForAttachment : gmap string (list ascii) -> string -> res string)
  (base64Data prompt : string) (timestamp : Z) (h : Host) (path : string) :
  getAvailablePathForAttachment (files h) (filename timestamp prompt) = Ok path ->
  files h !! path = None ->
  saveImageToVault base64 getAvailablePathForAttachment base64Data prompt
    timestamp h
  = (Ok ("![[" +:+ filename timestamp prompt +:+ "]]"),
     {| files := <[path := base64 base64Data]> (files h);
        notices := notices h ++ ["Image saved to: " +:+ path] |})
  /\ filename timestamp prompt
     = "nanogpt-" +:+ Str.of_Z timestamp +:+ "-"
       +:+ Str.slice_to 8 (MD5.hexdigest prompt) +:+ ".png"
  /\ String.length (Str.slice_to 8 (MD5.hexdigest prompt)) = 8%nat.
Proof.
  intros Hpath Hfree. split; [|split].
  - unfold saveImageToVault, createBinary. rewrite Hpath, Hfree. reflexivity.
  - reflexivity.
  - apply generateShortHash_length.
Qed.

Lemma saved_image_is_embedded_by_generated_name_witness :
  saveImageToVault Sample.base64 Sample.attachments "aGk=" "cat"
    1700000000000 Sample.empty_vault
  = (Ok "![[nanogpt-1700000000000-d077f244.png]]",
     {| files := {["attachments/nanogpt-1700000000000-d077f244.png" :=
                     ["h"; "i"]%char]};
        notices :=
          ["Image saved to: attachments/nanogpt-1700000000000-d077f244.png"] |}).
Proof.
  exact (proj1 (saved_image_is_embedded_by_generated_name Sample.base64
                  Sample.attachments "aGk=" "cat" 1700000000000
                  Sample.empty_vault
                  "attachments/nanogpt-1700000000000-d077f244.png"
                  eq_refl eq_refl)).
Defined.

End ImageTheorem.

(* ===================================================================== *)
(** * Further properties *)
(* ===================================================================== *)

(** ** More on the stream consumer *)

Section LineFacts.
Import JS Net Client.

Lemma split_single_cons (c : ascii) (s : string) :
  Str.split Str.nl (String c s) = [String c s] ->
  Ascii.eqb c Str.nl = false /\ Str.split Str.nl s = [s].
Proof.
  cbn [Str.split]. destruct (Ascii.eqb c Str.nl); [discriminate|].
  destruct (Str.split Str.nl s) as [|l ls] eqn:Hs.
  - exfalso. eapply split_not_nil; eauto.
  - intros [= -> ->]. auto.
Qed.

(** Two pieces without a newline join into one piece without a newline. *)
Lemma split_single_append (a b : string) :
  Str.split Str.nl a = [a] -> Str.split Str.nl b = [b] ->
  Str.split Str.nl (a +:+ b) = [a +:+ b].
Proof.
  intros Ha Hb. induction a as [|c a IH]; [exact Hb|].
  apply split_single_cons in Ha as [Hc Ha].
  change (String c a +:+ b) with (String c (a +:+ b)).
  cbn [Str.split]. rewrite Hc, (IH Ha). reflexivity.
Qed.

Lemma removelast_snoc {A} (l : list A) (x : A) : List.removelast (l ++ [x]) = l.
Proof. rewrite removelast_app_ne by discriminate. cbn. apply app_nil_r. Qed.

Lemma concat_snoc (l : list string) (s : string) :
  Str.concat (l ++ [s]) = Str.concat l +:+ s.
Proof.
  induction l as [|x l IH]; cbn [app Str.concat fold_right].
  - apply append_empty.
  - fold (Str.concat (l ++ [s])) (Str.concat l). now rewrite IH, append_assoc.
Qed.

(** A newline at the end closes the last line and opens an empty one. *)
Lemma split_newline_end (a : string) :
  Str.split Str.nl (a +:+ String Str.nl EmptyString)
  = Str.split Str.nl a ++ [EmptyString].
Proof.
  induction a as [|c a IH]; [reflexivity|].
  change (String c a +:+ String Str.nl EmptyString)
    with (String c (a +:+ String Str.nl EmptyString)).
  cbn [Str.split]. rewrite IH.
  destruct (Ascii.eqb c Str.nl); [reflexivity|].
  destruct (Str.split Str.nl a) as [|l ls] eqn:Hs; [|reflexivity].
  exfalso. eapply split_not_nil; eauto.
Qed.

Lemma complete_lines_newline (a b : string) :
  complete_lines (a +:+ String Str.nl EmptyString +:+ b)
  = Str.split Str.nl a ++ complete_lines b.
Proof.
  unfold complete_lines. rewrite <- append_assoc, split_append, split_newline_end.
  rewrite removelast_snoc.
  replace (List.last (Str.split Str.nl a ++ [EmptyString]) EmptyString)
    with EmptyString by (now rewrite List.last_last).
  change (EmptyString +:+ b) with b.
  rewrite removelast_app_ne by apply split_not_nil. reflexivity.
Qed.

End LineFacts.

Section StreamExtras.
Import JS Net Client.

(** X1.  Text that arrives last and holds no newline never reaches the
    callback: the loop ends with it still in the buffer. *)
Theorem unterminated_tail_is_never_delivered {S : Type}
  (parse : string -> option value) (onChunk : value -> S -> S)
  (chunks : list string) (tail : string) (st : S) :
  Str.split Str.nl tail = [tail] ->
  read_loop parse onChunk (chunks ++ [tail]) EmptyString st
  = read_loop parse onChunk chunks EmptyString st.
Proof.
  intros Htail.
  rewrite !read_loop_lines by reflexivity.
  change (EmptyString +:+ Str.concat (chunks ++ [tail]))
    with (Str.concat (chunks ++ [tail])).
  change (EmptyString +:+ Str.concat chunks) with (Str.concat chunks).
  rewrite concat_snoc. unfold complete_lines.
  rewrite split_append.
  rewrite (split_single_append _ tail (split_last Str.nl _) Htail).
  now rewrite removelast_snoc.
Qed.

Lemma unterminated_tail_is_never_delivered_witness :
  read_loop JSON.parse Sample.record
    ([Sample.data_line "Hel" +:+ Sample.NL] ++ [Sample.data_line "lo"])
    EmptyString []
  = [VStr "Hel"].
Proof.
  exact (unterminated_tail_is_never_delivered JSON.parse Sample.record
           [Sample.data_line "Hel" +:+ Sample.NL] (Sample.data_line "lo") []
           eq_refl).
Defined.

(** X2.  The contents delivered for a text are those of its part up to any
    newline followed by those of the part after it; in particular the
    sentinel line ends nothing: what follows it is delivered as usual. *)
Theorem deliveries_go_line_by_line (parse : string -> option value)
  (a b : string) :
  deliveries parse (a +:+ String Str.nl EmptyString +:+ b)
  = deliveries parse (a +:+ String Str.nl EmptyString) ++ deliveries parse b
  /\ deliveries parse ("data: [DONE]" +:+ String Str.nl EmptyString +:+ b)
     = deliveries parse b.
Proof.
  assert (Hgen : forall x y,
            deliveries parse (x +:+ String Str.nl EmptyString +:+ y)
            = omap (sse_line parse) (Str.split Str.nl x) ++ deliveries parse y).
  { intros x y. unfold deliveries. rewrite complete_lines_newline.
    apply omap_app. }
  split.
  - rewrite Hgen.
    replace (a +:+ String Str.nl EmptyString)
      with (a +:+ String Str.nl EmptyString +:+ EmptyString)
      by (now rewrite append_empty).
    rewrite (Hgen a EmptyString). cbn. now rewrite app_nil_r.
  - rewrite Hgen. reflexivity.
Qed.

End StreamExtras.

(** ** Errors of the authenticated fetch *)

Section FetchErrors.
Import JS Net Client.

(** X3.  When the service answers with a status that is not OK,
    [streamChatCompletion] throws the error that names the status and the
    response text, or, when the stream of that text breaks before its end,
    the TypeError of the failed read; when the answer is OK but has no body
    it throws 'No response body'.  In each case the request did go out, and
    the callback was never run. *)
Theorem stream_fails_before_any_callback {S : Type}
  (parse : string -> option value) (onChunk : value -> S -> S)
  (messages : value) (model : string) (temperature maxTokens : value) (st : S)
  (c : Client) (w : World) (reply : Reply) (rest : list Reply)
  (response : Response) :
  String.eqb (apiKey c) EmptyString = false ->
  replies w = reply :: rest ->
  result reply = Answered response ->
  ok response = false \/ stream response = None ->
  streamChatCompletion parse onChunk messages model temperature maxTokens st c w
  = (Throw (if ok response then Error "No response body"
            else match text response with
                 | Some error =>
                     Error ("NanoGPT API error: " +:+ Str.of_Z (status response)
                            +:+ " - " +:+ error)
                 | None => TypeError
                 end),
     st, c,
     {| clock := clock w + elapsed reply;
        sent := sent w ++
                [{| url := baseUrl c +:+ "/chat/completions";
                    method := Some "POST";
                    body := Some (completionRequest messages model temperature
                                    maxTokens);
                    bearer := apiKey c |}];
        replies := rest |}).
Proof.
  intros Hkey Hrep Hres Hbad.
  unfold streamChatCompletion, fetchWithAuth, bind, self, fetch, ret, throw,
    or_throw.
  rewrite Hkey, Hrep, Hres.
  destruct (ok response) eqn:Hok; cbn [negb];
    [|destruct (text response); reflexivity].
  destruct Hbad as [Hbad|Hbad]; [discriminate|]. now rewrite Hbad.
Qed.

Lemma stream_fails_before_any_callback_witness :
  streamChatCompletion JSON.parse Sample.record (VArr []) "gpt-4o" VUndefined
    VUndefined [] (Sample.client "key")
    (Sample.world 0 [Sample.answer 40 false 429 ["slow"; " down"]])
  = (Throw (Error "NanoGPT API error: 429 - slow down"), [],
     Sample.client "key",
     {| clock := 40;
        sent := [{| url := "https://nano-gpt.com/api/v1/chat/completions";
                    method := Some "POST";
                    body := Some (completionRequest (VArr []) "gpt-4o"
                                    VUndefined VUndefined);
                    bearer := "key" |}];
        replies := [] |}).
Proof.
  exact (stream_fails_before_any_callback JSON.parse Sample.record (VArr [])
           "gpt-4o" VUndefined VUndefined [] (Sample.client "key")
           (Sample.world 0 [Sample.answer 40 false 429 ["slow"; " down"]])
           (Sample.answer 40 false 429 ["slow"; " down"]) [] _
           eq_refl eq_refl eq_refl (or_introl eq_refl)).
Defined.

End FetchErrors.

(** ** One request per call, never without a key *)

Section WireFacts.
Import JS Net Client Wire.
Variable parse : string -> option value.

Lemma fetchWithAuth_wire (u : string) (m : option string) (b : option value)
  (c : Client) (w : World) :
  one_keyed_request c w (snd (fetchWithAuth u m b c w)).
Proof.
  unfold fetchWithAuth, bind, self, fetch, throw, ret, or_throw,
    one_keyed_request.
  destruct (String.eqb (apiKey c) EmptyString) eqn:Hkey; [now left|].
  apply String.eqb_neq in Hkey. right.
  destruct (replies w) as [|r rs]; [cbn; eauto|].
  destruct (result r) as [|resp]; [cbn; eauto|].
  destruct (ok resp); cbn; [eauto|].
  destruct (text resp); cbn; eauto.
Qed.

(** What follows the fetch inside a method reads the reply and the clock
    and writes the client's fields; the world stays as the fetch left it. *)
Ltac after_fetch :=
  unfold try_catch, json, prop, or_throw, storeModels, storeImageModels, now,
    self, bind, ret, throw;
  cbv beta;
  match goal with
  | |- context [fetchWithAuth ?u ?m ?b ?c ?w] =>
      pose proof (fetchWithAuth_wire u m b c w);
      destruct (fetchWithAuth u m b c w) as [[[?|?] ?] ?];
      cbn [fst snd] in *
  end;
  repeat match goal with
         | |- context [match ?o with Some _ => _ | None => _ end] =>
             destruct o; cbn [fst snd]
         end;
  try assumption.

Lemma generateImage_wire (request : list (string * value)) (c : Client)
  (w : World) :
  one_keyed_request c w (snd (generateImage parse request c w)).
Proof. unfold generateImage. after_fetch. Qed.

Lemma webSearch_wire (request : list (string * value)) (c : Client)
  (w : World) :
  one_keyed_request c w (snd (webSearch parse request c w)).
Proof. unfold webSearch. after_fetch. Qed.

Lemma scrapeUrls_wire (request : value) (c : Client) (w : World) :
  one_keyed_request c w (snd (scrapeUrls parse request c w)).
Proof. unfold scrapeUrls. after_fetch. Qed.

Lemma checkBalance_wire (c : Client) (w : World) :
  one_keyed_request c w (snd (checkBalance parse c w)).
Proof. unfold checkBalance. after_fetch. Qed.

Lemma fetchModels_wire (subscriptionOnly : bool) (c : Client) (w : World) :
  one_keyed_request c w (snd (fetchModels parse subscriptionOnly c w)).
Proof. unfold fetchModels. after_fetch. Qed.

Lemma fetchImageModels_wire (c : Client) (w : World) :
  one_keyed_request c w (snd (fetchImageModels parse c w)).
Proof. unfold fetchImageModels. after_fetch. Qed.

Lemma listModels_wire (subscriptionOnly : bool) (c : Client) (w : World) :
  one_keyed_request c w (snd (listModels parse subscriptionOnly c w)).
Proof.
  unfold listModels, bind at 1, self.
  destruct (modelCache c !! cacheKey subscriptionOnly) as [cached|];
    [|apply fetchModels_wire].
  unfold bind, now, ret.
  destruct (_ <? _); [now left | apply fetchModels_wire].
Qed.

Lemma listImageModels_wire (c : Client) (w : World) :
  one_keyed_request c w (snd (listImageModels parse c w)).
Proof.
  unfold listImageModels, bind at 1, self.
  destruct (imageModelCache c) as [cached|]; [|apply fetchImageModels_wire].
  unfold bind, now, ret.
  destruct (_ <? _); [now left | apply fetchImageModels_wire].
Qed.

End WireFacts.

Section WireTheorem.
Import JS Net Client Wire.

(** X4.  Whatever the cache, the key and the network do, one call of a
    client method sends at most one request, and a request that is sent
    carries the client's API key, which is then not empty: nothing goes out
    without a key. *)
Theorem every_call_sends_at_most_one_keyed_request {S : Type}
  (parse : string -> option value) (onChunk : value -> S -> S) (st : S)
  (c : Client) (w : World) :
  (forall messages model temperature maxTokens,
     one_keyed_request c w
       (snd (streamChatCompletion parse onChunk messages model temperature
               maxTokens st c w)))
  /\ (forall request, one_keyed_request c w (snd (generateImage parse request c w)))
  /\ (forall request, one_keyed_request c w (snd (webSearch parse request c w)))
  /\ (forall request, one_keyed_request c w (snd (scrapeUrls parse request c w)))
  /\ one_keyed_request c w (snd (checkBalance parse c w))
  /\ (forall subscriptionOnly,
        one_keyed_request c w (snd (listModels parse subscriptionOnly c w)))
  /\ one_keyed_request c w (snd (listImageModels parse c w)).
Proof.
  split; [|split; [|split; [|split; [|split; [|split]]]]].
  - intros messages model temperature maxTokens. unfold streamChatCompletion.
    match goal with
    | |- context [fetchWithAuth ?u ?m ?b c w] =>
        pose proof (fetchWithAuth_wire u m b c w) as H;
        destruct (fetchWithAuth u m b c w) as [[[response|e] c'] w']
    end; cbn [snd] in *; [|exact H].
    destruct (stream response) as [b|]; [|exact H].
    destruct (broken b); exact H.
  - intros. apply generateImage_wire.
  - intros. apply webSearch_wire.
  - intros. apply scrapeUrls_wire.
  - apply checkBalance_wire.
  - intros. apply listModels_wire.
  - apply listImageModels_wire.
Qed.

End WireTheorem.

(** ** The image-model listing *)

Section ImageListing.
Import JS Net Client.
Variable parse : string -> option value.

Lemma listImageModels_hit (c : Client) (w : World) (cached : Entry) :
  imageModelCache c = Some cached ->
  clock w - timestamp cached < CACHE_DURATION ->
  listImageModels parse c w = (Ok (models cached), c, w).
Proof.
  intros Hc Hfresh. unfold listImageModels, bind, self, now, ret.
  rewrite Hc. apply Z.ltb_lt in Hfresh. rewrite Hfresh. reflexivity.
Qed.

Lemma fetchImageModels_stores (c : Client) (w : World) (reply : Reply)
  (rest : list Reply) (response : Response) (raw : string) (data m d : value)
  (collected : list value) :
  String.eqb (apiKey c) EmptyString = false ->
  replies w = reply :: rest ->
  result reply = Answered response ->
  ok response = true ->
  text response = Some raw ->
  parse raw = Some data ->
  get data "models" = Some m ->
  get data "data" = Some d ->
  collectImageModels
    (or_else (opt_get m "image") (or_else m (or_else d (VArr []))))
  = Some collected ->
  fetchImageModels parse c w =
  (Ok (VArr collected),
   {| apiKey := apiKey c; baseUrl := baseUrl c;
      modelCache := modelCache c;
      imageModelCache := Some {| models := VArr collected;
                                 timestamp := clock w + elapsed reply |} |},
   {| clock := clock w + elapsed reply;
      sent := sent w ++
              [{| url := "https://nano-gpt.com/api/models/image";
                  method := None; body := None; bearer := apiKey c |}];
      replies := rest |}).
Proof.
  intros Hkey Hrep Hres Hok Hraw Hparse Hm Hd Hcol.
  unfold fetchImageModels, try_catch, fetchWithAuth, json, prop, or_throw,
    storeImageModels, bind, self, fetch, now, ret, throw.
  rewrite Hkey, Hrep, Hres, Hok. cbn [negb]. rewrite Hraw, Hparse, Hm, Hd, Hcol.
  reflexivity.
Qed.

End ImageListing.

Section ImageListingTheorem.
Import JS Net Client.

(** X5.  [listImageModels] keeps its own single cache entry: an entry less
    than [CACHE_DURATION] old is returned with nothing sent; otherwise, when
    the fetch from the fixed image-models address is answered, the body of
    the answer reads to its end and yields models, they are stored with the
    time read after the reply and returned, the chat-model cache is left
    alone, and a call within the duration after that serves the same models
    without a request.  When the body's stream breaks before its end nothing
    is stored: the call returns the built-in list and leaves the client as
    it was. *)
Theorem listImageModels_serves_fresh_cache_else_fetches
  (parse : string -> option value) (c : Client) (w : World) :
  (forall cached,
     imageModelCache c = Some cached ->
     clock w - timestamp cached < CACHE_DURATION ->
     listImageModels parse c w = (Ok (models cached), c, w))
  /\ (forall reply rest response raw data m d collected,
        (forall cached, imageModelCache c = Some cached ->
                        CACHE_DURATION <= clock w - timestamp cached) ->
        String.eqb (apiKey c) EmptyString = false ->
        replies w = reply :: rest ->
        result reply = Answered response ->
        ok response = true ->
        text response = Some raw ->
        parse raw = Some data ->
        get data "models" = Some m ->
        get data "data" = Some d ->
        collectImageModels
          (or_else (opt_get m "image") (or_else m (or_else d (VArr []))))
        = Some collected ->
        exists c1 w1,
          listImageModels parse c w = (Ok (VArr collected), c1, w1)
          /\ imageModelCache c1
             = Some {| models := VArr collected;
                       timestamp := clock w + elapsed reply |}
          /\ modelCache c1 = modelCache c
          /\ sent w1
             = sent w ++
               [{| url := "https://nano-gpt.com/api/models/image";
                   method := None; body := None; bearer := apiKey c |}]
          /\ (forall w2,
                clock w2 - (clock w + elapsed reply) < CACHE_DURATION ->
                listImageModels parse c1 w2 = (Ok (VArr collected), c1, w2)))
  /\ (forall reply rest response,
        (forall cached, imageModelCache c = Some cached ->
                        CACHE_DURATION <= clock w - timestamp cached) ->
        String.eqb (apiKey c) EmptyString = false ->
        replies w = reply :: rest ->
        result reply = Answered response ->
        ok response = true ->
        text response = None ->
        exists w1,
          listImageModels parse c w = (Ok fallbackImageModels, c, w1)).
Proof.
  split; [|split].
  - intros cached Hc Hfresh. now apply listImageModels_hit.
  - intros reply rest response raw data m d collected Hstale Hkey Hrep Hres
      Hok Hraw Hparse Hm Hd Hcol.
    rewrite listImageModels_miss by exact Hstale.
    rewrite (fetchImageModels_stores parse c w reply rest response raw data
               m d collected) by assumption.
    eexists _, _. split; [reflexivity|].
    cbn [imageModelCache modelCache sent].
    split; [reflexivity|]. split; [reflexivity|]. split; [reflexivity|].
    intros w2 Hfresh.
    now apply (listImageModels_hit parse _ w2
                 {| models := VArr collected;
                    timestamp := clock w + elapsed reply |}).
  - intros reply rest response Hstale Hkey Hrep Hres Hok Hraw.
    rewrite listImageModels_miss by exact Hstale.
    unfold fetchImageModels, try_catch, fetchWithAuth, json, prop, or_throw,
      storeImageModels, bind, self, fetch, now, ret, throw.
    rewrite Hkey, Hrep, Hres, Hok. cbn [negb]. rewrite Hraw.
    eexists. reflexivity.
Qed.

Lemma listImageModels_serves_fresh_cache_else_fetches_witness :
  exists c1 w1,
    listImageModels JSON.parse (Sample.client "key")
      (Sample.world 1000 [Sample.answer 40 true 200 [Sample.image_models_json]])
    = (Ok (VArr [Sample.flux]), c1, w1)
    /\ listImageModels JSON.parse c1 (Sample.world 301039 [])
       = (Ok (VArr [Sample.flux]), c1, Sample.world 301039 []).
Proof.
  destruct (proj1 (proj2 (listImageModels_serves_fresh_cache_else_fetches
                     JSON.parse (Sample.client "key")
                     (Sample.world 1000
                        [Sample.answer 40 true 200 [Sample.image_models_json]])))
              (Sample.answer 40 true 200 [Sample.image_models_json]) [] _
              Sample.image_models_json
              (VObj [("models",
                      VObj [("image",
                             VObj [("flux", VObj [("name", VStr "Flux")])])])])
              (VObj [("image", VObj [("flux", VObj [("name", VStr "Flux")])])])
              VUndefined [Sample.flux]
              (fun cached H =>
                 match eq_ind None (fun o => match o with
                                             | None => True
                                             | Some _ => False
                                             end) I _ H
                 with end)
              eq_refl eq_refl eq_refl eq_refl eq_refl eq_refl eq_refl eq_refl
              eq_refl)
    as (c1 & w1 & H1 & _ & _ & _ & H5).
  exists c1, w1. split; [exact H1|]. apply H5. reflexivity.
Defined.


End ImageListingTheorem.

(** ** Settings, endpoints and search options *)

Section SettingsTheorem.
Import JS Net Client PluginSettings.

(** X7.  Once the host has saved the settings, [saveSettings] gives the
    client the new key and base URL and empties both caches, so the next
    listing of either kind takes the fetch path whatever the clock says;
    when the host's save fails the client is not touched.  [setBaseUrl] on
    its own keeps the caches: a young entry fetched from the old address
    is still served. *)
Theorem saved_settings_reach_the_client (parse : string -> option value)
  (key url : string) (c : Client) (w : World) :
  saveSettings (Ok tt) key url c w
  = (Ok tt, {| apiKey := key; baseUrl := url;
               modelCache := ∅; imageModelCache := None |}, w)
  /\ (forall subscriptionOnly w2,
        listModels parse subscriptionOnly
          (snd (fst (saveSettings (Ok tt) key url c w))) w2
        = fetchModels parse subscriptionOnly
            (snd (fst (saveSettings (Ok tt) key url c w))) w2)
  /\ (forall w2,
        listImageModels parse (snd (fst (saveSettings (Ok tt) key url c w))) w2
        = fetchImageModels parse
            (snd (fst (saveSettings (Ok tt) key url c w))) w2)
  /\ (forall e, saveSettings (Throw e) key url c w = (Throw e, c, w))
  /\ (forall subscriptionOnly cached w2,
        modelCache c !! cacheKey subscriptionOnly = Some cached ->
        clock w2 - timestamp cached < CACHE_DURATION ->
        listModels parse subscriptionOnly (snd (fst (setBaseUrl url c w))) w2
        = (Ok (models cached), snd (fst (setBaseUrl url c w)), w2)).
Proof.
  split; [reflexivity|]. split; [|split; [|split]].
  - intros subscriptionOnly w2. apply listModels_miss.
    cbn. intros cached H. rewrite lookup_empty in H. discriminate.
  - intros w2. apply listImageModels_miss. cbn. discriminate.
  - reflexivity.
  - intros subscriptionOnly cached w2 Hc Hfresh.
    now apply listModels_hit.
Qed.

End SettingsTheorem.

Section EndpointFacts.

Lemma prefix_append (p b : string) : String.prefix p (p +:+ b) = true.
Proof.
  induction p as [|c p IH]; [now destruct b|].
  change (String c p +:+ b) with (String c (p +:+ b)). cbn [String.prefix].
  destruct (ascii_dec c c); [exact IH | congruence].
Qed.

Lemma indexOf_aux_found (p a b : string) (fuel i : nat) :
  (String.length a <= fuel)%nat ->
  exists j, Str.indexOf_aux fuel p (a +:+ p +:+ b) i = Some j.
Proof.
  revert fuel i. induction a as [|c a IH]; intros fuel i Hfuel.
  - change (EmptyString +:+ p +:+ b) with (p +:+ b).
    destruct fuel; cbn [Str.indexOf_aux]; rewrite prefix_append; eauto.
  - change (String c a +:+ p +:+ b) with (String c (a +:+ p +:+ b)).
    destruct fuel as [|fuel]; [cbn in Hfuel; lia|].
    cbn [Str.indexOf_aux].
    destruct (String.prefix p (String c (a +:+ p +:+ b))); [eauto|].
    apply IH. cbn in Hfuel. lia.
Qed.

(** A string includes what was put in the middle of it. *)
Lemma includes_middle (p a b : string) : Str.includes p (a +:+ p +:+ b) = true.
Proof.
  unfold Str.includes, Str.indexOf.
  destruct (indexOf_aux_found p a b (String.length (a +:+ p +:+ b)) 0) as [j ->];
    [|reflexivity].
  rewrite length_append. lia.
Qed.

End EndpointFacts.

Section EndpointTheorem.
Import Client.


End EndpointTheorem.

Section SearchOptions.
Import JS Net Client.

(** X9.  A web search whose [options] setting is a string that is blank
    or does not parse as JSON is sent all the same, with no options: it
    runs exactly as if [options] had been left undefined. *)
Theorem web_search_drops_unusable_options (parse : string -> option value)
  (request : list (string * value)) (o : string) (c : Client) (w : World) :
  lookup_own "options" request = Some (VStr o) ->
  Str.trim o = EmptyString \/ parse o = None ->
  webSearch parse request c w
  = webSearch parse (("options", VUndefined) :: request) c w.
Proof.
  intros Hopt Hbad. unfold webSearch, field.
  cbn [lookup_own String.eqb Ascii.eqb Bool.eqb from_option].
  rewrite Hopt. cbn [from_option truthy andb].
  replace (if 0 <? Str.len (Str.trim o) then from_option (parse o)
           else VUndefined) with VUndefined; [reflexivity|].
  destruct Hbad as [H|H]; rewrite H; [reflexivity|].
  now destruct (0 <? _).
Qed.

Lemma web_search_drops_unusable_options_witness :
  webSearch JSON.parse
    [("query", VStr "rocq"); ("options", VStr "{not json")]
    (Sample.client "key") (Sample.world 0 [])
  = webSearch JSON.parse
      [("options", VUndefined); ("query", VStr "rocq");
       ("options", VStr "{not json")]
      (Sample.client "key") (Sample.world 0 []).
Proof.
  exact (web_search_drops_unusable_options JSON.parse
           [("query", VStr "rocq"); ("options", VStr "{not json")]
           "{not json" (Sample.client "key") (Sample.world 0 [])
           eq_refl (or_intror eq_refl)).
Defined.

End SearchOptions.

(** ** More on the chat history store *)

Section HistoryExtras.
Import History.

Lemma well_formed_append (arrayAnswers : list ChatMessage -> string -> bool)
  (path : string) (m : ChatMessage) (st : State) :
  well_formed st -> well_formed (snd (appendMessage arrayAnswers path m st)).
Proof. intros H. exact (well_formed_step arrayAnswers (Append path m) st H I). Qed.

Lemma plain_append (arrayAnswers : list ChatMessage -> string -> bool)
  (path : string) (m : ChatMessage) (st : State) :
  String.eqb path "__proto__" = false ->
  plain st -> plain (snd (appendMessage arrayAnswers path m st)).
Proof.
  intros Hp Hplain. unfold plain.
  pose proof (step_keeps_proto arrayAnswers (Append path m) st Hp) as H.
  cbn [step] in H. now rewrite H.
Qed.

Lemma disk_after_save (path : string) (r : nat) (st : State) :
  disk (saveChatHistory path r st)
  = Some (deref (heap (saveChatHistory path r st))
            <$> slots (saveChatHistory path r st)).
Proof.
  unfold slots.
  rewrite (ensureLoaded_id (saveChatHistory path r st)) by apply save_loaded.
  reflexivity.
Qed.

(** X10.  On a path that is not the name of a member of [Object.prototype],
    in a store whose object still has [Object.prototype] as its prototype:
    what is handed to the host's save after an append is the whole history
    as it then is, under the note's path the messages it had before
    followed by the new one, and under every other path what the store
    holds for it; after a clear the note's saved entry is the empty
    list. *)
Theorem appended_message_is_in_what_is_saved
  (arrayAnswers : list ChatMessage -> string -> bool)
  (path : string) (m : ChatMessage) (st : State) :
  well_formed st -> plain st -> objectMember path = false ->
  exists before saved,
    read arrayAnswers path st = Some before
    /\ disk (snd (appendMessage arrayAnswers path m st)) = Some saved
    /\ saved !! path = Some (before ++ [m])
    /\ (forall other,
          saved !! other
          = entry other (snd (appendMessage arrayAnswers path m st)))
    /\ exists cleared,
         disk (clearChatHistory path st) = Some cleared
         /\ cleared !! path = Some [].
Proof.
  intros Hwf Hplain Hm. pose proof (not_member_not_proto path Hm) as Hp.
  assert (Hstored : forall p s x,
            entry p s = Some x -> read arrayAnswers p s = Some x).
  { intros p s x. unfold entry.
    destruct (slots s !! p) as [r|] eqn:Hr; [|discriminate].
    intros [= <-]. now apply read_stored. }
  destruct (read_after_append arrayAnswers path m st Hwf Hplain Hm)
    as (before & Hbefore & _ & Hafter).
  assert (Hda : exists r st1,
            snd (appendMessage arrayAnswers path m st)
            = saveChatHistory path r st1).
  { unfold appendMessage, loadChatHistory.
    rewrite get_plain by assumption.
    destruct (own (history (ensureLoaded st)) !! path);
      cbn [alloc_empty snd]; eauto. }
  destruct Hda as (r & st1 & Hda).
  exists before. eexists. split; [exact Hbefore|].
  split; [rewrite Hda; apply disk_after_save|].
  rewrite <- Hda. split; [|split].
  - rewrite lookup_fmap. fold (entry path (snd (appendMessage arrayAnswers path m st))).
    destruct (entry path (snd (appendMessage arrayAnswers path m st)))
      as [x|] eqn:Hx.
    + apply Hstored in Hx. congruence.
    + exfalso. unfold entry in Hx. rewrite Hda in Hx.
      rewrite slots_after_save, lookup_insert_eq in Hx by exact Hp.
      discriminate.
  - intros other. now rewrite lookup_fmap.
  - eexists. split; [unfold clearChatHistory; cbn [alloc_empty];
                     apply disk_after_save|].
    rewrite lookup_fmap.
    change (entry path (clearChatHistory path st) = Some []).
    destruct (entry path (clearChatHistory path st)) as [x|] eqn:Hx.
    + apply Hstored in Hx.
      rewrite read_after_clear in Hx by exact Hp. congruence.
    + exfalso. unfold entry, clearChatHistory in Hx. cbn [alloc_empty] in Hx.
      rewrite slots_after_save, lookup_insert_eq in Hx by exact Hp.
      discriminate.
Qed.

Lemma appended_message_is_in_what_is_saved_witness :
  exists before saved,
    read Sample.arrays "a.md" Sample.shared = Some before
    /\ disk (snd (appendMessage Sample.arrays "a.md" Sample.welcome
                    Sample.shared))
       = Some saved
    /\ saved !! "a.md" = Some (before ++ [Sample.welcome]).
Proof.
  assert (Hwf : well_formed Sample.shared).
  { unfold well_formed, table_valid, refs_valid.
    repeat split; try (apply (bool_decide_unpack _)); vm_compute; exact I. }
  destruct (appended_message_is_in_what_is_saved Sample.arrays "a.md"
              Sample.welcome Sample.shared Hwf eq_refl eq_refl)
    as (before & saved & H0 & H1 & H2 & _).
  exists before, saved. split; [exact H0|]. split; [exact H1 | exact H2].
Defined.

(** X11.  On a path that is not the name of a member of
    [Object.prototype], in a store whose object still has
    [Object.prototype] as its prototype: appending messages one after the
    other makes the note load as its previous messages followed by all of
    them, in the order given. *)
Theorem appends_accumulate_in_order
  (arrayAnswers : list ChatMessage -> string -> bool)
  (path : string) (ms : list ChatMessage) (st : State) :
  well_formed st -> plain st -> objectMember path = false ->
  exists before,
    read arrayAnswers path st = Some before
    /\ read arrayAnswers path
         (fold_left (fun s m => snd (appendMessage arrayAnswers path m s)) ms st)
       = Some (before ++ ms).
Proof.
  intros Hwf Hplain Hm. pose proof (not_member_not_proto path Hm) as Hp.
  revert st Hwf Hplain. induction ms as [|m ms IH]; intros st Hwf Hplain.
  - destruct (read_after_append arrayAnswers path
                {| role := EmptyString; content := EmptyString;
                   timestamp := None; model := None |} st Hwf Hplain Hm)
      as (before & Hb & _).
    exists before. cbn [fold_left]. now rewrite app_nil_r.
  - destruct (read_after_append arrayAnswers path m st Hwf Hplain Hm)
      as (before & Hb & _ & Ha).
    destruct (IH (snd (appendMessage arrayAnswers path m st)))
      as (before' & Hb' & Hrest).
    + now apply well_formed_append.
    + now apply plain_append.
    + exists before. split; [exact Hb|]. cbn [fold_left]. rewrite Hrest.
      rewrite Ha in Hb'. injection Hb' as <-. now rewrite <- app_assoc.
Qed.

Lemma appends_accumulate_in_order_witness :
  exists before,
    read Sample.arrays "c.md" Sample.shared = Some before
    /\ read Sample.arrays "c.md"
         (fold_left (fun s m => snd (appendMessage Sample.arrays "c.md" m s))
            [Sample.hello; Sample.welcome] Sample.shared)
       = Some (before ++ [Sample.hello; Sample.welcome]).
Proof.
  apply (appends_accumulate_in_order Sample.arrays "c.md"
           [Sample.hello; Sample.welcome] Sample.shared).
  - unfold well_formed, table_valid, refs_valid.
    repeat split; try (apply (bool_decide_unpack _)); vm_compute; exact I.
  - reflexivity.
  - reflexivity.
Defined.

(** X12.  A manager made over settings that hold histories serves them
    from its first call on: a persisted path loads as the persisted list, a
    path that is not persisted loads as the empty list unless it is the
    name of a member of [Object.prototype], in which case what loads is
    that member and no array; a first save under one path keeps every
    other persisted entry; and loading by itself stores and saves
    nothing. *)
Theorem persisted_histories_are_restored
  (arrayAnswers : list ChatMessage -> string -> bool)
  (h : list (list ChatMessage)) (table : gmap string nat) (path : string) :
  (forall r, table !! path = Some r ->
             read arrayAnswers path (fresh h (Some table)) = Some (deref h r))
  /\ (table !! path = None ->
      read arrayAnswers path (fresh h (Some table))
      = (if objectMember path then None else Some [])
      /\ read arrayAnswers path (fresh h None)
         = (if objectMember path then None else Some []))
  /\ (forall other r,
        other <> path ->
        entry other (saveChatHistory path r (fresh h (Some table)))
        = deref h <$> table !! other)
  /\ history (snd (loadChatHistory arrayAnswers path (fresh h (Some table))))
     = plainObject table
  /\ disk (snd (loadChatHistory arrayAnswers path (fresh h (Some table))))
     = None.
Proof.
  split; [|split; [|split; [|split]]].
  - intros r Hr. now apply (read_stored arrayAnswers path (fresh h (Some table))).
  - intros Hnone. destruct (objectMember path) eqn:Hm.
    + unfold read. split; rewrite load_member; try reflexivity; assumption.
    + split; apply read_unstored; try reflexivity; assumption.
  - intros other r Hne. rewrite entry_after_save by exact Hne. reflexivity.
  - unfold loadChatHistory. cbn.
    destruct (get arrayAnswers _ _ path); reflexivity.
  - unfold loadChatHistory. cbn.
    destruct (get arrayAnswers _ _ path); reflexivity.
Qed.

End HistoryExtras.

(** ** More on the folder context *)

Section FolderExtras.
Import Folder.

(** X13.  With the feature off, or with a file limit or a character limit
    that is zero or negative, the folder context is empty: no note can be
    included. *)
Theorem nonpositive_limit_gives_no_context (settings : Settings)
  (vault : Vault) (file : TFile) :
  folderContextEnabled settings = false
  \/ folderContextMaxFiles settings <= 0
  \/ folderContextMaxChars settings <= 0 ->
  getFolderContext settings vault file = EmptyString
  /\ getFolderContext_chat settings vault (Some file) = EmptyString.
Proof.
  intros Hlim.
  assert (H : getFolderContext settings vault file = EmptyString);
    [|split; [exact H | exact H]].
  unfold getFolderContext.
  destruct (folderContextEnabled settings) eqn:Hon; [|reflexivity].
  cbn [negb].
  destruct (List.filter (sibling file) (markdownFiles vault)) as [|f0 fs];
    [reflexivity|].
  destruct (collect_spec settings vault (f0 :: fs) [] 0 0)
    as (used & _ & _ & -> & Hcount & Hchars).
  destruct used as [|f l]; [reflexivity|]. exfalso.
  cbn [map length total_len fold_right] in Hcount, Hchars.
  fold (total_len (map (entryOf vault) l)) in Hchars.
  pose proof (total_len_nonneg (map (entryOf vault) l)).
  pose proof (nextEntry_not_empty f (default EmptyString (read vault f))) as Hp.
  change (0 < Str.len (entryOf vault f)) in Hp.
  destruct Hlim as [Hl|[Hl|Hl]]; [discriminate | lia |].
  clear - Hchars Hl H Hp. lia.
Qed.

Lemma nonpositive_limit_gives_no_context_witness :
  getFolderContext
    {| folderContextEnabled := true; folderContextMaxFiles := -3;
       folderContextMaxChars := 8000 |}
    Sample.vault (Sample.note "a" "notes")
  = EmptyString.
Proof.
  apply nonpositive_limit_gives_no_context.
  right; left. vm_compute. discriminate.
Defined.

(** X14.  The loop stops at the first entry that does not fit: when the
    first sibling note is readable, non-empty and its entry alone is longer
    than the character limit, the folder context is empty, whatever the
    notes after it hold. *)
Theorem oversize_first_note_ends_the_context (settings : Settings)
  (vault : Vault) (file f : TFile) (rest : list TFile) (content : string) :
  List.filter (sibling file) (markdownFiles vault) = f :: rest ->
  read vault f = Some content ->
  content <> EmptyString ->
  folderContextMaxChars settings < Str.len (nextEntry f content) ->
  getFolderContext settings vault file = EmptyString.
Proof.
  intros Hfiles Hread Hcontent Hbig. unfold getFolderContext.
  destruct (negb (folderContextEnabled settings)); [reflexivity|].
  rewrite Hfiles. cbn [collect].
  destruct (0 >=? folderContextMaxFiles settings); [reflexivity|].
  rewrite Hread. apply String.eqb_neq in Hcontent. rewrite Hcontent.
  replace (0 + Str.len (nextEntry f content) >? folderContextMaxChars settings)
    with true; [reflexivity|].
  symmetry. apply Z.gtb_lt. lia.
Qed.

Lemma oversize_first_note_ends_the_context_witness :
  getFolderContext
    {| folderContextEnabled := true; folderContextMaxFiles := 5;
       folderContextMaxChars := 18 |}
    {| markdownFiles := [Sample.note "a" "notes"; Sample.note "big" "notes";
                         Sample.note "b" "notes"];
       read := Folder.read Sample.vault |}
    (Sample.note "a" "notes")
  = EmptyString.
Proof.
  apply (oversize_first_note_ends_the_context _ _ _
           (Sample.note "big" "notes") [Sample.note "b" "notes"] "text").
  - reflexivity.
  - reflexivity.
  - discriminate.
  - vm_compute. reflexivity.
Defined.

End FolderExtras.

(** ** More on the image store *)

Section ImageExtras.
Import Client Image.

Lemma append_inj_head (a x y : string) : a +:+ x = a +:+ y -> x = y.
Proof.
  induction a as [|c a IH]; cbn; intros H; [exact H|].
  injection H as H. auto.
Qed.

(** Two texts with equally long tails are equal part by part. *)
Lemma append_inj_tail (a a' b b' : string) :
  String.length b = String.length b' ->
  a +:+ b = a' +:+ b' -> a = a' /\ b = b'.
Proof.
  revert a'. induction a as [|c a IH]; intros a' Hlen H.
  - destruct a' as [|c' a'].
    + split; [reflexivity | exact H].
    + exfalso. apply (f_equal String.length) in H.
      change (EmptyString +:+ b) with b in H.
      rewrite length_append in H. cbn in H. lia.
  - destruct a' as [|c' a'].
    + exfalso. apply (f_equal String.length) in H.
      change (EmptyString +:+ b') with b' in H.
      rewrite length_append in H. cbn in H. lia.
    + change (String c (a +:+ b) = String c' (a' +:+ b')) in H.
      injection H as Hc H. destruct (IH a' Hlen H) as [-> ->].
      subst c'. split; reflexivity.
Qed.

Lemma of_Z_inj (a b : Z) : Str.of_Z a = Str.of_Z b -> a = b.
Proof.
  unfold Str.of_Z. intros H.
  apply DecimalZ.to_int_inj.
  apply (f_equal NilEmpty.int_of_string) in H.
  rewrite !NilEmpty.isi in H. now injection H.
Qed.

(** X15.  [saveImageToVault] never replaces or removes a file the vault
    already holds.  When it throws, the vault is as it was and the last
    notice shown is the failure notice; when it returns, the only change is
    the new file, at a path that was free. *)
Theorem saving_an_image_keeps_every_existing_file
  (base64 : string -> list ascii)
  (getAvailablePathForAttachment : gmap string (list ascii) -> string -> res string)
  (base64Data prompt : string) (timestamp : Z) (h : Host) :
  let r := saveImageToVault base64 getAvailablePathForAttachment base64Data
             prompt timestamp h in
  (forall p d, files h !! p = Some d -> files (snd r) !! p = Some d)
  /\ match fst r with
     | Throw _ =>
         files (snd r) = files h
         /\ notices (snd r) = notices h ++ ["Failed to save image to vault"]
     | Ok link =>
         link = "![[" +:+ filename timestamp prompt +:+ "]]"
         /\ exists path,
              getAvailablePathForAttachment (files h) (filename timestamp prompt)
              = Ok path
              /\ files h !! path = None
              /\ files (snd r) = <[path := base64 base64Data]> (files h)
              /\ notices (snd r) = notices h ++ ["Image saved to: " +:+ path]
     end.
Proof.
  cbv zeta. unfold saveImageToVault, createBinary.
  destruct (getAvailablePathForAttachment (files h) (filename timestamp prompt))
    as [path|e] eqn:Hpath.
  - destruct (files h !! path) as [old|] eqn:Hold; cbn.
    + split; [auto | split; reflexivity].
    + split.
      * intros p d Hp. rewrite lookup_insert_ne; [exact Hp|].
        intros ->. congruence.
      * split; [reflexivity|]. exists path. auto.
  - cbn. split; [auto | split; reflexivity].
Qed.

(** X16.  Images saved at different clock readings get different file
    names, whatever their prompts are. *)
Theorem image_names_differ_when_the_clock_differs (t t' : Z)
  (prompt prompt' : string) :
  t <> t' -> filename t prompt <> filename t' prompt'.
Proof.
  intros Hne H. apply Hne. unfold filename in H.
  apply append_inj_head in H.
  apply append_inj_tail in H.
  - destruct H as [H _]. now apply of_Z_inj.
  - rewrite !length_append, !generateShortHash_length. reflexivity.
Qed.

Lemma image_names_differ_when_the_clock_differs_witness :
  filename 1700000000000 "cat" <> filename 1700000000001 "cat".
Proof.
  apply image_names_differ_when_the_clock_differs. discriminate.
Defined.

End ImageExtras.

(** ** More on ghost text and autocomplete *)

Section GhostExtras.
Import Ghost.
Variable mapPos : Change -> nat -> nat.

(** Without a set effect, the effects of a transaction leave the value as
    it is or reset it. *)
Lemma effects_without_set (es : list effect) (value : GhostTextState) :
  existsb isSet es = false ->
  fold_left applyEffect es value = value
  \/ fold_left applyEffect es value = noGhost.
Proof.
  revert value. induction es as [|e es IH]; intros value H; [now left|].
  cbn in H. apply orb_false_iff in H as [He Hes].
  destruct e; [discriminate| |]; cbn [fold_left applyEffect].
  - right. destruct (IH noGhost Hes) as [H|H]; exact H.
  - apply IH, Hes.
Qed.

End GhostExtras.

Section GhostExtrasTheorem.
Import Ghost.

(** X17.  Only a set effect makes ghost text appear or change: a
    transaction without one leaves the ghost text's characters as they
    were or removes them, whatever it does to the document; so with no
    ghost text before there is none after. *)
Theorem ghost_text_changes_only_by_a_set_effect
  (mapPos : Change -> nat -> nat) (value : GhostTextState) (tr : Transaction) :
  existsb isSet (effects tr) = false ->
  (text (update mapPos value tr) = text value
   \/ update mapPos value tr = noGhost)
  /\ (text value = EmptyString ->
      text (update mapPos value tr) = EmptyString).
Proof.
  intros Hset.
  assert (H : text (update mapPos value tr) = text value
              \/ update mapPos value tr = noGhost).
  { unfold update.
    destruct (effects_without_set (effects tr) value Hset) as [-> | ->].
    - left. destruct (changes tr) as [c|]; [|reflexivity].
      destruct (docChanged tr && _); reflexivity.
    - right. destruct (changes tr) as [c|]; [|reflexivity].
      cbn. rewrite andb_false_r. reflexivity. }
  split; [exact H|].
  intros Hempty. destruct H as [-> | ->]; [exact Hempty | reflexivity].
Qed.

Lemma ghost_text_changes_only_by_a_set_effect_witness :
  text (update Sample.keep (ghost Sample.suggesting)
          {| changes := Some {| from := 0; to := 0; insert := "Oh. " |};
             effects := [otherEffect]; selectionSet := true |})
  = ", dear"
  \/ update Sample.keep (ghost Sample.suggesting)
       {| changes := Some {| from := 0; to := 0; insert := "Oh. " |};
          effects := [otherEffect]; selectionSet := true |}
     = noGhost.
Proof.
  apply ghost_text_changes_only_by_a_set_effect. reflexivity.
Defined.

End GhostExtrasTheorem.

Section SchedulerFacts.
Import Ghost Plugin Scheduler.
Variable mapPos : Change -> nat -> nat.

(** However a resumed call ends, its [finally] block has run. *)
Lemma resume_settles (pd : Pending) (outcome : Client.res string)
  (p : Plugin.Plugin) (e : Editor) :
  inlineAutocompleteInFlight
    (fst (inlineAutocomplete_resume mapPos pd outcome p e)) = false.
Proof.
  unfold inlineAutocomplete_resume, failed, settle, setGhostText.
  destruct outcome as [completion|err]; [|reflexivity].
  repeat match goal with
         | |- context [if ?b then _ else _] => destruct b
         | |- context [match ?o with Some _ => _ | None => _ end] => destruct o
         end;
    reflexivity.
Qed.

Lemma exclusive_advance (a : activity) (s : System) :
  exclusive s -> exclusive (advance mapPos a s).
Proof.
  destruct s as [p e pending]. unfold exclusive. cbn [suspended plugin].
  destruct a as [settings basename quiet|n outcome|e']; cbn [advance plugin editor suspended].
  - pose proof (begin_issues_next_id mapPos settings basename quiet p e) as H.
    destruct (inlineAutocomplete_begin mapPos settings basename quiet p e)
      as [[[pd|] p'] e'']; cbn [suspended plugin].
    + destruct H as (Hid & Hcounter & Hidle & Hbusy).
      destruct pending as [|pd0 [|pd1 rest]]; cbn [app].
      * intros _. split; [exact Hbusy | symmetry; exact Hcounter].
      * intros [Hfl _]. congruence.
      * intros [].
    + destruct H as [-> ->]. auto.
  - destruct pending as [|pd0 [|pd1 rest]]; [| |intros []].
    + rewrite lookup_nil. auto.
    + destruct n as [|n]; [|cbn; auto].
      cbn [lookup list_lookup].
      pose proof (resume_settles pd0 outcome p e) as H.
      destruct (inlineAutocomplete_resume mapPos pd0 outcome p e) as [p' e''].
      cbn [suspended plugin delete]. intros _. exact H.
  - auto.
Qed.

Lemma exclusive_run (acts : list activity) (s : System) :
  exclusive s -> exclusive (run mapPos acts s).
Proof.
  revert s. induction acts as [|a acts IH]; intros s H; [exact H|].
  cbn [run fold_left]. apply IH, exclusive_advance, H.
Qed.

End SchedulerFacts.

Section SchedulerTheorem.
Import Ghost Plugin Scheduler.

(** X18.  Autocomplete calls never overlap.  From the plugin as loaded,
    along any sequence of calls, resumptions and edits: at most one call is
    suspended at its await; one is suspended exactly when the in-flight
    flag is up; its request id is the counter's value; and a call made
    meanwhile changes nothing. *)
Theorem autocomplete_calls_never_overlap (mapPos : Change -> nat -> nat)
  (e : Editor) (acts : list activity) :
  let s := run mapPos acts (loaded e) in
  (length (suspended s) <= 1)%nat
  /\ (inlineAutocompleteInFlight (plugin s) = true <-> suspended s <> [])
  /\ Forall (fun pd => requestId pd = inlineAutocompleteRequestId (plugin s))
       (suspended s)
  /\ (suspended s <> [] ->
      forall settings basename quiet,
        advance mapPos (Start settings basename quiet) s = s).
Proof.
  cbv zeta.
  assert (H : exclusive (run mapPos acts (loaded e)))
    by (apply exclusive_run; reflexivity).
  destruct (run mapPos acts (loaded e)) as [p e' pending].
  unfold exclusive in H. cbn [suspended plugin editor] in *.
  destruct pending as [|pd [|pd' rest]]; [| |destruct H].
  - split; [cbn; lia|]. split; [|split; [constructor|]].
    + rewrite H. split; [discriminate | intros Hne; now destruct Hne].
    + intros Hne. now destruct Hne.
  - destruct H as [Hbusy Hid]. split; [cbn; lia|].
    split; [|split; [constructor; [exact Hid | constructor]|]].
    + split; [discriminate | intros _; exact Hbusy].
    + intros _ settings basename quiet. cbn [advance plugin editor].
      unfold inlineAutocomplete_begin. rewrite Hbusy. reflexivity.
Qed.

Lemma autocomplete_calls_never_overlap_witness :
  advance Sample.keep (Start Sample.plugin_settings "note" true)
    (run Sample.keep [Start Sample.plugin_settings "note" true] (loaded Sample.typing))
  = run Sample.keep [Start Sample.plugin_settings "note" true] (loaded Sample.typing).
Proof.
  apply (autocomplete_calls_never_overlap Sample.keep Sample.typing
           [Start Sample.plugin_settings "note" true]).
  vm_compute. discriminate.
Defined.

End SchedulerTheorem.

Section SuggestionTheorem.
Import Ghost Plugin.

(** X19.  With the editor view at hand, autocomplete only ever suggests:
    neither the start of a call nor its resumption changes the document or
    the cursor.  A resumption leaves the editor as it was, or sets as ghost
    text, at the cursor, the completion with the white space at its two
    ends removed, which is then not empty. *)
Theorem autocomplete_with_a_view_only_suggests
  (mapPos : Change -> nat -> nat) (p : Plugin.Plugin) (e : Editor) :
  cm e = true ->
  (forall settings basename quiet,
     let e' := snd (inlineAutocomplete_begin mapPos settings basename quiet p e) in
     doc (state e') = doc (state e) /\ cursor e' = cursor e)
  /\ (forall pd outcome,
        let r := inlineAutocomplete_resume mapPos pd outcome p e in
        doc (state (snd r)) = doc (state e)
        /\ cursor (snd r) = cursor e
        /\ isApplyingAutocomplete (fst r) = isApplyingAutocomplete p
        /\ (snd r = e
            \/ exists completion,
                 outcome = Client.Ok completion
                 /\ Str.trimEnd (Str.trimStart completion) <> EmptyString
                 /\ ghost (state (snd r))
                    = {| text := Str.trimEnd (Str.trimStart completion);
                         pos := posToOffset e (cursor e) |})).
Proof.
  intros Hcm. split.
  - intros settings basename quiet. cbv zeta.
    unfold inlineAutocomplete_begin, clearGhostText. rewrite Hcm.
    repeat match goal with
           | |- context [if ?b then _ else _] => destruct b
           | |- context [match ?o with Some _ => _ | None => _ end] => destruct o
           end; split; reflexivity.
  - intros pd outcome. cbv zeta.
    unfold inlineAutocomplete_resume, failed, settle, setGhostText.
    rewrite Hcm. cbn [negb].
    destruct outcome as [completion|err];
      [|cbn [fst snd]; repeat split; try (destruct (silent pd); reflexivity);
        now left].
    destruct (negb (requestId pd =? inlineAutocompleteRequestId p));
      [cbn; repeat split; now left|].
    destruct (getLine e (line (at_cursor pd))) as [currentLine|];
      [|cbn [fst snd]; repeat split; try (destruct (silent pd); reflexivity);
        now left].
    destruct (cursor_eqb (cursor e) (at_cursor pd)) eqn:Hcur; cbn [negb];
      [|cbn; repeat split; now left].
    destruct (negb (Str.startsWith (linePrefix pd) currentLine));
      [cbn; repeat split; now left|].
    destruct (String.eqb (Str.trimEnd (Str.trimStart completion)) EmptyString)
      eqn:Hclean;
      [cbn [fst snd]; repeat split; try (destruct (silent pd); reflexivity);
        now left|].
    cbn [fst snd]. split; [reflexivity|]. split; [reflexivity|].
    split; [destruct (silent pd); reflexivity|].
    right. exists completion. split; [reflexivity|].
    split; [now apply String.eqb_neq|].
    unfold cursor_eqb in Hcur. apply andb_true_iff in Hcur as [Hl Hc].
    apply Nat.eqb_eq in Hl, Hc.
    destruct (at_cursor pd) as [l c], (cursor e) as [l' c'] eqn:Hcursor.
    cbn in Hl, Hc. subst l' c'.
    unfold dispatch_effects, update, effects_only, with_state.
    cbn. unfold posToOffset. reflexivity.
Qed.

Lemma autocomplete_with_a_view_only_suggests_witness :
  doc (state (snd (inlineAutocomplete_resume Sample.keep Sample.first_request
                     (Client.Ok " jumps") (Sample.idle 1) Sample.typing)))
  = "The quick brown".
Proof.
  apply (autocomplete_with_a_view_only_suggests Sample.keep (Sample.idle 1)
           Sample.typing eq_refl).
Defined.

End SuggestionTheorem.

(** ** Listings always answer *)

Section ListingsAnswer.
Import JS Net Client.
Variable parse : string -> option value.

Ltac answered :=
  unfold try_catch, json, prop, or_throw, storeModels, storeImageModels, now,
    self, bind, ret, throw;
  cbv beta;
  match goal with
  | |- context [fetchWithAuth ?u ?m ?b ?c ?w] =>
      pose proof (fetchWithAuth_client u m b c w);
      destruct (fetchWithAuth u m b c w) as [[[?|?] ?] ?];
      cbn [fst snd] in *; subst
  end;
  repeat match goal with
         | |- context [match ?o with Some _ => _ | None => _ end] =>
             destruct o; cbn [fst snd]
         end;
  do 3 eexists; repeat split; reflexivity.

Lemma fetchModels_answers (subscriptionOnly : bool) (c : Client) (w : World) :
  exists v c' w',
    fetchModels parse subscriptionOnly c w = (Ok v, c', w')
    /\ apiKey c' = apiKey c /\ baseUrl c' = baseUrl c.
Proof. unfold fetchModels. answered. Qed.

Lemma fetchImageModels_answers (c : Client) (w : World) :
  exists v c' w',
    fetchImageModels parse c w = (Ok v, c', w')
    /\ apiKey c' = apiKey c /\ baseUrl c' = baseUrl c.
Proof. unfold fetchImageModels. answered. Qed.

End ListingsAnswer.

Section ListingsAnswerTheorem.
Import JS Net Client.

(** X20.  The two listings never throw: whatever the cache holds and
    however the request, the parse of the reply or the shape of its data
    goes wrong, [listModels] and [listImageModels] return a value, and
    leave the client's key and base address as they were. *)
Theorem listings_never_throw (parse : string -> option value)
  (c : Client) (w : World) :
  (forall subscriptionOnly,
     exists v c' w',
       listModels parse subscriptionOnly c w = (Ok v, c', w')
       /\ apiKey c' = apiKey c /\ baseUrl c' = baseUrl c)
  /\ exists v c' w',
       listImageModels parse c w = (Ok v, c', w')
       /\ apiKey c' = apiKey c /\ baseUrl c' = baseUrl c.
Proof.
  split.
  - intros subscriptionOnly. unfold listModels, bind at 1, self.
    destruct (modelCache c !! cacheKey subscriptionOnly) as [cached|];
      [|apply fetchModels_answers].
    unfold bind, now, ret.
    destruct (_ <? _); [|apply fetchModels_answers].
    do 3 eexists; repeat split; reflexivity.
  - unfold listImageModels, bind at 1, self.
    destruct (imageModelCache c) as [cached|];
      [|apply fetchImageModels_answers].
    unfold bind, now, ret.
    destruct (_ <? _); [|apply fetchImageModels_answers].
    do 3 eexists; repeat split; reflexivity.
Qed.

End ListingsAnswerTheorem.

(** ** Trimming *)

Section TrimFacts.

Lemma trimStart_head (s : string) :
  match Str.trimStart s with
  | String c _ => Str.is_space c = false
  | EmptyString => True
  end.
Proof.
  induction s as [|c s IH]; cbn [Str.trimStart]; [exact I|].
  destruct (Str.is_space c) eqn:Hc; [exact IH | exact Hc].
Qed.

Lemma trimStart_fixed (c : ascii) (s : string) :
  Str.is_space c = false -> Str.trimStart (String c s) = String c s.
Proof. intros H. cbn [Str.trimStart]. now rewrite H. Qed.

Lemma trimEnd_cons (c : ascii) (s : string) :
  Str.is_space c = false ->
  exists t, Str.trimEnd (String c s) = String c t.
Proof.
  intros H. cbn [Str.trimEnd].
  destruct (Str.trimEnd s) as [|d t]; [rewrite H|]; eauto.
Qed.

Lemma trimEnd_idem (s : string) : Str.trimEnd (Str.trimEnd s) = Str.trimEnd s.
Proof.
  induction s as [|c s IH]; [reflexivity|]. cbn [Str.trimEnd].
  destruct (Str.trimEnd s) as [|d t] eqn:Ht.
  - destruct (Str.is_space c) eqn:Hc; [reflexivity|].
    cbn [Str.trimEnd]. now rewrite Hc.
  - change (Str.trimEnd (String c (String d t)))
      with (match Str.trimEnd (String d t) with
            | EmptyString =>
                if Str.is_space c then EmptyString else String c EmptyString
            | String a b => String c (String a b)
            end).
    rewrite IH. reflexivity.
Qed.

Lemma trimStart_trim (s : string) : Str.trimStart (Str.trim s) = Str.trim s.
Proof.
  unfold Str.trim. pose proof (trimStart_head s) as H.
  destruct (Str.trimStart s) as [|c x]; [reflexivity|].
  destruct (trimEnd_cons c x H) as [t ->]. now apply trimStart_fixed.
Qed.

Lemma trim_idem (s : string) : Str.trim (Str.trim s) = Str.trim s.
Proof.
  unfold Str.trim at 1. rewrite trimStart_trim. unfold Str.trim.
  apply trimEnd_idem.
Qed.

(** A text that trimming leaves alone has no white space at either end. *)
Lemma trim_fixed (t : string) :
  Str.trim t = t -> Str.trimStart t = t /\ Str.trimEnd t = t.
Proof.
  intros H. split.
  - rewrite <- H at 1. rewrite trimStart_trim. exact H.
  - rewrite <- H at 1. unfold Str.trim. rewrite trimEnd_idem. exact H.
Qed.

Lemma trimEnd_append (a b : string) :
  Str.trimEnd b <> EmptyString ->
  Str.trimEnd (a +:+ b) = a +:+ Str.trimEnd b.
Proof.
  intros Hb. induction a as [|c a IH]; [reflexivity|].
  change (String c a +:+ b) with (String c (a +:+ b)).
  cbn [Str.trimEnd]. rewrite IH.
  change (String c a +:+ Str.trimEnd b) with (String c (a +:+ Str.trimEnd b)).
  destruct (a +:+ Str.trimEnd b) as [|d t] eqn:Hab; [|reflexivity].
  exfalso. destruct a; [|discriminate]. apply Hb. exact Hab.
Qed.

Lemma chars_trimStart (c : ascii) (s : string) :
  In c (list_ascii_of_string (Str.trimStart s)) ->
  In c (list_ascii_of_string s).
Proof.
  induction s as [|d s IH]; cbn [Str.trimStart]; [auto|].
  destruct (Str.is_space d); [|auto]. intros H. right. auto.
Qed.

Lemma chars_trimEnd (c : ascii) (s : string) :
  In c (list_ascii_of_string (Str.trimEnd s)) ->
  In c (list_ascii_of_string s).
Proof.
  induction s as [|d s IH]; cbn [Str.trimEnd]; [auto|].
  destruct (Str.trimEnd s) as [|e t].
  - destruct (Str.is_space d); cbn; [tauto|]. intros [H|[]]. now left.
  - intros [H|H]; [now left|]. right. auto.
Qed.

Lemma chars_trim (c : ascii) (s : string) :
  In c (list_ascii_of_string (Str.trim s)) -> In c (list_ascii_of_string s).
Proof. intros H. now apply chars_trimStart, chars_trimEnd. Qed.

(** A text without white space is its own trimming. *)
Lemma trim_no_space (s : string) :
  (forall c, In c (list_ascii_of_string s) -> Str.is_space c = false) ->
  Str.trim s = s.
Proof.
  intros H. unfold Str.trim.
  assert (Hs : Str.trimStart s = s).
  { destruct s as [|c s]; [reflexivity|]. apply trimStart_fixed, H. now left. }
  rewrite Hs. clear Hs. induction s as [|c s IH]; [reflexivity|].
  cbn [Str.trimEnd]. rewrite IH by (intros d Hd; apply H; now right).
  destruct s; [|reflexivity]. rewrite H by now left. reflexivity.
Qed.

Lemma chars_append (c : ascii) (a b : string) :
  In c (list_ascii_of_string (a +:+ b))
  <-> In c (list_ascii_of_string a) \/ In c (list_ascii_of_string b).
Proof.
  induction a as [|d a IH]; [cbn; tauto|].
  change (String d a +:+ b) with (String d (a +:+ b)).
  cbn [list_ascii_of_string In]. rewrite IH. tauto.
Qed.

End TrimFacts.

(** ** URLs in a chat message *)

Section UrlFacts.
Import Notes.

Example urls_of_a_message :
  extractUrls "see (https://a.b/c) and http://x.y/z, then https://a.b/c again"
  = ["https://a.b/c"; "http://x.y/z,"].
Proof. vm_compute. reflexivity. Qed.

Example titles_of_a_command :
  parseCreateNotesCommand "  Create Notes:  Alpha, Beta ;; Gamma delta ,  "
  = ["Alpha"; "Beta"; "Gamma delta"].
Proof. vm_compute. reflexivity. Qed.

Example path_for_a_taken_title :
  getUniqueNotePath (fun p => p) 2 {["f/T.md"; "f/T (1).md"]} "f" " T? "
  = Some "f/T (2).md".
Proof. vm_compute. reflexivity. Qed.

Lemma span_url_spec (s : string) :
  s = fst (span_url s) +:+ snd (span_url s)
  /\ forall c, In c (list_ascii_of_string (fst (span_url s))) ->
               url_char c = true.
Proof.
  induction s as [|d s [IH1 IH2]]; cbn [span_url]; [split; [reflexivity|easy]|].
  destruct (url_char d) eqn:Hd; [|split; [reflexivity|easy]].
  destruct (span_url s) as [u r]. cbn [fst snd] in *. split.
  - change (String d u +:+ r) with (String d (u +:+ r)). now rewrite <- IH1.
  - intros c [<-|H]; [exact Hd | auto].
Qed.

Lemma prefix_split (p s : string) :
  String.prefix p s = true -> s = p +:+ Str.slice_from (String.length p) s.
Proof.
  revert s. induction p as [|a p IH]; intros s H; [reflexivity|].
  destruct s as [|c s]; [discriminate|]. cbn in H.
  destruct (ascii_dec a c) as [->|]; [|discriminate].
  change (String c p +:+ ?x) with (String c (p +:+ x)).
  cbn [String.length Str.slice_from]. now rewrite <- IH.
Qed.

Lemma match_scheme_spec (scheme s m r : string) :
  (forall c, In c (list_ascii_of_string scheme) -> url_char c = true) ->
  match_scheme scheme s = Some (m, r) ->
  s = m +:+ r
  /\ (exists rest, rest <> EmptyString /\ m = scheme +:+ rest)
  /\ forall c, In c (list_ascii_of_string m) -> url_char c = true.
Proof.
  intros Hscheme. unfold match_scheme.
  destruct (String.prefix scheme s) eqn:Hp; [|discriminate].
  apply prefix_split in Hp.
  destruct (span_url_spec (Str.slice_from (String.length scheme) s)) as [Hs Hu].
  destruct (span_url _) as [u r']. cbn [fst snd] in *.
  destruct u as [|d u]; [discriminate|]. intros [= <- <-].
  split; [|split].
  - rewrite append_assoc, <- Hs. exact Hp.
  - exists (String d u). split; [discriminate | reflexivity].
  - intros c Hc. apply chars_append in Hc as [Hc|Hc]; auto.
Qed.

Lemma match_url_spec (s m r : string) :
  match_url s = Some (m, r) -> s = m +:+ r /\ url_shaped m.
Proof.
  unfold match_url, url_shaped.
  destruct (match_scheme "https://" s) as [[m' r']|] eqn:Hs.
  - intros [= <- <-].
    apply match_scheme_spec in Hs as (H1 & (rest & Hne & H2) & H3).
    + split; [exact H1|]. split; [|exact H3]. exists rest. auto.
    + cbn. intros c H.
      repeat (destruct H as [<-|H]; [reflexivity|]). destruct H.
  - intros Hm. apply match_scheme_spec in Hm as (H1 & (rest & Hne & H2) & H3).
    + split; [exact H1|]. split; [|exact H3]. exists rest. auto.
    + cbn. intros c H.
      repeat (destruct H as [<-|H]; [reflexivity|]). destruct H.
Qed.

Lemma url_shaped_not_empty (m : string) : url_shaped m -> m <> EmptyString.
Proof. intros [(rest & _ & [-> | ->]) _]; discriminate. Qed.

(** Every match has the shape of a URL and occurs in the text. *)
Lemma matches_spec (fuel : nat) (s : string) :
  Forall (fun m => url_shaped m /\ exists a b, s = a +:+ m +:+ b)
    (matches fuel s).
Proof.
  revert s. induction fuel as [|fuel IH]; intros s; cbn [matches];
    [constructor|].
  destruct (match_url s) as [[u rest]|] eqn:Hm.
  - apply match_url_spec in Hm as [Hs Hu]. constructor.
    + split; [exact Hu|]. exists EmptyString, rest. exact Hs.
    + eapply Forall_impl; [apply IH|]. cbn.
      intros m [Hshape (a & b & ->)]. split; [exact Hshape|].
      exists (u +:+ a), b. now rewrite Hs, append_assoc.
  - destruct s as [|c s]; [constructor|].
    eapply Forall_impl; [apply IH|]. cbn.
    intros m [Hshape (a & b & ->)]. split; [exact Hshape|].
    exists (String c a), b. reflexivity.
Qed.

(** A scan that has more turns left than the text has characters does
    not run out of them. *)
Lemma matches_fuel (f1 f2 : nat) (s : string) :
  (String.length s < f1)%nat -> (String.length s < f2)%nat ->
  matches f1 s = matches f2 s.
Proof.
  revert f2 s. induction f1 as [|f1 IH]; intros f2 s H1 H2; [lia|].
  destruct f2 as [|f2]; [lia|]. cbn [matches].
  destruct (match_url s) as [[u rest]|] eqn:Hm.
  - apply match_url_spec in Hm as [Hs Hu]. f_equal.
    apply url_shaped_not_empty in Hu.
    apply (f_equal String.length) in Hs. rewrite length_append in Hs.
    destruct u; [congruence|]. cbn in Hs. apply IH; lia.
  - destruct s as [|c s]; [reflexivity|]. cbn in H1, H2. apply IH; lia.
Qed.

Lemma url_shaped_trim (m : string) : url_shaped m -> Str.trim m = m.
Proof.
  intros [_ H]. apply trim_no_space. intros c Hc.
  specialize (H c Hc). unfold url_char in H.
  destruct (Str.is_space c); [discriminate | reflexivity].
Qed.

Lemma collect_urls_spec (P : string -> Prop) (ms urls : list string) :
  Forall (fun m => url_shaped m /\ P m) ms ->
  NoDup urls -> Forall (fun u => url_shaped u /\ P u) urls ->
  NoDup (fold_left collect_url ms urls)
  /\ Forall (fun u => url_shaped u /\ P u) (fold_left collect_url ms urls).
Proof.
  revert urls. induction ms as [|m ms IH]; intros urls Hms Hnd Hurls;
    [now split|].
  apply Forall_cons in Hms as [[Hm HP] Hms]. cbn [fold_left].
  apply IH; [exact Hms | |]; unfold collect_url, add;
    rewrite (url_shaped_trim m Hm);
    destruct (String.eqb m EmptyString); try assumption;
    destruct (bool_decide (m ∈ urls)) eqn:Hin; try assumption.
  - apply bool_decide_eq_false in Hin.
    apply NoDup_app. split; [exact Hnd|]. split; [|apply NoDup_singleton].
    intros x Hx Hx'. apply list_elem_of_singleton in Hx'. now subst.
  - apply Forall_app. split; [exact Hurls|]. now constructor.
Qed.

End UrlFacts.

Section UrlTheorem.
Import Notes.

(** X21.  [extractUrls] returns at most five URLs, no two of them equal.
    Each one occurs in the text, is [http://] or [https://] followed by at
    least one more character, and holds no white space, no closing
    parenthesis and no closing square bracket. *)
Theorem extracted_urls_are_few_distinct_and_well_formed (text : string) :
  (length (extractUrls text) <= 5)%nat
  /\ NoDup (extractUrls text)
  /\ Forall (fun u =>
               (exists rest,
                  rest <> EmptyString
                  /\ (u = "http://" +:+ rest \/ u = "https://" +:+ rest))
               /\ (forall c, In c (list_ascii_of_string u) ->
                             Str.is_space c = false /\ c <> ")"%char
                             /\ c <> "]"%char)
               /\ Str.includes u text = true)
       (extractUrls text).
Proof.
  unfold extractUrls.
  destruct (collect_urls_spec (fun m => exists a b, text = a +:+ m +:+ b)
              (matches (S (String.length text)) text) [])
    as [Hnd Hall]; [apply matches_spec | constructor | constructor |].
  split; [|split].
  - rewrite length_take. lia.
  - eapply sublist_NoDup; [exact Hnd | apply sublist_take].
  - eapply Forall_impl; [apply Forall_take, Hall|]. cbn.
    intros u [[Hscheme Hchars] (a & b & ->)].
    split; [exact Hscheme|].
    split; [|apply includes_middle].
    intros c Hc. specialize (Hchars c Hc). unfold url_char in Hchars.
    apply negb_true_iff, orb_false_iff in Hchars as [Hchars Hb].
    apply orb_false_iff in Hchars as [Hsp Hp].
    split; [exact Hsp|]. split; intros ->; discriminate.
Qed.

End UrlTheorem.

(** ** The create-notes command *)

Section CommandFacts.
Import Notes.

Lemma one_line_chars (s : string) :
  one_line s = true <->
  forall c, In c (list_ascii_of_string s) -> is_line_terminator c = false.
Proof.
  induction s as [|d s IH]; cbn [one_line list_ascii_of_string In];
    [split; [intros _ c [] | reflexivity]|].
  rewrite andb_true_iff, negb_true_iff, IH. split.
  - intros [Hd Hs] c [<-|Hc]; auto.
  - intros H. split; [apply H; now left | intros c Hc; apply H; now right].
Qed.

Lemma rest_of_line_spec (s p : string) :
  rest_of_line s = Some p -> p = s /\ s <> EmptyString /\ one_line s = true.
Proof.
  unfold rest_of_line. destruct (negb (String.eqb s EmptyString)) eqn:Hne;
    [|discriminate].
  destruct (one_line s); [|discriminate]. intros [= <-].
  apply negb_true_iff, String.eqb_neq in Hne. auto.
Qed.

(** The captured group is one line and not empty. *)
Lemma payload_spec (s p : string) :
  payload s = Some p -> p <> EmptyString /\ one_line p = true.
Proof.
  induction s as [|c s IH]; cbn [payload]; [discriminate|].
  destruct (Str.is_space c).
  - destruct (payload s) as [q|].
    + intros [= <-]. now apply IH.
    + intros H. apply rest_of_line_spec in H as (-> & H1 & H2). auto.
  - intros H. apply rest_of_line_spec in H as (-> & H1 & H2). auto.
Qed.

Lemma command_spec (s p : string) :
  command s = Some p -> p <> EmptyString /\ one_line p = true.
Proof.
  unfold command.
  destruct (literal_i "create" s) as [[|c s1]|]; try discriminate.
  destruct (Str.is_space c); [|discriminate].
  destruct (literal_i "note" (Str.trimStart s1)) as [s2|]; [|discriminate].
  destruct (match literal_i "s" s2 with
            | Some s3 => literal_i ":" s3
            | None => literal_i ":" s2
            end) as [s4|]; [|discriminate].
  apply payload_spec.
Qed.

(** The pieces of a split hold characters of the text, none of them a
    separator. *)
Lemma split_where_chars (sep : ascii -> bool) (s : string) :
  Forall (fun piece =>
            forall c, In c (list_ascii_of_string piece) ->
                      sep c = false /\ In c (list_ascii_of_string s))
    (split_where sep s).
Proof.
  induction s as [|d s IH]; cbn [split_where].
  - constructor; [intros c []|constructor].
  - destruct (sep d) eqn:Hd.
    + constructor; [intros c []|].
      eapply Forall_impl; [exact IH|]. cbn. intros piece H c Hc.
      destruct (H c Hc). split; [assumption | right; assumption].
    + destruct (split_where sep s) as [|l ls].
      * constructor; [|constructor]. intros c [<-|[]]. split; [exact Hd|now left].
      * apply Forall_cons in IH as [Hl Hls]. constructor.
        -- intros c [<-|Hc]; [split; [exact Hd | now left]|].
           destruct (Hl c Hc). split; [assumption | right; assumption].
        -- eapply Forall_impl; [exact Hls|]. cbn. intros piece H c Hc.
           destruct (H c Hc). split; [assumption | right; assumption].
Qed.

End CommandFacts.

Section CommandTheorem.
Import Notes.

(** X22.  Every title [parseCreateNotesCommand] returns is usable as it is:
    it is not empty, has no white space at either end, and holds no comma,
    no semicolon and no line break. *)
Theorem parsed_titles_are_clean (text : string) :
  Forall (fun title =>
            title <> EmptyString
            /\ Str.trim title = title
            /\ forall c, In c (list_ascii_of_string title) ->
                         is_separator c = false
                         /\ is_line_terminator c = false)
    (parseCreateNotesCommand text).
Proof.
  unfold parseCreateNotesCommand.
  destruct (command (Str.trim text)) as [p|] eqn:Hcmd; [|constructor].
  apply command_spec in Hcmd as [_ Hline].
  rewrite one_line_chars in Hline.
  apply Forall_forall. intros title Hin.
  apply list_elem_of_In, filter_In in Hin as [Hin Hne].
  apply in_map_iff in Hin as (piece & <- & Hpiece).
  split; [|split].
  - unfold nonempty in Hne. now apply negb_true_iff, String.eqb_neq in Hne.
  - apply trim_idem.
  - intros c Hc. apply chars_trim in Hc.
    pose proof (split_where_chars is_separator p) as Hall.
    rewrite Forall_forall in Hall.
    destruct (Hall piece (proj2 (list_elem_of_In _ _) Hpiece) c Hc) as [Hs Hp].
    split; [exact Hs | apply Hline, Hp].
Qed.

End CommandTheorem.

Section CommandRoundTrip.
Import Notes.

(** The titles of a command, each after the first behind a comma and a
    space. *)
Lemma split_where_none (sep : ascii -> bool) (s : string) :
  (forall c, In c (list_ascii_of_string s) -> sep c = false) ->
  split_where sep s = [s].
Proof.
  induction s as [|d s IH]; intros H; [reflexivity|]. cbn [split_where].
  rewrite (H d) by now left. rewrite IH by (intros c Hc; apply H; now right).
  reflexivity.
Qed.

Lemma split_where_append (sep : ascii -> bool) (a b : string) (d : ascii) :
  (forall c, In c (list_ascii_of_string a) -> sep c = false) ->
  sep d = true ->
  split_where sep (a +:+ String d b) = a :: split_where sep b.
Proof.
  intros Ha Hd. induction a as [|e a IH].
  - change (EmptyString +:+ String d b) with (String d b).
    cbn [split_where]. now rewrite Hd.
  - change (String e a +:+ String d b) with (String e (a +:+ String d b)).
    cbn [split_where]. rewrite (Ha e) by now left.
    rewrite IH by (intros c Hc; apply Ha; now right). reflexivity.
Qed.

Lemma split_listed (t : string) (more : list string) :
  Forall (fun t => forall c, In c (list_ascii_of_string t) ->
                             is_separator c = false) (t :: more) ->
  split_where is_separator (t +:+ Str.concat (map (fun t => ", " +:+ t) more))
  = t :: map (fun t => String " " t) more.
Proof.
  revert t. induction more as [|t2 more IH]; intros t Hall.
  - cbn [map Str.concat fold_right]. rewrite append_empty.
    apply split_where_none. now apply Forall_cons in Hall as [H _].
  - apply Forall_cons in Hall as [Ht Hmore].
    cbn [map Str.concat fold_right].
    fold (Str.concat (map (fun t => ", " +:+ t) more)).
    change ((", " +:+ t2) +:+ Str.concat (map (fun t => ", " +:+ t) more))
      with (String "," (String " " t2 +:+ Str.concat (map (fun t => ", " +:+ t) more))).
    rewrite split_where_append by (auto || reflexivity).
    cbn [map]. f_equal.
    apply (IH (String " " t2)).
    apply Forall_cons in Hmore as [Ht2 Hmore]. constructor; [|exact Hmore].
    intros c [<-|Hc]; [reflexivity | auto].
Qed.

Lemma one_line_append (a b : string) :
  one_line (a +:+ b) = one_line a && one_line b.
Proof.
  induction a as [|c a IH]; [reflexivity|].
  change (String c a +:+ b) with (String c (a +:+ b)).
  cbn [one_line]. rewrite IH. now rewrite andb_assoc.
Qed.

Lemma one_line_listed (more : list string) :
  Forall (fun t => one_line t = true) more ->
  one_line (Str.concat (map (fun t => ", " +:+ t) more)) = true.
Proof.
  induction more as [|t more IH]; intros H; [reflexivity|].
  apply Forall_cons in H as [Ht Hmore].
  cbn [map Str.concat fold_right].
  fold (Str.concat (map (fun t => ", " +:+ t) more)).
  rewrite !one_line_append, Ht, IH by exact Hmore. reflexivity.
Qed.

Lemma trimEnd_listed (t : string) (more : list string) :
  Forall (fun t => t <> EmptyString /\ Str.trimEnd t = t) (t :: more) ->
  t +:+ Str.concat (map (fun t => ", " +:+ t) more) <> EmptyString
  /\ Str.trimEnd (t +:+ Str.concat (map (fun t => ", " +:+ t) more))
     = t +:+ Str.concat (map (fun t => ", " +:+ t) more).
Proof.
  revert t. induction more as [|t2 more IH]; intros t Hall;
    apply Forall_cons in Hall as [[Hne Ht] Hmore].
  - cbn [map Str.concat fold_right]. rewrite append_empty.
    now split.
  - split; [destruct t; [congruence | discriminate]|].
    cbn [map Str.concat fold_right].
    fold (Str.concat (map (fun t => ", " +:+ t) more)).
    destruct (IH t2 Hmore) as [Hne2 Ht2].
    rewrite (append_assoc ", " t2 (Str.concat (map (fun t => ", " +:+ t) more))).
    rewrite <- (append_assoc t ", " (t2 +:+ Str.concat (map (fun t => ", " +:+ t) more))).
    rewrite trimEnd_append by (rewrite Ht2; exact Hne2).
    now rewrite Ht2.
Qed.

Lemma trimmed_pieces (l : list string) :
  Forall (fun t => t <> EmptyString /\ Str.trim t = t) l ->
  List.filter nonempty (map Str.trim (map (fun t => String " " t) l)) = l.
Proof.
  induction 1 as [|t l [Hne Ht] _ IH]; [reflexivity|].
  cbn [map List.filter].
  change (Str.trim (String " " t)) with (Str.trim t). rewrite Ht.
  unfold nonempty at 1. apply String.eqb_neq in Hne. rewrite Hne.
  cbn [negb]. now rewrite IH.
Qed.

(** X23.  A list of titles written out after [create notes:], with a
    comma and a space between them, is read back as it was, provided each
    title is one the parser could itself return: not empty, no white space
    at either end, no comma, semicolon or line break inside. *)
Theorem listed_titles_are_read_back (title : string) (more : list string) :
  Forall (fun t =>
            t <> EmptyString
            /\ Str.trim t = t
            /\ forall c, In c (list_ascii_of_string t) ->
                         is_separator c = false
                         /\ is_line_terminator c = false)
    (title :: more) ->
  parseCreateNotesCommand
    ("create notes: " +:+ title
     +:+ Str.concat (map (fun t => ", " +:+ t) more))
  = title :: more.
Proof.
  intros Hall.
  assert (Hsep : Forall (fun t => forall c, In c (list_ascii_of_string t) ->
                                            is_separator c = false)
                   (title :: more)).
  { eapply Forall_impl; [exact Hall|]. cbn. intros t (_ & _ & H) c Hc.
    apply H, Hc. }
  assert (Hline : Forall (fun t => one_line t = true) (title :: more)).
  { eapply Forall_impl; [exact Hall|]. cbn. intros t (_ & _ & H).
    apply one_line_chars. intros c Hc. apply H, Hc. }
  assert (Hends : Forall (fun t => t <> EmptyString /\ Str.trimEnd t = t)
                    (title :: more)).
  { eapply Forall_impl; [exact Hall|]. cbn. intros t (Hne & Ht & _).
    split; [exact Hne | apply trim_fixed, Ht]. }
  assert (Htrims : Forall (fun t => t <> EmptyString /\ Str.trim t = t)
                     (title :: more)).
  { eapply Forall_impl; [exact Hall|]. cbn. tauto. }
  destruct (trimEnd_listed title more Hends) as [Hne Hend].
  apply Forall_cons in Hline as [Hline1 Hlines].
  pose proof (Forall_inv Hall) as (Hne1 & Htrim1 & _).
  apply trim_fixed in Htrim1 as [Hstart1 _].
  set (body := title +:+ Str.concat (map (fun t => ", " +:+ t) more)) in *.
  unfold parseCreateNotesCommand.
  (* the text is its own trimming *)
  assert (Htrim : Str.trim ("create notes: " +:+ body)
                  = "create notes: " +:+ body).
  { unfold Str.trim.
    change (Str.trimStart ("create notes: " +:+ body))
      with ("create notes: " +:+ body).
    rewrite trimEnd_append by (rewrite Hend; exact Hne). now rewrite Hend. }
  rewrite Htrim.
  change (command ("create notes: " +:+ body)) with (payload (String " " body)).
  (* the captured group is what follows the white space *)
  assert (Hpay : payload (String " " body) = Some body).
  { assert (Hrest : rest_of_line body = Some body).
    { unfold rest_of_line. apply String.eqb_neq in Hne. rewrite Hne.
      unfold body. rewrite one_line_append, Hline1, one_line_listed by exact Hlines.
      reflexivity. }
    cbn [payload]. change (Str.is_space " ") with true. cbv iota.
    pose proof (trimStart_head title) as Hhead. rewrite Hstart1 in Hhead.
    destruct title as [|c0 t0] eqn:Htitle; [congruence|].
    replace (payload body) with (rest_of_line body); [now rewrite Hrest|].
    unfold body.
    change (String c0 t0 +:+ Str.concat (map (fun t => ", " +:+ t) more))
      with (String c0 (t0 +:+ Str.concat (map (fun t => ", " +:+ t) more))).
    cbn [payload]. now rewrite Hhead. }
  rewrite Hpay. unfold body. rewrite split_listed by exact Hsep.
  exact (trimmed_pieces (title :: more) Htrims).
Qed.

Lemma listed_titles_are_read_back_witness :
  parseCreateNotesCommand "create notes: Alpha, Beta b, Gamma"
  = ["Alpha"; "Beta b"; "Gamma"].
Proof.
  apply (listed_titles_are_read_back "Alpha" ["Beta b"; "Gamma"]).
  repeat (apply Forall_cons; split; [|]); [| | |constructor].
  all: split; [discriminate|]; split; [reflexivity|].
  all: intros c Hc; cbn in Hc.
  all: repeat (destruct Hc as [<-|Hc]; [split; reflexivity|]); destruct Hc.
Defined.

End CommandRoundTrip.

Section CommandOnOneLine.
Import Notes.

Lemma one_line_break (a b : string) :
  one_line (a +:+ String Str.nl b) = false.
Proof.
  rewrite one_line_append. cbn [one_line].
  change (is_line_terminator Str.nl) with true.
  cbn [negb andb]. apply andb_false_r.
Qed.

(** X24.  A command whose titles run over more than one line is not taken
    as a command: when what follows [create notes: ] starts with a
    character that is not white space and has a line break with something
    other than white space after it, no title is returned. *)
Theorem titles_on_several_lines_are_not_a_command (a b : string) :
  a <> EmptyString -> Str.trimStart a = a -> Str.trimEnd b <> EmptyString ->
  parseCreateNotesCommand ("create notes: " +:+ a +:+ String Str.nl b) = [].
Proof.
  intros Ha Hstart Hb. unfold parseCreateNotesCommand.
  assert (Htrim : Str.trim ("create notes: " +:+ a +:+ String Str.nl b)
                  = "create notes: " +:+ a +:+ String Str.nl (Str.trimEnd b)).
  { assert (H1 : Str.trimEnd (String Str.nl b) = String Str.nl (Str.trimEnd b)).
    { cbn [Str.trimEnd]. destruct (Str.trimEnd b); [congruence | reflexivity]. }
    assert (H2 : Str.trimEnd (a +:+ String Str.nl b)
                 = a +:+ String Str.nl (Str.trimEnd b)).
    { rewrite trimEnd_append; rewrite H1; [reflexivity | discriminate]. }
    unfold Str.trim.
    change (Str.trimStart ("create notes: " +:+ a +:+ String Str.nl b))
      with ("create notes: " +:+ a +:+ String Str.nl b).
    rewrite trimEnd_append; rewrite H2; [reflexivity|].
    destruct a; [congruence | discriminate]. }
  rewrite Htrim.
  change (command ("create notes: " +:+ a +:+ String Str.nl (Str.trimEnd b)))
    with (payload (String " " (a +:+ String Str.nl (Str.trimEnd b)))).
  assert (Hnone : payload (String " " (a +:+ String Str.nl (Str.trimEnd b)))
                  = None); [|now rewrite Hnone].
  pose proof (trimStart_head a) as Hhead. rewrite Hstart in Hhead.
  destruct a as [|c a]; [congruence|].
  cbn [payload]. change (Str.is_space " ") with true. cbv iota.
  change (String c a +:+ ?x) with (String c (a +:+ x)).
  cbn [payload]. rewrite Hhead.
  unfold rest_of_line.
  change (String " " (String c (a +:+ String Str.nl (Str.trimEnd b))))
    with (String " " (String c a) +:+ String Str.nl (Str.trimEnd b)).
  rewrite one_line_break.
  change (String c (a +:+ String Str.nl (Str.trimEnd b)))
    with (String c a +:+ String Str.nl (Str.trimEnd b)).
  rewrite one_line_break. rewrite !andb_false_r. reflexivity.
Qed.

Lemma titles_on_several_lines_are_not_a_command_witness :
  parseCreateNotesCommand ("create notes: Alpha" +:+ String Str.nl "Beta") = [].
Proof.
  apply (titles_on_several_lines_are_not_a_command "Alpha" "Beta").
  - discriminate.
  - reflexivity.
  - discriminate.
Defined.

End CommandOnOneLine.

(** ** Paths for new notes *)

Section NotePathFacts.
Import Notes.

Lemma chars_remove_where (bad : ascii -> bool) (s : string) (c : ascii) :
  In c (list_ascii_of_string (remove_where bad s)) ->
  bad c = false /\ In c (list_ascii_of_string s).
Proof.
  induction s as [|d s IH]; cbn [remove_where]; [intros []|].
  destruct (bad d) eqn:Hd.
  - intros H. destruct (IH H). split; [assumption | now right].
  - intros [<-|H]; [split; [exact Hd | now left]|].
    destruct (IH H). split; [assumption | now right].
Qed.

Lemma remove_where_none (bad : ascii -> bool) (s : string) :
  (forall c, In c (list_ascii_of_string s) -> bad c = false) ->
  remove_where bad s = s.
Proof.
  induction s as [|d s IH]; intros H; [reflexivity|]. cbn [remove_where].
  rewrite (H d) by now left. rewrite IH by (intros c Hc; apply H; now right).
  reflexivity.
Qed.

Variable normalizePath : string -> string.

Lemma numbered_inj (base : string) (i j : Z) :
  numbered base i = numbered base j -> i = j.
Proof.
  unfold numbered. intros H. apply append_inj_head in H.
  apply (append_inj_head " (") in H.
  apply append_inj_tail in H as [H _]; [|reflexivity]. now apply of_Z_inj.
Qed.

Lemma numbered_not_plain (base : string) (i : Z) :
  numbered base i <> base +:+ ".md".
Proof.
  unfold numbered. intros H. apply append_inj_head in H. discriminate.
Qed.

(** The loop, from a state in which the candidates tried so far are in
    the vault and those still to come are new. *)
Lemma probe_spec (paths : gset string) (base : string) (fuel : nat)
  (tried : list string) (candidate : string) (index : Z) :
  NoDup tried ->
  (forall x, x ∈ tried -> x ∈ paths) ->
  candidate ∉ tried ->
  (forall j, index <= j -> numbered base j ∉ candidate :: tried) ->
  (size paths <= fuel + length tried)%nat ->
  exists found,
    probe fuel paths base candidate index = Some found
    /\ (found ∉ paths)
    /\ (found = candidate
        \/ candidate ∈ paths
           /\ exists i, index <= i /\ found = numbered base i
                        /\ forall j, index <= j < i -> numbered base j ∈ paths).
Proof.
  revert tried candidate index.
  induction fuel as [|fuel IH]; intros tried candidate index Hnd Hin Hnew Hnext Hsize.
  - cbn [probe]. destruct (bool_decide (candidate ∈ paths)) eqn:Hc.
    + exfalso. apply bool_decide_eq_true in Hc.
      assert (Hsub : list_to_set (candidate :: tried) ⊆ paths).
      { intros x Hx. apply elem_of_list_to_set, elem_of_cons in Hx as [->|Hx];
          auto. }
      apply subseteq_size in Hsub.
      rewrite size_list_to_set in Hsub by (constructor; assumption).
      cbn in Hsub, Hsize. lia.
    + apply bool_decide_eq_false in Hc. exists candidate. auto.
  - cbn [probe]. destruct (bool_decide (candidate ∈ paths)) eqn:Hc.
    + apply bool_decide_eq_true in Hc.
      destruct (IH (candidate :: tried) (numbered base index) (index + 1))
        as (found & Hprobe & Hfree & Hshape).
      * constructor; assumption.
      * intros x Hx. apply elem_of_cons in Hx as [->|Hx]; auto.
      * apply Hnext. lia.
      * intros j Hj Hmem. apply elem_of_cons in Hmem as [Heq|Hmem].
        -- apply numbered_inj in Heq. lia.
        -- apply (Hnext j); [lia | exact Hmem].
      * cbn [length]. lia.
      * exists found. split; [exact Hprobe|]. split; [exact Hfree|].
        right. split; [exact Hc|].
        destruct Hshape as [->|(Hc' & i & Hi & -> & Hbelow)].
        -- exists index. split; [lia|]. split; [reflexivity|]. intros j Hj. lia.
        -- exists i. split; [lia|]. split; [reflexivity|].
           intros j Hj. destruct (Z.eq_dec j index) as [->|Hne];
             [exact Hc' | apply Hbelow; lia].
    + apply bool_decide_eq_false in Hc. exists candidate. auto.
Qed.

End NotePathFacts.

Section NotePathTheorem.
Import Notes.

(** X25.  [getUniqueNotePath] always finds a path, and the path it returns
    is not in the vault.  It is the plain path when that is free, and
    otherwise the numbered path with the lowest number, counting from one,
    that is free; as many turns of its loop as the vault has paths are
    enough. *)
Theorem unique_note_path_is_free (normalizePath : string -> string)
  (paths : gset string) (folderPath title : string) (fuel : nat) :
  (size paths <= fuel)%nat ->
  let base := basePath normalizePath folderPath title in
  exists found,
    getUniqueNotePath normalizePath fuel paths folderPath title = Some found
    /\ (found ∉ paths)
    /\ (found = base +:+ ".md"
        \/ (base +:+ ".md") ∈ paths
           /\ exists i, 1 <= i /\ found = numbered base i
                        /\ forall j, 1 <= j < i -> numbered base j ∈ paths).
Proof.
  intros Hfuel base. unfold getUniqueNotePath. fold base.
  apply (probe_spec paths base fuel []).
  - constructor.
  - intros x Hx. now apply elem_of_nil in Hx.
  - apply not_elem_of_nil.
  - intros j _ Hmem. apply list_elem_of_singleton in Hmem.
    now apply numbered_not_plain in Hmem.
  - cbn [length]. lia.
Qed.

Lemma unique_note_path_is_free_witness :
  exists found,
    getUniqueNotePath (fun p => p) 2 {["f/T.md"; "f/T (1).md"]} "f" "T"
    = Some found
    /\ (found ∉ ({["f/T.md"; "f/T (1).md"]} : gset string))
    /\ (found = "f/T.md"
        \/ "f/T.md" ∈ ({["f/T.md"; "f/T (1).md"]} : gset string)
           /\ exists i, 1 <= i /\ found = numbered "f/T" i
                        /\ forall j, 1 <= j < i ->
                             numbered "f/T" j
                             ∈ ({["f/T.md"; "f/T (1).md"]} : gset string)).
Proof.
  apply (unique_note_path_is_free (fun p => p) {["f/T.md"; "f/T (1).md"]}
           "f" "T" 2).
  vm_compute. lia.
Defined.

(** X26.  The title a note is created under is always usable as a file
    name: it is not empty, has no white space at either end, and holds
    none of the characters the pattern strips.  A title that already is
    like that is kept as it is. *)
Theorem safe_title_is_a_plain_name (title : string) :
  safeTitle title <> EmptyString
  /\ Str.trim (safeTitle title) = safeTitle title
  /\ (forall c, In c (list_ascii_of_string (safeTitle title)) ->
                forbidden c = false)
  /\ (title <> EmptyString -> Str.trim title = title ->
      (forall c, In c (list_ascii_of_string title) -> forbidden c = false) ->
      safeTitle title = title).
Proof.
  unfold safeTitle. split; [|split; [|split]].
  - destruct (String.eqb _ EmptyString) eqn:H; [discriminate|].
    now apply String.eqb_neq in H.
  - destruct (String.eqb _ EmptyString); [reflexivity | apply trim_idem].
  - destruct (String.eqb _ EmptyString).
    + cbn. intros c H.
      repeat (destruct H as [<-|H]; [reflexivity|]). destruct H.
    + intros c H. apply chars_trim, chars_remove_where in H. tauto.
  - intros Hne Htrim Hchars. rewrite remove_where_none by exact Hchars.
    rewrite Htrim. apply String.eqb_neq in Hne. now rewrite Hne.
Qed.

End NotePathTheorem.
